(** * fontscanner: a shallow embedding of [fontScanner.ts]

    The development follows the TypeScript source function by function:
    JavaScript strings are lists of UTF-16 code units, a Node [Buffer] is
    a list of bytes, JavaScript numbers that hold offsets and lengths are
    integers of [Z] (every value the scanner computes stays far below
    2^53, so no rounding occurs), a thrown exception is [None] (or the
    left injection of a sum) and a [try]/[catch] is the match that
    handles it.  Module-level mutable state (the font cache) is passed
    explicitly. *)

From Stdlib Require Import ZArith List Bool Lia String Ascii Permutation.
From Stdlib Require Strings.Byte.
Import ListNotations.
Open Scope Z_scope.

(** ** JavaScript strings *)

Module JS.

(** A string is its sequence of UTF-16 code units. *)
Definition jsstring := list Z.

(** A literal. *)
Definition lit (s : string) : jsstring :=
  map (fun a => Z.of_N (N_of_ascii a)) (list_ascii_of_string s).

(** [a === b] on strings. *)
Fixpoint str_eqb (a b : jsstring) : bool :=
  match a, b with
  | [], [] => true
  | x :: a', y :: b' => (x =? y) && str_eqb a' b'
  | _, _ => false
  end.

(** [a === b] where either side may be [undefined]. *)
Definition opt_str_eqb (a b : option jsstring) : bool :=
  match a, b with
  | Some x, Some y => str_eqb x y
  | None, None => true
  | _, _ => false
  end.

(** Truthiness of a string: the empty string is falsy. *)
Definition truthy (s : jsstring) : bool :=
  match s with [] => false | _ :: _ => true end.

(** Truthiness of a possibly [undefined] string. *)
Definition opt_truthy (o : option jsstring) : bool :=
  match o with Some s => truthy s | None => false end.

Definition strlen (s : jsstring) : Z := Z.of_nat (List.length s).

(** [s.charCodeAt(i)] for an index inside the string. *)
Definition charCodeAt (s : jsstring) (i : Z) : Z := nth (Z.to_nat i) s (-1).

(** Relative index of [String.prototype.slice]. *)
Definition relIndex (i len : Z) : Z :=
  if i <? 0 then Z.max (len + i) 0 else Z.min i len.

(** [s.slice(start, end)]. *)
Definition slice (s : jsstring) (start end_ : Z) : jsstring :=
  let from := relIndex start (strlen s) in
  let to := relIndex end_ (strlen s) in
  firstn (Z.to_nat (to - from)) (skipn (Z.to_nat from) s).

(** [s.substring(1)]. *)
Definition substring1 (s : jsstring) : jsstring := skipn 1 s.

(** [s.toLowerCase()], on the code units of the ASCII range; code units
    outside it are kept (the extensions and tags the scanner compares
    against are ASCII). *)
Definition lowerUnit (c : Z) : Z :=
  if (65 <=? c) && (c <=? 90) then c + 32 else c.

Definition toLowerCase (s : jsstring) : jsstring := map lowerUnit s.

(** [s.startsWith(p)] at the head of [s]. *)
Fixpoint startsWith (s p : jsstring) : bool :=
  match p, s with
  | [], _ => true
  | y :: p', x :: s' => (x =? y) && startsWith s' p'
  | _ :: _, [] => false
  end.

(** [s.includes(q)]. *)
Fixpoint includes (s q : jsstring) : bool :=
  startsWith s q ||
  match s with
  | [] => false
  | _ :: s' => includes s' q
  end.

(** [arr.includes(x)] for an array of strings. *)
Definition arrayIncludes (arr : list jsstring) (x : jsstring) : bool :=
  existsb (str_eqb x) arr.

(** WhiteSpace and LineTerminator code units, as [String.prototype.trim]
    strips them. *)
Definition isWhiteSpace (c : Z) : bool :=
  ((9 <=? c) && (c <=? 13)) || (c =? 32) || (c =? 160) || (c =? 5760) ||
  ((8192 <=? c) && (c <=? 8202)) || (c =? 8232) || (c =? 8233) ||
  (c =? 8239) || (c =? 8287) || (c =? 12288) || (c =? 65279).

Fixpoint trimStart (s : jsstring) : jsstring :=
  match s with
  | c :: s' => if isWhiteSpace c then trimStart s' else s
  | [] => []
  end.

Definition trimEnd (s : jsstring) : jsstring := rev (trimStart (rev s)).

(** [s.trim()]. *)
Definition trim (s : jsstring) : jsstring := trimEnd (trimStart s).

(** [s.replace(/\0/g, '')]. *)
Definition stripNul (s : jsstring) : jsstring :=
  filter (fun c => negb (c =? 0)) s.

End JS.

Export JS.

(** ** Node's [path] module (POSIX flavour)

    [extname] and [basename] are Node library functions; they are
    written here after the loops of Node's [lib/path.js], scanning the
    path from its last character. *)

Module Path.

Definition CHAR_FORWARD_SLASH : Z := 47.
Definition CHAR_DOT : Z := 46.

Record ExtState := mkExtState {
  startDot : Z;
  startPart : Z;
  extEnd : Z;
  matchedSlash : bool;
  preDotState : Z;
  stopped : bool
}.

(** One iteration of the loop of [extname] at index [i]. *)
Definition extnameStep (p : jsstring) (i : Z) (st : ExtState) : ExtState :=
  let code := charCodeAt p i in
  if code =? CHAR_FORWARD_SLASH then
    if negb (matchedSlash st)
    then mkExtState (startDot st) (i + 1) (extEnd st) (matchedSlash st)
                    (preDotState st) true
    else st
  else
    let st1 :=
      if extEnd st =? -1
      then mkExtState (startDot st) (startPart st) (i + 1) false
                      (preDotState st) false
      else st in
    if code =? CHAR_DOT then
      if startDot st1 =? -1
      then mkExtState i (startPart st1) (extEnd st1) (matchedSlash st1)
                      (preDotState st1) false
      else if negb (preDotState st1 =? 1)
      then mkExtState (startDot st1) (startPart st1) (extEnd st1)
                      (matchedSlash st1) 1 false
      else st1
    else if negb (startDot st1 =? -1)
    then mkExtState (startDot st1) (startPart st1) (extEnd st1)
                    (matchedSlash st1) (-1) false
    else st1.

(** [for (let i = path.length - 1; i >= 0; --i)]: [n] is [i + 1]. *)
Fixpoint extnameLoop (p : jsstring) (n : nat) (st : ExtState) : ExtState :=
  match n with
  | O => st
  | S i =>
    let st' := extnameStep p (Z.of_nat i) st in
    if stopped st' then st' else extnameLoop p i st'
  end.

(** [path.extname(p)]. *)
Definition extname (p : jsstring) : jsstring :=
  let st := extnameLoop p (List.length p)
              (mkExtState (-1) 0 (-1) true 0 false) in
  if (startDot st =? -1) || (extEnd st =? -1) || (preDotState st =? 0) ||
     ((preDotState st =? 1) && (startDot st =? extEnd st - 1) &&
      (startDot st =? startPart st + 1))
  then []
  else slice p (startDot st) (extEnd st).

Record BaseState := mkBaseState {
  bStart : Z;
  bEnd : Z;
  bMatchedSlash : bool;
  extIdx : Z;
  firstNonSlashEnd : Z;
  bStopped : bool
}.

(** One iteration of the loop of [basename] when a suffix is given. *)
Definition basenameSuffixStep (p suffix : jsstring) (i : Z) (st : BaseState)
  : BaseState :=
  let code := charCodeAt p i in
  if code =? CHAR_FORWARD_SLASH then
    if negb (bMatchedSlash st)
    then mkBaseState (i + 1) (bEnd st) (bMatchedSlash st) (extIdx st)
                     (firstNonSlashEnd st) true
    else st
  else
    let st1 :=
      if firstNonSlashEnd st =? -1
      then mkBaseState (bStart st) (bEnd st) false (extIdx st) (i + 1) false
      else st in
    if 0 <=? extIdx st1 then
      if code =? charCodeAt suffix (extIdx st1) then
        if extIdx st1 - 1 =? -1
        then mkBaseState (bStart st1) i (bMatchedSlash st1) (extIdx st1 - 1)
                         (firstNonSlashEnd st1) false
        else mkBaseState (bStart st1) (bEnd st1) (bMatchedSlash st1)
                         (extIdx st1 - 1) (firstNonSlashEnd st1) false
      else mkBaseState (bStart st1) (firstNonSlashEnd st1) (bMatchedSlash st1)
                       (-1) (firstNonSlashEnd st1) false
    else st1.

Fixpoint basenameSuffixLoop (p suffix : jsstring) (n : nat) (st : BaseState)
  : BaseState :=
  match n with
  | O => st
  | S i =>
    let st' := basenameSuffixStep p suffix (Z.of_nat i) st in
    if bStopped st' then st' else basenameSuffixLoop p suffix i st'
  end.

(** One iteration of the loop of [basename] without a usable suffix. *)
Definition basenamePlainStep (p : jsstring) (i : Z) (st : BaseState)
  : BaseState :=
  if charCodeAt p i =? CHAR_FORWARD_SLASH then
    if negb (bMatchedSlash st)
    then mkBaseState (i + 1) (bEnd st) (bMatchedSlash st) (extIdx st)
                     (firstNonSlashEnd st) true
    else st
  else if bEnd st =? -1
  then mkBaseState (bStart st) (i + 1) false (extIdx st)
                   (firstNonSlashEnd st) false
  else st.

Fixpoint basenamePlainLoop (p : jsstring) (n : nat) (st : BaseState)
  : BaseState :=
  match n with
  | O => st
  | S i =>
    let st' := basenamePlainStep p (Z.of_nat i) st in
    if bStopped st' then st' else basenamePlainLoop p i st'
  end.

(** [path.basename(p, suffix)].  The suffix is compared code unit by code
    unit, so it is case-sensitive. *)
Definition basename (p suffix : jsstring) : jsstring :=
  if (0 <? strlen suffix) && (strlen suffix <=? strlen p) then
    if str_eqb suffix p then []
    else
      let st := basenameSuffixLoop p suffix (List.length p)
                  (mkBaseState 0 (-1) true (strlen suffix - 1) (-1) false) in
      let end_ :=
        if bStart st =? bEnd st then firstNonSlashEnd st
        else if bEnd st =? -1 then strlen p
        else bEnd st in
      slice p (bStart st) end_
  else
    let st := basenamePlainLoop p (List.length p)
                (mkBaseState 0 (-1) true (-1) (-1) false) in
    if bEnd st =? -1 then [] else slice p (bStart st) (bEnd st).

End Path.

(** ** Node's [Buffer] *)

Definition Buffer := list Byte.byte.

Module Buf.

Definition u8 (b : Byte.byte) : Z := Z.of_N (Byte.to_N b).

(** [buffer.length]. *)
Definition length (buffer : Buffer) : Z := Z.of_nat (List.length buffer).

(** [buffer[i]]: [None] stands for [undefined]. *)
Definition at_ (buffer : Buffer) (i : Z) : option Z :=
  if i <? 0 then None else option_map u8 (nth_error buffer (Z.to_nat i)).

(** [buffer.readUInt16BE(offset)]: [None] when Node throws
    [ERR_OUT_OF_RANGE]. *)
Definition readUInt16BE (buffer : Buffer) (offset : Z) : option Z :=
  match at_ buffer offset, at_ buffer (offset + 1) with
  | Some first, Some last => Some (first * 2 ^ 8 + last)
  | _, _ => None
  end.

(** [buffer.readUInt32BE(offset)]. *)
Definition readUInt32BE (buffer : Buffer) (offset : Z) : option Z :=
  match at_ buffer offset, at_ buffer (offset + 1),
        at_ buffer (offset + 2), at_ buffer (offset + 3) with
  | Some first, Some b1, Some b2, Some last =>
      Some (first * 2 ^ 24 + b1 * 2 ^ 16 + b2 * 2 ^ 8 + last)
  | _, _, _, _ => None
  end.

(** Node's [adjustOffset]. *)
Definition adjustOffset (offset len : Z) : Z :=
  if offset =? 0 then 0
  else if offset <? 0 then (if 0 <? offset + len then offset + len else 0)
  else if offset <? len then offset
  else len.

(** [buffer.slice(start, end)]: never throws, the range is clamped. *)
Definition slice (buffer : Buffer) (start end_ : Z) : Buffer :=
  let s := adjustOffset start (length buffer) in
  let e := adjustOffset end_ (length buffer) in
  let newLength := if s <? e then e - s else 0 in
  firstn (Z.to_nat newLength) (skipn (Z.to_nat s) buffer).

(** [buffer.toString('ascii', start, end)]: the highest bit of every byte
    is cleared. *)
Definition toStringAscii (buffer : Buffer) (start end_ : Z) : jsstring :=
  map (fun b => Z.land (u8 b) 127) (slice buffer start end_).

(** A buffer from a list of byte values, for the concrete inputs below. *)
Definition ofList (l : list Z) : Buffer :=
  map (fun z => match Byte.of_N (Z.to_N z) with
                | Some b => b
                | None => Byte.x00
                end) l.

End Buf.

(** ** The data model *)

Inductive FontStyle := normal | italic | oblique.

(** A font entry as the object it is at run time: every property may be
    absent.  [Partial<FontEntry>] and [FontEntry] are this one record;
    [metadata as FontEntry] is the identity. *)
Record FontEntry := mkFontEntry {
  name : option jsstring;
  path : option jsstring;
  format : option jsstring;
  family : option jsstring;
  weight : option Z;
  style : option FontStyle;
  version : option jsstring;
  copyright : option jsstring;
  isMonospace : option bool;
  fileSize : option Z;
  lastModified : option Z
}.

(** The object literal [{}]. *)
Definition emptyEntry : FontEntry :=
  mkFontEntry None None None None None None None None None None None.

(** A property of the source object replaces the target's when present. *)
Definition orElse {A} (src target : option A) : option A :=
  match src with Some _ => src | None => target end.

(** [Object.assign(target, src)], also the spread [{...target, ...src}]. *)
Definition assign (target src : FontEntry) : FontEntry :=
  mkFontEntry
    (orElse (name src) (name target))
    (orElse (path src) (path target))
    (orElse (format src) (format target))
    (orElse (family src) (family target))
    (orElse (weight src) (weight target))
    (orElse (style src) (style target))
    (orElse (version src) (version target))
    (orElse (copyright src) (copyright target))
    (orElse (isMonospace src) (isMonospace target))
    (orElse (fileSize src) (fileSize target))
    (orElse (lastModified src) (lastModified target)).

Inductive ErrorCode :=
  FILE_NOT_FOUND | PERMISSION_DENIED | INVALID_FONT | PARSE_ERROR | UNKNOWN.

Record FontError := mkFontError {
  errorPath : jsstring;
  message : jsstring;
  code : ErrorCode
}.

Record ScanStats := mkScanStats {
  directoriesScanned : Z;
  filesProcessed : Z;
  fontsFound : Z;
  filesFailed : Z;
  scanTimeMs : Z
}.

Record FontScanResult := mkFontScanResult {
  fonts : list FontEntry;
  errors : list FontError;
  stats : ScanStats
}.

Record FontScanOptions := mkFontScanOptions {
  useCache : option bool;
  includeSystemFonts : option bool;
  includeUserFonts : option bool;
  customDirs : option (list jsstring)
}.

(** The properties the table decoders write, and their values. *)
Inductive Field :=
  FName | FFamily | FVersion | FCopyright | FWeight | FStyle | FIsMonospace.

Inductive FieldValue :=
| VString (s : jsstring)
| VNumber (n : Z)
| VStyle (s : FontStyle)
| VBoolean (b : bool).

Definition getField (f : Field) (m : FontEntry) : option FieldValue :=
  match f with
  | FName => option_map VString (name m)
  | FFamily => option_map VString (family m)
  | FVersion => option_map VString (version m)
  | FCopyright => option_map VString (copyright m)
  | FWeight => option_map VNumber (weight m)
  | FStyle => option_map VStyle (style m)
  | FIsMonospace => option_map VBoolean (isMonospace m)
  end.

(** Property writes [result.f = v]. *)
Definition setName (v : jsstring) (m : FontEntry) : FontEntry :=
  mkFontEntry (Some v) (path m) (format m) (family m) (weight m) (style m)
    (version m) (copyright m) (isMonospace m) (fileSize m) (lastModified m).

Definition setFamily (v : jsstring) (m : FontEntry) : FontEntry :=
  mkFontEntry (name m) (path m) (format m) (Some v) (weight m) (style m)
    (version m) (copyright m) (isMonospace m) (fileSize m) (lastModified m).

Definition setVersion (v : jsstring) (m : FontEntry) : FontEntry :=
  mkFontEntry (name m) (path m) (format m) (family m) (weight m) (style m)
    (Some v) (copyright m) (isMonospace m) (fileSize m) (lastModified m).

Definition setCopyright (v : jsstring) (m : FontEntry) : FontEntry :=
  mkFontEntry (name m) (path m) (format m) (family m) (weight m) (style m)
    (version m) (Some v) (isMonospace m) (fileSize m) (lastModified m).

Definition setWeight (v : Z) (m : FontEntry) : FontEntry :=
  mkFontEntry (name m) (path m) (format m) (family m) (Some v) (style m)
    (version m) (copyright m) (isMonospace m) (fileSize m) (lastModified m).

Definition setStyle (v : FontStyle) (m : FontEntry) : FontEntry :=
  mkFontEntry (name m) (path m) (format m) (family m) (weight m) (Some v)
    (version m) (copyright m) (isMonospace m) (fileSize m) (lastModified m).

Definition setIsMonospace (v : bool) (m : FontEntry) : FontEntry :=
  mkFontEntry (name m) (path m) (format m) (family m) (weight m) (style m)
    (version m) (copyright m) (Some v) (fileSize m) (lastModified m).

(** ** The table decoders *)

(** [decodeUtf16BE]: the loop [for (i = 0; i < buffer.length - 1; i += 2)]
    consumes the bytes two at a time and drops a trailing odd byte. *)
Fixpoint decodeUtf16BE (buffer : Buffer) : jsstring :=
  match buffer with
  | byte1 :: byte2 :: rest =>
      let charCode := Z.lor (Z.shiftl (Buf.u8 byte1) 8) (Buf.u8 byte2) in
      (if charCode =? 0 then [] else [charCode]) ++ decodeUtf16BE rest
  | _ => []
  end.

(** The [switch (nameID)] of [parseNameTable]. *)
Definition assignNameField (result : FontEntry) (nameID : Z)
  (nameStr : jsstring) : FontEntry :=
  if nameID =? 1 then setFamily nameStr result
  else if nameID =? 4 then setName nameStr result
  else if nameID =? 5 then setVersion nameStr result
  else if nameID =? 0 then setCopyright nameStr result
  else result.

(** The body of the record loop of [parseNameTable] after its bounds
    check; [None] when one of the reads throws. *)
Definition nameRecord (buffer : Buffer) (stringOffset recordOffset : Z)
  (result : FontEntry) : option FontEntry :=
  match Buf.readUInt16BE buffer (recordOffset + 6),
        Buf.readUInt16BE buffer (recordOffset + 8),
        Buf.readUInt16BE buffer (recordOffset + 10) with
  | Some nameID, Some stringLength, Some stringOffsetInTable =>
      let start := stringOffset + stringOffsetInTable in
      if start + stringLength <=? Buf.length buffer then
        let nameBuf := Buf.slice buffer start (start + stringLength) in
        let nameStr := trim (stripNul (decodeUtf16BE nameBuf)) in
        if truthy nameStr
        then Some (assignNameField result nameID nameStr)
        else Some result
      else Some result
  | _, _, _ => None
  end.

(** [for (let j = 0; j < count; j++)]: [n] iterations remain.  An
    exception is caught by the function's [catch], which returns the
    result as it stands. *)
Fixpoint nameLoop (buffer : Buffer) (offset stringOffset : Z) (n : nat)
  (j : Z) (result : FontEntry) : FontEntry :=
  match n with
  | O => result
  | S n' =>
      let recordOffset := offset + 6 + j * 12 in
      if recordOffset + 12 >? Buf.length buffer then result
      else
        match nameRecord buffer stringOffset recordOffset result with
        | Some result' => nameLoop buffer offset stringOffset n' (j + 1) result'
        | None => result
        end
  end.

Definition parseNameTable (buffer : Buffer) (offset _length : Z) : FontEntry :=
  let result := emptyEntry in
  if offset + 6 >? Buf.length buffer then result
  else
    match Buf.readUInt16BE buffer (offset + 2) with
    | None => result
    | Some count =>
        match Buf.readUInt16BE buffer (offset + 4) with
        | None => result
        | Some so =>
            let stringOffset := offset + so in
            nameLoop buffer offset stringOffset (Z.to_nat count) 0 result
        end
    end.

(** The fsSelection block of [parseOS2Table]; [None] when its read
    throws. *)
Definition os2Selection (buffer : Buffer) (offset : Z) (result : FontEntry)
  : option FontEntry :=
  if offset + 64 <=? Buf.length buffer then
    match Buf.readUInt16BE buffer (offset + 62) with
    | None => None
    | Some fsSelection =>
        if negb (Z.land fsSelection 1 =? 0)
        then Some (setStyle italic result)
        else Some (setStyle normal result)
    end
  else Some result.

(** The PANOSE block of [parseOS2Table]. *)
Definition os2Panose (buffer : Buffer) (offset : Z) (result : FontEntry)
  : FontEntry :=
  if offset + 42 <=? Buf.length buffer then
    let panoseData := Buf.slice buffer (offset + 32) (offset + 42) in
    match Buf.at_ panoseData 3 with
    | Some b => if b =? 9 then setIsMonospace true result else result
    | None => result
    end
  else result.

Definition parseOS2Table (buffer : Buffer) (offset _length : Z) : FontEntry :=
  let result := emptyEntry in
  if offset + 8 >? Buf.length buffer then result
  else
    match Buf.readUInt16BE buffer (offset + 4) with
    | None => result
    | Some w =>
        let result := setWeight w result in
        match os2Selection buffer offset result with
        | None => result
        | Some result => os2Panose buffer offset result
        end
    end.

Definition parsePostTable (buffer : Buffer) (offset _length : Z) : FontEntry :=
  let result := emptyEntry in
  if offset + 32 >? Buf.length buffer then result
  else
    match Buf.readUInt32BE buffer (offset + 12) with
    | None => result
    | Some isFixedPitch =>
        if negb (isFixedPitch =? 0)
        then setIsMonospace true result
        else result
    end.

(** The body of the table loop of [parseTTFOTFFont] after its bounds
    check; [None] when a read throws. *)
Definition tableEntry (buffer : Buffer) (tableOffset : Z)
  (metadata : FontEntry) : option FontEntry :=
  let tag := Buf.toStringAscii buffer tableOffset (tableOffset + 4) in
  match Buf.readUInt32BE buffer (tableOffset + 8),
        Buf.readUInt32BE buffer (tableOffset + 12) with
  | Some tableDataOffset, Some tableLength =>
      if str_eqb tag (lit "name")
      then Some (assign metadata
                   (parseNameTable buffer tableDataOffset tableLength))
      else if str_eqb tag (lit "OS/2")
      then Some (assign metadata
                   (parseOS2Table buffer tableDataOffset tableLength))
      else if str_eqb tag (lit "post")
      then Some (assign metadata
                   (parsePostTable buffer tableDataOffset tableLength))
      else Some metadata
  | _, _ => None
  end.

(** [for (let i = 0; i < numTables; i++)]: [n] iterations remain; [None]
    when an exception leaves the loop. *)
Fixpoint tableLoop (buffer : Buffer) (n : nat) (i : Z) (metadata : FontEntry)
  : option FontEntry :=
  match n with
  | O => Some metadata
  | S n' =>
      let tableOffset := 12 + i * 16 in
      if tableOffset + 16 >? Buf.length buffer then Some metadata
      else
        match tableEntry buffer tableOffset metadata with
        | Some metadata' => tableLoop buffer n' (i + 1) metadata'
        | None => None
        end
  end.

(** [parseTTFOTFFont]: [None] is [null], returned for a short buffer and
    by the [catch]. *)
Definition parseTTFOTFFont (buffer : Buffer) : option FontEntry :=
  if Buf.length buffer <? 12 then None
  else
    match Buf.readUInt16BE buffer 4 with
    | None => None
    | Some numTables => tableLoop buffer (Z.to_nat numTables) 0 emptyEntry
    end.

(** ** The host: filesystem, platform and clock *)

(** What a failing filesystem call throws. *)
Inductive IOError := ENOENT | EACCES | EIO.

(** [fs.Stats], the two properties read. *)
Record FileStats := mkFileStats {
  size : Z;
  mtime : Z
}.

(** The collaborators of the scanner.  [walkDir h dir] is the list of
    files that one call of [walkDir(dir, fontFiles)] appends;
    [getPlatformFontDirs] is the directory list of the platform.  The
    promise API of [fs] answers as the synchronous one. *)
Record Host := mkHost {
  statSync : jsstring -> IOError + FileStats;
  readFileSync : jsstring -> IOError + Buffer;
  existsSync : jsstring -> bool;
  access : jsstring -> bool;
  walkDir : jsstring -> list jsstring;
  getPlatformFontDirs : FontScanOptions -> list jsstring
}.

(** The readings of [Date.now()] taken by one scan, in program order. *)
Record Clock := mkClock {
  startTime : Z;
  now : Z;
  endTime : Z
}.

Definition FONT_EXTENSIONS : list jsstring :=
  [lit ".ttf"; lit ".otf"; lit ".woff"; lit ".woff2"; lit ".ttc"; lit ".fon";
   lit ".fnt"].

(** The test by which [walkDir] takes a file as a candidate. *)
Definition isFontFile (fullPath : jsstring) : bool :=
  let ext := toLowerCase (Path.extname fullPath) in
  arrayIncludes FONT_EXTENSIONS ext.

(** ** Metadata synthesis *)

(** The tail of [readFontMetadataSync] once the file has been read. *)
Definition synthesize (fontPath : jsstring) (stats : FileStats)
  (buffer : Buffer) : FontEntry :=
  let ext := toLowerCase (Path.extname fontPath) in
  let baseMetadata :=
    mkFontEntry None (Some fontPath) (Some (substring1 ext)) None None None
      None None None (Some (size stats)) (Some (mtime stats)) in
  let fallback :=
    let name := Path.basename fontPath ext in
    setFamily name (setName name baseMetadata) in
  if arrayIncludes [lit ".ttf"; lit ".otf"; lit ".ttc"] ext then
    match parseTTFOTFFont buffer with
    | Some ttfMetadata =>
        if opt_truthy (name ttfMetadata)
        then assign baseMetadata ttfMetadata
        else fallback
    | None => fallback
    end
  else fallback.

(** [readFontMetadataSync]: [None] is the [null] of the [catch]. *)
Definition readFontMetadataSync (h : Host) (fontPath : jsstring)
  : option FontEntry :=
  match statSync h fontPath with
  | inl _ => None
  | inr stats =>
      match readFileSync h fontPath with
      | inl _ => None
      | inr buffer => Some (synthesize fontPath stats buffer)
      end
  end.

(** [readFontMetadataAsync]: the same steps on awaited results. *)
Definition readFontMetadataAsync (h : Host) (fontPath : jsstring)
  : option FontEntry :=
  match statSync h fontPath with
  | inl _ => None
  | inr stats =>
      match readFileSync h fontPath with
      | inl _ => None
      | inr buffer => Some (synthesize fontPath stats buffer)
      end
  end.

(** ** The cache *)

Record CacheState := mkCacheState {
  fontCache : option (list FontEntry);
  cacheTimestamp : Z
}.

(** The module-level initial values. *)
Definition initialCache : CacheState := mkCacheState None 0.

Definition CACHE_DURATION : Z := 300000.

Definition clearFontCache (c : CacheState) : CacheState :=
  mkCacheState None 0.

Definition arrayLength {A} (l : list A) : Z := Z.of_nat (List.length l).

(** [fontCache?.length || 0]. *)
Definition getCachedFontCount (c : CacheState) : Z :=
  match fontCache c with
  | Some l => arrayLength l
  | None => 0
  end.

(** [isCacheValid()], with the reading of [Date.now()] it takes. *)
Definition isCacheValid (dateNow : Z) (c : CacheState) : bool :=
  match fontCache c with
  | Some _ => dateNow - cacheTimestamp c <? CACHE_DURATION
  | None => false
  end.

(** [options.useCache !== false]. *)
Definition useCacheEnabled (options : FontScanOptions) : bool :=
  match useCache options with
  | Some false => false
  | _ => true
  end.

(** The cache test that opens both scans; an array, even empty, is
    truthy. *)
Definition cacheLookup (options : FontScanOptions) (c : CacheState)
  (now : Z) : option (list FontEntry) :=
  if useCacheEnabled options then
    match fontCache c with
    | Some cached =>
        if now - cacheTimestamp c <? CACHE_DURATION then Some cached else None
    | None => None
    end
  else None.

(** ** The scans *)

(** The accumulators of the file loop. *)
Record ScanLoop := mkScanLoop {
  accFonts : list FontEntry;
  accErrors : list FontError;
  accProcessed : Z;
  accFailed : Z
}.

Definition parseError (file : jsstring) : FontError :=
  mkFontError file (lit "Failed to extract font metadata") PARSE_ERROR.

(** One iteration of [for (const file of fontFiles)].  The [catch] of
    the loop body is never entered, [readFontMetadataSync] catches every
    exception itself. *)
Definition scanFile (h : Host) (st : ScanLoop) (file : jsstring) : ScanLoop :=
  let processed := accProcessed st + 1 in
  let failed :=
    mkScanLoop (accFonts st) (accErrors st ++ [parseError file]) processed
      (accFailed st + 1) in
  match readFontMetadataSync h file with
  | Some metadata =>
      if opt_truthy (name metadata)
      then mkScanLoop (accFonts st ++ [metadata]) (accErrors st) processed
             (accFailed st)
      else failed
  | None => failed
  end.

(** One callback of [fontDirs.forEach]. *)
Definition collectDir (h : Host) (acc : list jsstring * Z) (dir : jsstring)
  : list jsstring * Z :=
  if existsSync h dir then (fst acc ++ walkDir h dir, snd acc + 1) else acc.

(** One iteration of the directory loop of the asynchronous scan. *)
Definition collectDirAsync (h : Host) (acc : list jsstring * Z)
  (dir : jsstring) : list jsstring * Z :=
  if access h dir then (fst acc ++ walkDir h dir, snd acc + 1) else acc.

Definition cachedResult (cached : list FontEntry) (clk : Clock)
  : FontScanResult :=
  mkFontScanResult cached []
    (mkScanStats 0 (arrayLength cached) (arrayLength cached) 0
       (endTime clk - startTime clk)).

Definition freshResult (directoriesScanned : Z) (st : ScanLoop) (clk : Clock)
  : FontScanResult :=
  mkFontScanResult (accFonts st) (accErrors st)
    (mkScanStats directoriesScanned (accProcessed st)
       (arrayLength (accFonts st)) (accFailed st)
       (endTime clk - startTime clk)).

(** The cache update that closes both scans. *)
Definition updateCache (options : FontScanOptions) (fonts : list FontEntry)
  (now : Z) (c : CacheState) : CacheState :=
  if useCacheEnabled options then mkCacheState (Some fonts) now else c.

(** The candidate files of a scan and the number of directories walked. *)
Definition candidateFiles (h : Host) (options : FontScanOptions)
  : list jsstring * Z :=
  fold_left (collectDir h) (getPlatformFontDirs h options) ([], 0).

Definition candidateFilesAsync (h : Host) (options : FontScanOptions)
  : list jsstring * Z :=
  fold_left (collectDirAsync h) (getPlatformFontDirs h options) ([], 0).

Definition getAllFontsWithResultSync (h : Host) (clk : Clock)
  (options : FontScanOptions) (c : CacheState) : FontScanResult * CacheState :=
  match cacheLookup options c (now clk) with
  | Some cached => (cachedResult cached clk, c)
  | None =>
      let (fontFiles, directoriesScanned) := candidateFiles h options in
      let st := fold_left (scanFile h) fontFiles (mkScanLoop [] [] 0 0) in
      (freshResult directoriesScanned st clk,
       updateCache options (accFonts st) (now clk) c)
  end.

(** What one promise of a batch resolves to. *)
Record BatchResult := mkBatchResult {
  success : bool;
  font : option FontEntry;
  error : option FontError
}.

Definition batchFile (h : Host) (file : jsstring) : BatchResult :=
  let failure := mkBatchResult false None (Some (parseError file)) in
  match readFontMetadataAsync h file with
  | Some metadata =>
      if opt_truthy (name metadata)
      then mkBatchResult true (Some metadata) None
      else failure
  | None => failure
  end.

(** One iteration of [for (const result of batchResults)]. *)
Definition collectBatchResult (st : ScanLoop) (result : BatchResult)
  : ScanLoop :=
  match success result, font result, error result with
  | true, Some f, _ =>
      mkScanLoop (accFonts st ++ [f]) (accErrors st) (accProcessed st)
        (accFailed st)
  | false, _, Some e =>
      mkScanLoop (accFonts st) (accErrors st ++ [e]) (accProcessed st)
        (accFailed st + 1)
  | _, _, _ => st
  end.

Definition batchSize : Z := 50.

(** [fontFiles.slice(i, i + batchSize)] for [0 <= i]. *)
Definition arraySlice {A} (l : list A) (from to : Z) : list A :=
  firstn (Z.to_nat (to - from)) (skipn (Z.to_nat from) l).

(** [for (let i = 0; i < fontFiles.length; i += batchSize)].  Every
    callback of [batch.map] increments [filesProcessed] once before its
    first [await]; [Promise.all] keeps the order of the batch.  [fuel]
    bounds the number of iterations. *)
Fixpoint batchLoop (h : Host) (fontFiles : list jsstring) (fuel : nat)
  (i : Z) (st : ScanLoop) : ScanLoop :=
  match fuel with
  | O => st
  | S fuel' =>
      if i <? arrayLength fontFiles then
        let batch := arraySlice fontFiles i (i + batchSize) in
        let batchResults := map (batchFile h) batch in
        let st1 :=
          mkScanLoop (accFonts st) (accErrors st)
            (accProcessed st + arrayLength batch) (accFailed st) in
        let st2 := fold_left collectBatchResult batchResults st1 in
        batchLoop h fontFiles fuel' (i + batchSize) st2
      else st
  end.

Definition getAllFontsWithResultAsync (h : Host) (clk : Clock)
  (options : FontScanOptions) (c : CacheState) : FontScanResult * CacheState :=
  match cacheLookup options c (now clk) with
  | Some cached => (cachedResult cached clk, c)
  | None =>
      let (fontFiles, directoriesScanned) := candidateFilesAsync h options in
      let st := batchLoop h fontFiles (List.length fontFiles) 0
                  (mkScanLoop [] [] 0 0) in
      (freshResult directoriesScanned st clk,
       updateCache options (accFonts st) (now clk) c)
  end.

(** ** The chainable scanner *)

Record NameSearch := mkNameSearch {
  query : jsstring;
  exact : bool
}.

Record Filters := mkFilters {
  filterFormat : option jsstring;
  filterWeight : option Z;
  monospaceOnly : option bool;
  nameSearch : option NameSearch
}.

Record FontScanner := mkFontScanner {
  _options : FontScanOptions;
  _filters : Filters
}.

Definition scan (options : FontScanOptions) : FontScanner :=
  mkFontScanner options (mkFilters None None None None).

Definition filterByFormat (fmt : jsstring) (this : FontScanner) : FontScanner :=
  let f := _filters this in
  mkFontScanner (_options this)
    (mkFilters (Some (toLowerCase fmt)) (filterWeight f) (monospaceOnly f)
       (nameSearch f)).

Definition filterByWeight (w : Z) (this : FontScanner) : FontScanner :=
  let f := _filters this in
  mkFontScanner (_options this)
    (mkFilters (filterFormat f) (Some w) (monospaceOnly f) (nameSearch f)).

Definition onlyMonospace (this : FontScanner) : FontScanner :=
  let f := _filters this in
  mkFontScanner (_options this)
    (mkFilters (filterFormat f) (filterWeight f) (Some true) (nameSearch f)).

Definition searchByName (q : jsstring) (this : FontScanner) : FontScanner :=
  let f := _filters this in
  mkFontScanner (_options this)
    (mkFilters (filterFormat f) (filterWeight f) (monospaceOnly f)
       (Some (mkNameSearch q false))).

Definition matchNameExactly (n : jsstring) (this : FontScanner) : FontScanner :=
  let f := _filters this in
  mkFontScanner (_options this)
    (mkFilters (filterFormat f) (filterWeight f) (monospaceOnly f)
       (Some (mkNameSearch n true))).

(** [font.name]: the property is a required string of [FontEntry]; every
    entry a scan pushes has it. *)
Definition requiredName (font : FontEntry) : jsstring :=
  match name font with Some n => n | None => [] end.

Definition formatMatches (f : jsstring) (font : FontEntry) : bool :=
  opt_str_eqb (option_map toLowerCase (format font)) (Some f).

Definition weightMatches (w : Z) (font : FontEntry) : bool :=
  match weight font with Some x => x =? w | None => false end.

Definition isMonospaceTrue (font : FontEntry) : bool :=
  match isMonospace font with Some true => true | _ => false end.

Definition nameMatchesExactly (q : jsstring) (font : FontEntry) : bool :=
  str_eqb (toLowerCase (requiredName font)) (toLowerCase q) ||
  opt_str_eqb (option_map toLowerCase (family font)) (Some (toLowerCase q)).

Definition nameContains (q : jsstring) (font : FontEntry) : bool :=
  includes (toLowerCase (requiredName font)) (toLowerCase q) ||
  match family font with
  | Some f => includes (toLowerCase f) (toLowerCase q)
  | None => false
  end.

Definition _applyFilters (this : FontScanner) (fonts : list FontEntry)
  : list FontEntry :=
  let filtered := fonts in
  let filtered :=
    match filterFormat (_filters this) with
    | Some f => if truthy f then filter (formatMatches f) filtered else filtered
    | None => filtered
    end in
  let filtered :=
    match filterWeight (_filters this) with
    | Some w => filter (weightMatches w) filtered
    | None => filtered
    end in
  let filtered :=
    match monospaceOnly (_filters this) with
    | Some true => filter isMonospaceTrue filtered
    | _ => filtered
    end in
  match nameSearch (_filters this) with
  | Some ns =>
      if exact ns
      then filter (nameMatchesExactly (query ns)) filtered
      else filter (nameContains (query ns)) filtered
  | None => filtered
  end.

Definition getAllFontsSync (h : Host) (clk : Clock) (options : FontScanOptions)
  (c : CacheState) : list FontEntry * CacheState :=
  let (result, c') := getAllFontsWithResultSync h clk options c in
  (fonts result, c').

Definition getFonts (h : Host) (clk : Clock) (this : FontScanner)
  (c : CacheState) : list FontEntry * CacheState :=
  let (allFonts, c') := getAllFontsSync h clk (_options this) c in
  (_applyFilters this allFonts, c').

(** [getResult]: the assignment [result.fonts = ...] replaces one
    property of the result object. *)
Definition getResult (h : Host) (clk : Clock) (this : FontScanner)
  (c : CacheState) : FontScanResult * CacheState :=
  let (result, c') := getAllFontsWithResultSync h clk (_options this) c in
  (mkFontScanResult (_applyFilters this (fonts result)) (errors result)
     (stats result), c').

Definition getResultAsync (h : Host) (clk : Clock) (this : FontScanner)
  (c : CacheState) : FontScanResult * CacheState :=
  let (result, c') := getAllFontsWithResultAsync h clk (_options this) c in
  (mkFontScanResult (_applyFilters this (fonts result)) (errors result)
     (stats result), c').

(** ** Views of the binary tables, used to state the theorems *)

(** The indices the table loop visits from [i] on with [n] iterations
    left: it stops at the first entry that does not fit the buffer. *)
Fixpoint entriesFrom (buffer : Buffer) (n : nat) (i : Z) : list Z :=
  match n with
  | O => []
  | S n' =>
      if 12 + i * 16 + 16 >? Buf.length buffer then []
      else i :: entriesFrom buffer n' (i + 1)
  end.

(** The directory entries [parseTTFOTFFont] visits. *)
Definition directoryEntries (buffer : Buffer) : list Z :=
  match Buf.readUInt16BE buffer 4 with
  | Some numTables => entriesFrom buffer (Z.to_nat numTables) 0
  | None => []
  end.

(** The tag of directory entry [i]. *)
Definition entryTag (buffer : Buffer) (i : Z) : jsstring :=
  Buf.toStringAscii buffer (12 + i * 16) (12 + i * 16 + 4).

(** What the decoder selected by the tag of entry [i] returns. *)
Definition decodeEntry (buffer : Buffer) (i : Z) : FontEntry :=
  match Buf.readUInt32BE buffer (12 + i * 16 + 8),
        Buf.readUInt32BE buffer (12 + i * 16 + 12) with
  | Some tableDataOffset, Some tableLength =>
      if str_eqb (entryTag buffer i) (lit "name")
      then parseNameTable buffer tableDataOffset tableLength
      else if str_eqb (entryTag buffer i) (lit "OS/2")
      then parseOS2Table buffer tableDataOffset tableLength
      else if str_eqb (entryTag buffer i) (lit "post")
      then parsePostTable buffer tableDataOffset tableLength
      else emptyEntry
  | _, _ => emptyEntry
  end.

(** [Object.assign] of the decoded entries [l], in order, onto [m]. *)
Definition mergeEntries (buffer : Buffer) (l : list Z) (m : FontEntry)
  : FontEntry :=
  fold_left (fun acc k => assign acc (decodeEntry buffer k)) l m.

(** Entry [i] carries a monospace signal: it is an OS/2 table whose
    PANOSE bytes lie in the buffer with proportion byte 9, or a post
    table whose header lies in the buffer with a non-zero isFixedPitch. *)
Definition monospaceSignal (buffer : Buffer) (i : Z) : Prop :=
  exists tableDataOffset,
    Buf.readUInt32BE buffer (12 + i * 16 + 8) = Some tableDataOffset /\
    ((entryTag buffer i = lit "OS/2" /\
      tableDataOffset + 42 <= Buf.length buffer /\
      Buf.at_ buffer (tableDataOffset + 32 + 3) = Some 9) \/
     (entryTag buffer i = lit "post" /\
      tableDataOffset + 32 <= Buf.length buffer /\
      exists isFixedPitch,
        Buf.readUInt32BE buffer (tableDataOffset + 12) = Some isFixedPitch /\
        isFixedPitch <> 0)).

(** The property a nameID is stored in. *)
Definition nameIDField (nameID : Z) : option Field :=
  if nameID =? 0 then Some FCopyright
  else if nameID =? 1 then Some FFamily
  else if nameID =? 4 then Some FName
  else if nameID =? 5 then Some FVersion
  else None.

(** Name record [j] of the table at [offset], when the record and its
    string range lie in the buffer: its nameID and its decoded string. *)
Definition recordDecoded (buffer : Buffer) (offset stringOffset j : Z)
  : option (Z * jsstring) :=
  let recordOffset := offset + 6 + j * 12 in
  if recordOffset + 12 >? Buf.length buffer then None
  else
    match Buf.readUInt16BE buffer (recordOffset + 6),
          Buf.readUInt16BE buffer (recordOffset + 8),
          Buf.readUInt16BE buffer (recordOffset + 10) with
    | Some nameID, Some stringLength, Some stringOffsetInTable =>
        let start := stringOffset + stringOffsetInTable in
        if start + stringLength <=? Buf.length buffer
        then Some (nameID,
                   trim (stripNul (decodeUtf16BE
                     (Buf.slice buffer start (start + stringLength)))))
        else None
    | _, _, _ => None
    end.

(** Record [j] writes string [s] to property [f]. *)
Definition recordWrites (buffer : Buffer) (offset stringOffset j : Z)
  (f : Field) (s : jsstring) : Prop :=
  exists nameID,
    recordDecoded buffer offset stringOffset j = Some (nameID, s) /\
    s <> [] /\ nameIDField nameID = Some f.

(** Start of the string storage of the name table at [offset]. *)
Definition stringStorage (buffer : Buffer) (offset : Z) : Z :=
  match Buf.readUInt16BE buffer (offset + 4) with
  | Some so => offset + so
  | None => offset
  end.

(** Number of records the header of the name table at [offset] declares. *)
Definition recordCount (buffer : Buffer) (offset : Z) : Z :=
  match Buf.readUInt16BE buffer (offset + 2) with
  | Some count => count
  | None => 0
  end.

(** The failure of the filesystem on a candidate, if any. *)
Definition ioFailure (h : Host) (file : jsstring) : option IOError :=
  match statSync h file with
  | inl e => Some e
  | inr _ =>
      match readFileSync h file with
      | inl e => Some e
      | inr _ => None
      end
  end.

(** What the file loop of a scan does with one candidate: exactly one
    of a font entry and an error. *)
Definition fileOutcome (h : Host) (file : jsstring) : FontEntry + FontError :=
  match readFontMetadataSync h file with
  | Some metadata =>
      if opt_truthy (name metadata) then inl metadata
      else inr (parseError file)
  | None => inr (parseError file)
  end.

(** The entries, in order, of the candidates whose outcome is an entry. *)
Definition entriesOf (h : Host) (files : list jsstring) : list FontEntry :=
  flat_map (fun file => match fileOutcome h file with
                        | inl f => [f]
                        | inr _ => []
                        end) files.

(** The errors, in order, of the candidates whose outcome is an error. *)
Definition errorsOf (h : Host) (files : list jsstring) : list FontError :=
  flat_map (fun file => match fileOutcome h file with
                        | inl _ => []
                        | inr e => [e]
                        end) files.

(** The properties that only the filesystem supplies. *)
Definition hostFields (m : FontEntry)
  : option jsstring * option jsstring * option Z * option Z :=
  (path m, format m, fileSize m, lastModified m).

(** A scan result accounts for the candidate files: its fonts and
    errors are the outcomes of the candidates, one per candidate and in
    order, and its counters agree. *)
Definition accountsFor (h : Host) (files : list jsstring)
  (r : FontScanResult) : Prop :=
  fonts r = entriesOf h files /\
  errors r = errorsOf h files /\
  arrayLength (fonts r) + arrayLength (errors r) = arrayLength files /\
  filesProcessed (stats r) = arrayLength files /\
  fontsFound (stats r) + filesFailed (stats r) = filesProcessed (stats r).

(** The statistics of a result served from the cache. *)
Definition servedFromCache (cached : list FontEntry) (r : FontScanResult)
  : Prop :=
  fonts r = cached /\ errors r = [] /\
  fontsFound (stats r) = filesProcessed (stats r) /\
  filesFailed (stats r) = 0 /\
  directoriesScanned (stats r) = 0.

(** The cache [c'] left by a caching scan that read the clock [clk] and
    stored the list [stored].  The timestamp is the [now] the scan read
    at its start.  The count is the length of the list; while less than
    [CACHE_DURATION] has elapsed since the timestamp the cache is valid
    and a caching scan, synchronous or asynchronous, returns the stored
    list, no error, and leaves the cache as it is; once the elapsed time
    reaches [CACHE_DURATION] the cache is invalid and no scan is served
    from it; right after the store (at [endTime]) it is valid exactly
    when the scan took less than [CACHE_DURATION]; once cleared it is
    invalid and counts 0. *)
Definition cacheAfterStore (stored : list FontEntry) (clk : Clock)
  (c' : CacheState) : Prop :=
  fontCache c' = Some stored /\
  cacheTimestamp c' = now clk /\
  getCachedFontCount c' = arrayLength stored /\
  (forall t, t - now clk < CACHE_DURATION ->
     isCacheValid t c' = true /\
     forall h' clk' options',
       now clk' = t -> useCacheEnabled options' = true ->
       fonts (fst (getAllFontsWithResultSync h' clk' options' c')) = stored /\
       errors (fst (getAllFontsWithResultSync h' clk' options' c')) = [] /\
       snd (getAllFontsWithResultSync h' clk' options' c') = c' /\
       fonts (fst (getAllFontsWithResultAsync h' clk' options' c')) = stored /\
       errors (fst (getAllFontsWithResultAsync h' clk' options' c')) = [] /\
       snd (getAllFontsWithResultAsync h' clk' options' c') = c') /\
  (forall t, CACHE_DURATION <= t - now clk ->
     isCacheValid t c' = false /\
     forall options', cacheLookup options' c' t = None) /\
  (isCacheValid (endTime clk) c' = true <->
   endTime clk - now clk < CACHE_DURATION) /\
  (forall t,
     isCacheValid t (clearFontCache c') = false /\
     forall options', cacheLookup options' (clearFontCache c') t = None) /\
  getCachedFontCount (clearFontCache c') = 0.

(** ** Concrete inputs *)

(** The bytes of a string in UTF-16BE. *)
Definition utf16BE (s : string) : list Z :=
  flat_map (fun c => [c / 256; c mod 256]) (lit s).

(** A name record: platform 3, encoding 1, language 0x0409. *)
Definition nameRecordBytes (nameID len off : Z) : list Z :=
  [0; 3; 0; 1; 4; 9; 0; nameID; 0; len; 0; off].

(** A name table with two nameID-4 records, "Arial" then "Arial MT". *)
Definition arialTable : Buffer :=
  Buf.ofList ([0; 0; 0; 2; 0; 30]
              ++ nameRecordBytes 4 10 0 ++ nameRecordBytes 4 16 10
              ++ utf16BE "Arial" ++ utf16BE "Arial MT").

(** A name table with a nameID-4 record "Arial" followed by a nameID-4
    record of length 0. *)
Definition arialThenEmptyTable : Buffer :=
  Buf.ofList ([0; 0; 0; 2; 0; 30]
              ++ nameRecordBytes 4 10 0 ++ nameRecordBytes 4 0 10
              ++ utf16BE "Arial").

(** A name table with a nameID-4 record "Arial" followed by a nameID-4
    record that holds two spaces. *)
Definition arialThenBlankTable : Buffer :=
  Buf.ofList ([0; 0; 0; 2; 0; 30]
              ++ nameRecordBytes 4 10 0 ++ nameRecordBytes 4 4 10
              ++ utf16BE "Arial" ++ utf16BE "  ").

(** A directory entry with a zero checksum. *)
Definition directoryEntryBytes (tag : string) (off len : Z) : list Z :=
  lit tag ++ [0; 0; 0; 0] ++ [0; 0; 0; off] ++ [0; 0; 0; len].

(** A font with two OS/2 directory entries: the first points at a table
    of weight 400, the second at a table of weight 700. *)
Definition twoOS2Font : Buffer :=
  Buf.ofList ([0; 1; 0; 0; 0; 2; 0; 0; 0; 0; 0; 0]
              ++ directoryEntryBytes "OS/2" 44 8
              ++ directoryEntryBytes "OS/2" 52 8
              ++ [0; 4; 0; 0; 1; 144; 0; 0]
              ++ [0; 4; 0; 0; 2; 188; 0; 0]).

(** A font that declares three tables in a buffer that ends inside the
    second directory entry. *)
Definition truncatedFont : Buffer :=
  Buf.ofList ([0; 1; 0; 0; 0; 3; 0; 0; 0; 0; 0; 0]
              ++ directoryEntryBytes "OS/2" 28 8
              ++ [0; 4; 0; 0; 2; 188; 0; 0]).

(** A post table alone in a font: isFixedPitch is 1. *)
Definition fixedPitchFont : Buffer :=
  Buf.ofList ([0; 1; 0; 0; 0; 1; 0; 0; 0; 0; 0; 0]
              ++ directoryEntryBytes "post" 28 32
              ++ [0; 3; 0; 0; 0; 0; 0; 0; 0; 0; 0; 0; 0; 0; 0; 1]
              ++ repeat 0 16).

(** A font with a name table ("Mono" as nameID 4) and a post table
    whose isFixedPitch is 1. *)
Definition namedFixedPitchFont : Buffer :=
  Buf.ofList ([0; 1; 0; 0; 0; 2; 0; 0; 0; 0; 0; 0]
              ++ directoryEntryBytes "name" 44 26
              ++ directoryEntryBytes "post" 70 32
              ++ [0; 0; 0; 1; 0; 18] ++ nameRecordBytes 4 8 0
              ++ utf16BE "Mono"
              ++ [0; 3; 0; 0; 0; 0; 0; 0; 0; 0; 0; 0; 0; 0; 0; 1]
              ++ repeat 0 16).

(** A scan that starts at 1000 ms and returns 300 seconds later. *)
Definition slowClock : Clock := mkClock 1000 1000 301000.

(** A filesystem with four candidates under [/fonts]: two readable
    files without tables, a missing file and an unreadable file. *)
Definition demoFiles : list jsstring :=
  [lit "/fonts/Custom-Bold.ttf"; lit "/fonts/ARIAL.TTF";
   lit "/fonts/missing.ttf"; lit "/fonts/locked.otf"].

Definition demoHost : Host :=
  mkHost
    (fun p =>
       if str_eqb p (lit "/fonts/missing.ttf") then inl ENOENT
       else inr (mkFileStats 12 1700000000000))
    (fun p =>
       if str_eqb p (lit "/fonts/locked.otf") then inl EACCES
       else inr (Buf.ofList (repeat 0 12)))
    (fun d => str_eqb d (lit "/fonts"))
    (fun d => str_eqb d (lit "/fonts"))
    (fun d => if str_eqb d (lit "/fonts") then demoFiles else [])
    (fun _ => [lit "/fonts"; lit "/usr/share/fonts"]).

Definition demoClock : Clock := mkClock 1000 1000 1040.

Definition noCacheOptions : FontScanOptions :=
  mkFontScanOptions (Some false) None None None.

Definition defaultOptions : FontScanOptions :=
  mkFontScanOptions None None None None.

(** ** Auxiliary views *)

Definition isNameField (f : Field) : bool :=
  match f with
  | FName | FFamily | FVersion | FCopyright => true
  | _ => false
  end.

(** What the loop body does with record [j]. *)
Definition applyRecord (buffer : Buffer) (offset stringOffset : Z)
  (result : FontEntry) (j : Z) : FontEntry :=
  match recordDecoded buffer offset stringOffset j with
  | Some (nameID, s) =>
      if truthy s then assignNameField result nameID s else result
  | None => result
  end.

(** The name a file gets when its tables yield none. *)
Definition fallbackName (fontPath : jsstring) : jsstring :=
  Path.basename fontPath (toLowerCase (Path.extname fontPath)).

(** The decoded metadata is used: the format is a table-directory
    format and the tables yield a non-empty name. *)
Definition tablesYieldName (fontPath : jsstring) (buffer : Buffer) : Prop :=
  arrayIncludes [lit ".ttf"; lit ".otf"; lit ".ttc"]
    (toLowerCase (Path.extname fontPath)) = true /\
  exists md, parseTTFOTFFont buffer = Some md /\ opt_truthy (name md) = true.

(** ** Claims of the specification that the code does not meet, as stated *)

(** The reading of C4 as stated, on the entry of a font file whose
    tables are decoded: the entry's [isMonospace] is [true] exactly when
    a visited table carries a monospace signal. *)
Definition flagFollowsTables (fontPath : jsstring) (stats : FileStats)
  (buffer : Buffer) : Prop :=
  arrayIncludes [lit ".ttf"; lit ".otf"; lit ".ttc"]
    (toLowerCase (Path.extname fontPath)) = true ->
  forall md,
    parseTTFOTFFont buffer = Some md ->
    (isMonospace (synthesize fontPath stats buffer) = Some true <->
     exists i, In i (directoryEntries buffer) /\ monospaceSignal buffer i).

(** The reading of C8 as stated, for its first part: at the last clock
    reading of a caching scan that stored its list, so right after the
    store, the cache is valid. *)
Definition validRightAfterStore (h : Host) (clk : Clock)
  (options : FontScanOptions) (c : CacheState) : Prop :=
  startTime clk <= now clk <= endTime clk ->
  useCacheEnabled options = true ->
  cacheLookup options c (now clk) = None ->
  isCacheValid (endTime clk)
    (snd (getAllFontsWithResultSync h clk options c)) = true.

(** The reading of C3 as stated: among the records whose nameID maps to
    a property and whose string range lies in the buffer, the last one
    in record order decides the property, whatever its decoded string. *)
Definition lastRecordWins (buffer : Buffer) (offset : Z) : Prop :=
  forall (j nameID : Z) (s : jsstring) (f : Field),
    0 <= j < recordCount buffer offset ->
    recordDecoded buffer offset (stringStorage buffer offset) j
    = Some (nameID, s) ->
    nameIDField nameID = Some f ->
    (forall k nameID' s',
       j < k < recordCount buffer offset ->
       recordDecoded buffer offset (stringStorage buffer offset) k
       = Some (nameID', s') ->
       nameIDField nameID' <> Some f) ->
    getField f (parseNameTable buffer offset 0) = Some (VString s).

(** The reading of C7 as stated: a property that the first entry with a
    given tag decodes is the one found in the output, whatever a later
    entry with the same tag decodes. *)
Definition firstOccurrenceKept (buffer : Buffer) : Prop :=
  forall (md : FontEntry) (i j : Z) (f : Field) (v : FieldValue),
    parseTTFOTFFont buffer = Some md ->
    In i (directoryEntries buffer) -> In j (directoryEntries buffer) ->
    i < j -> entryTag buffer i = entryTag buffer j ->
    (forall k, In k (directoryEntries buffer) -> k < i ->
               entryTag buffer k <> entryTag buffer i) ->
    getField f (decodeEntry buffer i) = Some v ->
    getField f md = Some v.

(** The reading of C6 as stated: a candidate that fails at the
    filesystem level gets an error whose code is one of the three
    filesystem codes. *)
Definition filesystemCodeReported (h : Host) (clk : Clock)
  (options : FontScanOptions) (c : CacheState) : Prop :=
  forall file e,
    In file (fst (candidateFiles h options)) ->
    ioFailure h file = Some e ->
    exists err,
      In err (errors (fst (getAllFontsWithResultSync h clk options c))) /\
      errorPath err = file /\
      (code err = FILE_NOT_FOUND \/ code err = PERMISSION_DENIED \/
       code err = UNKNOWN).

(** ** Directory traversal *)

Module Walk.

(** A [fs.Dirent] as [walkDir] reads it. *)
Record Dirent := mkDirent {
  direntName : jsstring;
  isDirectory : bool;
  isFile : bool
}.

(** The directory tree: [readdirSync dir {withFileTypes: true}] (the left
    injection when it throws) and [path.join(dir, name)]. *)
Record Tree := mkTree {
  readdirSync : jsstring -> IOError + list Dirent;
  join : jsstring -> jsstring -> jsstring
}.

(** The directory names [walkDir] does not enter. *)
Definition skippedNames : list jsstring :=
  [lit "node_modules"; lit "cache"; lit "tmp"; lit "temp"].

(** [!file.name.startsWith('.') && ![...].includes(file.name.toLowerCase())]. *)
Definition entered (fileName : jsstring) : bool :=
  negb (startsWith fileName (lit ".")) &&
  negb (arrayIncludes skippedNames (toLowerCase fileName)).

(** [walkDir(dir, fileList, maxDepth)] with [n] levels left: [fileList]
    is the array the calls append to.  [n = 0] is the early return on
    [maxDepth <= 0]; a [readdirSync] that throws is caught and leaves the
    list as it is. *)
Fixpoint walkDirLevels (t : Tree) (n : nat) (dir : jsstring)
  (fileList : list jsstring) : list jsstring :=
  match n with
  | O => fileList
  | S n' =>
      match readdirSync t dir with
      | inl _ => fileList
      | inr files =>
          fold_left
            (fun acc file =>
               let fullPath := join t dir (direntName file) in
               if isDirectory file then
                 if entered (direntName file)
                 then walkDirLevels t n' fullPath acc
                 else acc
               else if isFile file then
                 if isFontFile fullPath then acc ++ [fullPath] else acc
               else acc)
            files fileList
      end
  end.

(** [walkDir], for an integral [maxDepth]; the default is 3. *)
Definition walkDir (t : Tree) (dir : jsstring) (fileList : list jsstring)
  (maxDepth : Z) : list jsstring :=
  walkDirLevels t (Z.to_nat maxDepth) dir fileList.

(** What one entry of [dir] contributes with [n] levels left below. *)
Definition entryFiles (t : Tree) (n : nat) (dir : jsstring) (file : Dirent)
  : list jsstring :=
  let fullPath := join t dir (direntName file) in
  if isDirectory file then
    if entered (direntName file) then walkDirLevels t n fullPath [] else []
  else if isFile file then
    if isFontFile fullPath then [fullPath] else []
  else [].

(** A host whose [walkDir] is the traversal of [t] with the default
    depth, as both scans call it. *)
Definition hostOf (t : Tree) (h : Host) : Host :=
  mkHost (statSync h) (readFileSync h) (existsSync h) (access h)
    (fun dir => walkDir t dir [] 3) (getPlatformFontDirs h).

End Walk.

(** ** Platform font directories *)

Module Platform.

Inductive PlatformName := win32 | darwin | otherPlatform.

(** What [getPlatformFontDirs] reads from its environment:
    [process.platform], [os.homedir()], [process.env['WINDIR']], the
    list [getWindowsRegistryFonts()] returns (it catches its own
    exceptions) and [path.join] of a list of segments. *)
Record Env := mkEnv {
  platform : PlatformName;
  homedir : jsstring;
  WINDIR : option jsstring;
  getWindowsRegistryFonts : list jsstring;
  join : list jsstring -> jsstring
}.

(** [[...new Set(dirs)]]: the first occurrence of every string, in
    insertion order; [seen] holds the strings already in the set. *)
Fixpoint dedupe (seen : list jsstring) (dirs : list jsstring)
  : list jsstring :=
  match dirs with
  | [] => []
  | d :: rest =>
      if arrayIncludes seen d then dedupe seen rest
      else d :: dedupe (d :: seen) rest
  end.

(** [flag !== false]. *)
Definition notFalse (flag : option bool) : bool :=
  match flag with Some false => false | _ => true end.

(** [process.env['WINDIR'] || 'C:\\Windows']. *)
Definition windowsRoot (e : Env) : jsstring :=
  match WINDIR e with
  | Some w => if truthy w then w else lit "C:\Windows"
  | None => lit "C:\Windows"
  end.

(** The directories pushed after the custom ones. *)
Definition platformDirs (e : Env) (options : FontScanOptions)
  : list jsstring :=
  match platform e with
  | win32 =>
      (if notFalse (includeSystemFonts options)
       then join e [windowsRoot e; lit "Fonts"]
            :: getWindowsRegistryFonts e
       else []) ++
      (if notFalse (includeUserFonts options)
       then [join e [homedir e; lit "AppData"; lit "Local"; lit "Microsoft";
                     lit "Windows"; lit "Fonts"]]
       else [])
  | darwin =>
      (if notFalse (includeSystemFonts options)
       then [lit "/System/Library/Fonts"; lit "/Library/Fonts";
             lit "/System/Library/Assets/com_apple_MobileAsset_Font6"]
       else []) ++
      (if notFalse (includeUserFonts options)
       then [join e [homedir e; lit "Library/Fonts"]]
       else [])
  | otherPlatform =>
      (if notFalse (includeSystemFonts options)
       then [lit "/usr/share/fonts"; lit "/usr/local/share/fonts";
             lit "/usr/X11R6/lib/X11/fonts"]
       else []) ++
      (if notFalse (includeUserFonts options)
       then [join e [homedir e; lit ".fonts"];
             join e [homedir e; lit ".local/share/fonts"]]
       else [])
  end.

(** [if (options.customDirs) dirs.push(...options.customDirs)]. *)
Definition customDirsOf (options : FontScanOptions) : list jsstring :=
  match customDirs options with
  | Some dirs => dirs
  | None => []
  end.

Definition getPlatformFontDirs (e : Env) (options : FontScanOptions)
  : list jsstring :=
  dedupe [] (customDirsOf options ++ platformDirs e options).

End Platform.

(** ** The remaining entry points of the scanner *)

Definition getAllFontsAsync (h : Host) (clk : Clock)
  (options : FontScanOptions) (c : CacheState) : list FontEntry * CacheState :=
  let (result, c') := getAllFontsWithResultAsync h clk options c in
  (fonts result, c').

Definition getFontsAsync (h : Host) (clk : Clock) (this : FontScanner)
  (c : CacheState) : list FontEntry * CacheState :=
  let (allFonts, c') := getAllFontsAsync h clk (_options this) c in
  (_applyFilters this allFonts, c').

(** ** Views for the further properties *)

(** The bytes of a string in UTF-16BE, high byte first. *)
Definition encodeUtf16BE (s : jsstring) : Buffer :=
  Buf.ofList (flat_map (fun c => [c / 256; c mod 256]) s).

(** A decoded string as the name table stores it: not empty, without
    NUL, without white space at either end. *)
Definition cleanString (s : jsstring) : Prop :=
  s <> [] /\ ~ In 0 s /\
  (forall c, hd_error s = Some c -> isWhiteSpace c = false) /\
  (forall c, hd_error (rev s) = Some c -> isWhiteSpace c = false).

(** Every string property of [m] is clean. *)
Definition stringsClean (m : FontEntry) : Prop :=
  forall f s, getField f m = Some (VString s) -> cleanString s.

(** The string properties of a font entry. *)
Definition stringFields (m : FontEntry)
  : option jsstring * option jsstring * option jsstring * option jsstring :=
  (name m, family m, version m, copyright m).

(** The entry synthesis falls back to. *)
Definition fallbackEntry (fontPath : jsstring) (stats : FileStats)
  : FontEntry :=
  mkFontEntry (Some (fallbackName fontPath)) (Some fontPath)
    (Some (substring1 (toLowerCase (Path.extname fontPath))))
    (Some (fallbackName fontPath)) None None None None None
    (Some (size stats)) (Some (mtime stats)).

(** One active filter of a scanner, absent filters let every font pass. *)
Definition passesFormat (this : FontScanner) (font : FontEntry) : bool :=
  match filterFormat (_filters this) with
  | Some f => if truthy f then formatMatches f font else true
  | None => true
  end.

Definition passesWeight (this : FontScanner) (font : FontEntry) : bool :=
  match filterWeight (_filters this) with
  | Some w => weightMatches w font
  | None => true
  end.

Definition passesMonospace (this : FontScanner) (font : FontEntry) : bool :=
  match monospaceOnly (_filters this) with
  | Some true => isMonospaceTrue font
  | _ => true
  end.

Definition passesName (this : FontScanner) (font : FontEntry) : bool :=
  match nameSearch (_filters this) with
  | Some ns =>
      if exact ns then nameMatchesExactly (query ns) font
      else nameContains (query ns) font
  | None => true
  end.

(** The conjunction of the active filters. *)
Definition passes (this : FontScanner) (font : FontEntry) : bool :=
  passesFormat this font && passesWeight this font &&
  passesMonospace this font && passesName this font.

(** Every cached font has a non-empty name. *)
Definition cacheNamed (c : CacheState) : Prop :=
  forall cached f,
    fontCache c = Some cached -> In f cached -> opt_truthy (name f) = true.

(** A small tree: [/fonts] holds a font, a text file, a hidden
    directory, a [Cache] directory and a directory [sub] with one font;
    [/locked] cannot be read. *)
Definition demoTree : Walk.Tree :=
  Walk.mkTree
    (fun dir =>
       if str_eqb dir (lit "/fonts")
       then inr [Walk.mkDirent (lit "A.TTF") false true;
                 Walk.mkDirent (lit "notes.txt") false true;
                 Walk.mkDirent (lit ".hidden") true false;
                 Walk.mkDirent (lit "Cache") true false;
                 Walk.mkDirent (lit "sub") true false]
       else if str_eqb dir (lit "/fonts/sub")
       then inr [Walk.mkDirent (lit "b.otf") false true;
                 Walk.mkDirent (lit "deep") true false]
       else if str_eqb dir (lit "/fonts/sub/deep")
       then inr [Walk.mkDirent (lit "c.woff2") false true]
       else if str_eqb dir (lit "/locked") then inl EACCES
       else inr [Walk.mkDirent (lit "x.ttf") false true])
    (fun dir fileName => dir ++ lit "/" ++ fileName).

(** A Linux environment and a Windows one. *)
Definition linuxEnv : Platform.Env :=
  Platform.mkEnv Platform.otherPlatform (lit "/home/u") None []
    (fun segs =>
       match segs with
       | [] => lit "."
       | first :: rest => first ++ List.concat (map (app (lit "/")) rest)
       end).

Definition customOptions : FontScanOptions :=
  mkFontScanOptions None None None
    (Some [lit "/opt/fonts"; lit "/usr/share/fonts"; lit "/opt/fonts"]).


(** * Properties *)

(** ** Strings *)

Lemma str_eqb_eq (a b : jsstring) : str_eqb a b = true <-> a = b.
Proof.
  revert b; induction a as [|x a IH]; intros [|y b]; simpl; split;
    try reflexivity; try discriminate.
  - intros H. apply andb_true_iff in H as [Hx Hab].
    apply Z.eqb_eq in Hx. apply IH in Hab. congruence.
  - intros H. injection H as -> ->.
    rewrite Z.eqb_refl. simpl. apply IH. reflexivity.
Qed.

Lemma str_eqb_refl (a : jsstring) : str_eqb a a = true.
Proof. apply str_eqb_eq. reflexivity. Qed.

Lemma truthy_nonempty (s : jsstring) : truthy s = true <-> s <> [].
Proof. destruct s; simpl; split; congruence. Qed.

Lemma truthy_false_empty (s : jsstring) : truthy s = false <-> s = [].
Proof. destruct s; simpl; split; congruence. Qed.

(** ** Paths *)

Example extname_ttf :
  Path.extname (lit "/usr/share/fonts/Custom-Bold.ttf") = lit ".ttf".
Proof. reflexivity. Qed.

Example extname_dotfile : Path.extname (lit "/home/u/.fonts") = [].
Proof. reflexivity. Qed.

Example extname_last_dot : Path.extname (lit "a.b/c.tar.GZ") = lit ".GZ".
Proof. reflexivity. Qed.

Example basename_strips_suffix :
  Path.basename (lit "/usr/share/fonts/Custom-Bold.ttf") (lit ".ttf")
  = lit "Custom-Bold".
Proof. reflexivity. Qed.

Example basename_is_case_sensitive :
  Path.basename (lit "/fonts/ARIAL.TTF") (lit ".ttf") = lit "ARIAL.TTF".
Proof. reflexivity. Qed.

Example basename_without_suffix :
  Path.basename (lit "/fonts/readme") [] = lit "readme".
Proof. reflexivity. Qed.

(** ** Buffer reads *)

Section BufferReads.

Variable buffer : Buffer.

Lemma u8_range (b : Byte.byte) : 0 <= Buf.u8 b < 256.
Proof.
  unfold Buf.u8. pose proof (Byte.to_N_bounded b). lia.
Qed.

Lemma at_in_bounds (i : Z) :
  0 <= i < Buf.length buffer ->
  exists v, Buf.at_ buffer i = Some v /\ 0 <= v < 256.
Proof.
  intros Hi. unfold Buf.at_, Buf.length in *.
  destruct (i <? 0) eqn:Hneg; [apply Z.ltb_lt in Hneg; lia|].
  destruct (nth_error buffer (Z.to_nat i)) as [b|] eqn:Hn.
  - exists (Buf.u8 b). split; [reflexivity | apply u8_range].
  - apply nth_error_None in Hn. lia.
Qed.

Lemma at_Some_bounds (i v : Z) :
  Buf.at_ buffer i = Some v -> 0 <= i < Buf.length buffer /\ 0 <= v < 256.
Proof.
  unfold Buf.at_, Buf.length.
  destruct (i <? 0) eqn:Hneg; [discriminate|].
  apply Z.ltb_ge in Hneg.
  destruct (nth_error buffer (Z.to_nat i)) as [b|] eqn:Hn; [|discriminate].
  simpl. intros H. injection H as <-.
  assert (Hlt : (Z.to_nat i < List.length buffer)%nat)
    by (apply nth_error_Some; congruence).
  split; [lia | apply u8_range].
Qed.

Lemma readUInt16BE_in_bounds (offset : Z) :
  0 <= offset -> offset + 2 <= Buf.length buffer ->
  exists v, Buf.readUInt16BE buffer offset = Some v /\ 0 <= v < 65536.
Proof.
  intros H0 H2. unfold Buf.readUInt16BE.
  destruct (at_in_bounds offset) as [a [-> Ha]]; [lia|].
  destruct (at_in_bounds (offset + 1)) as [b [-> Hb]]; [lia|].
  eexists. split; [reflexivity | lia].
Qed.

Lemma readUInt32BE_in_bounds (offset : Z) :
  0 <= offset -> offset + 4 <= Buf.length buffer ->
  exists v, Buf.readUInt32BE buffer offset = Some v /\ 0 <= v.
Proof.
  intros H0 H4. unfold Buf.readUInt32BE.
  destruct (at_in_bounds offset) as [a [-> Ha]]; [lia|].
  destruct (at_in_bounds (offset + 1)) as [b [-> Hb]]; [lia|].
  destruct (at_in_bounds (offset + 2)) as [c [-> Hc]]; [lia|].
  destruct (at_in_bounds (offset + 3)) as [d [-> Hd]]; [lia|].
  eexists. split; [reflexivity | lia].
Qed.

Lemma readUInt32BE_nonneg (offset v : Z) :
  Buf.readUInt32BE buffer offset = Some v -> 0 <= v.
Proof.
  unfold Buf.readUInt32BE.
  destruct (Buf.at_ buffer offset) as [a|] eqn:Ha; [|discriminate].
  destruct (Buf.at_ buffer (offset + 1)) as [b|] eqn:Hb; [|discriminate].
  destruct (Buf.at_ buffer (offset + 2)) as [c|] eqn:Hc; [|discriminate].
  destruct (Buf.at_ buffer (offset + 3)) as [d|] eqn:Hd; [|discriminate].
  apply at_Some_bounds in Ha, Hb, Hc, Hd.
  intros H. injection H as <-. lia.
Qed.

Lemma adjustOffset_in_range (o : Z) :
  0 <= o <= Buf.length buffer -> Buf.adjustOffset o (Buf.length buffer) = o.
Proof.
  intros Ho. unfold Buf.adjustOffset.
  destruct (o =? 0) eqn:E0; [apply Z.eqb_eq in E0; lia|].
  destruct (o <? 0) eqn:E1; [apply Z.ltb_lt in E1; lia|].
  destruct (o <? Buf.length buffer) eqn:E2; [reflexivity|].
  apply Z.ltb_ge in E2. lia.
Qed.

Lemma at_slice (s e k : Z) :
  0 <= s -> s <= e -> e <= Buf.length buffer -> 0 <= k < e - s ->
  Buf.at_ (Buf.slice buffer s e) k = Buf.at_ buffer (s + k).
Proof.
  intros Hs Hse He Hk. unfold Buf.slice.
  rewrite !adjustOffset_in_range by lia.
  unfold Buf.at_.
  destruct (k <? 0) eqn:Ek; [apply Z.ltb_lt in Ek; lia|].
  destruct (s + k <? 0) eqn:Esk; [apply Z.ltb_lt in Esk; lia|].
  f_equal.
  destruct (s <? e) eqn:Ese; [|apply Z.ltb_ge in Ese; lia].
  rewrite nth_error_firstn.
  destruct (Nat.ltb (Z.to_nat k) (Z.to_nat (e - s))) eqn:El.
  - rewrite nth_error_skipn. f_equal. lia.
  - apply Nat.ltb_ge in El. lia.
Qed.

End BufferReads.

(** ** Object.assign and the decoded properties *)

Lemma assign_emptyEntry_r (m : FontEntry) : assign m emptyEntry = m.
Proof. destruct m; reflexivity. Qed.

Lemma getField_assign (f : Field) (a b : FontEntry) :
  getField f (assign a b) = orElse (getField f b) (getField f a).
Proof.
  destruct f; simpl;
    match goal with |- context [orElse ?x _] => destruct x end; reflexivity.
Qed.

Lemma getField_emptyEntry (f : Field) : getField f emptyEntry = None.
Proof. destruct f; reflexivity. Qed.

Section Merge.

Variable buffer : Buffer.
Variable f : Field.

Lemma mergeEntries_app (l1 l2 : list Z) (m : FontEntry) :
  mergeEntries buffer (l1 ++ l2) m
  = mergeEntries buffer l2 (mergeEntries buffer l1 m).
Proof. unfold mergeEntries. apply fold_left_app. Qed.

Lemma mergeEntries_untouched (l : list Z) (m : FontEntry) :
  (forall k, In k l -> getField f (decodeEntry buffer k) = None) ->
  getField f (mergeEntries buffer l m) = getField f m.
Proof.
  revert m; induction l as [|k l IH]; intros m Hnone; simpl; [reflexivity|].
  unfold mergeEntries in *. simpl. rewrite IH.
  - rewrite getField_assign, Hnone by (left; reflexivity). reflexivity.
  - intros k' Hk'. apply Hnone. right. exact Hk'.
Qed.

Lemma mergeEntries_last_writer (l1 l2 : list Z) (k : Z) (v : FieldValue)
  (m : FontEntry) :
  getField f (decodeEntry buffer k) = Some v ->
  (forall k', In k' l2 -> getField f (decodeEntry buffer k') = None) ->
  getField f (mergeEntries buffer (l1 ++ k :: l2) m) = Some v.
Proof.
  intros Hk Hlater. rewrite mergeEntries_app.
  change (mergeEntries buffer (k :: l2) ?x)
    with (mergeEntries buffer l2 (assign x (decodeEntry buffer k))).
  rewrite mergeEntries_untouched by exact Hlater.
  rewrite getField_assign, Hk. reflexivity.
Qed.

End Merge.

(** ** The table directory loop *)

Section TableDirectory.

Variable buffer : Buffer.

Lemma tableEntry_decode (i : Z) (metadata : FontEntry) :
  0 <= i -> 12 + i * 16 + 16 <= Buf.length buffer ->
  tableEntry buffer (12 + i * 16) metadata
  = Some (assign metadata (decodeEntry buffer i)).
Proof.
  intros Hi Hfit. unfold tableEntry, decodeEntry, entryTag.
  destruct (readUInt32BE_in_bounds buffer (12 + i * 16 + 8))
    as [off [-> _]]; [lia | lia |].
  destruct (readUInt32BE_in_bounds buffer (12 + i * 16 + 12))
    as [len [-> _]]; [lia | lia |].
  repeat match goal with
         | |- context [if ?c then _ else _] => destruct c
         end; try reflexivity.
  rewrite assign_emptyEntry_r. reflexivity.
Qed.

Lemma tableLoop_merge (n : nat) (i : Z) (metadata : FontEntry) :
  0 <= i ->
  tableLoop buffer n i metadata
  = Some (mergeEntries buffer (entriesFrom buffer n i) metadata).
Proof.
  revert i metadata; induction n as [|n IH]; intros i metadata Hi;
    cbn [tableLoop entriesFrom].
  - reflexivity.
  - destruct (12 + i * 16 + 16 >? Buf.length buffer) eqn:Hbreak.
    + reflexivity.
    + assert (12 + i * 16 + 16 <= Buf.length buffer)
        by (destruct (Z.gtb_spec (12 + i * 16 + 16) (Buf.length buffer));
            [discriminate | lia]).
      rewrite tableEntry_decode by assumption.
      rewrite IH by lia. reflexivity.
Qed.

Lemma In_entriesFrom (n : nat) (i k : Z) :
  In k (entriesFrom buffer n i) <->
  i <= k < i + Z.of_nat n /\
  (forall k', i <= k' <= k -> 12 + k' * 16 + 16 <= Buf.length buffer).
Proof.
  revert i; induction n as [|n IH]; intros i; cbn [entriesFrom].
  - split; [simpl; tauto | lia].
  - destruct (Z.gtb_spec (12 + i * 16 + 16) (Buf.length buffer)) as [Hgt|Hle].
    + split; [simpl; tauto|]. intros [Hk Hall].
      specialize (Hall i). lia.
    + cbn [In]. rewrite IH. split.
      * intros [<- | [Hk Hall]].
        -- split; [lia|]. intros k' Hk'. assert (k' = i) by lia. subst. lia.
        -- split; [lia|]. intros k' Hk'.
           destruct (Z.eq_dec k' i) as [->|Hne]; [lia | apply Hall; lia].
      * intros [Hk Hall].
        destruct (Z.eq_dec i k) as [->|Hne]; [left; reflexivity|].
        right. split; [lia|]. intros k' Hk'. apply Hall. lia.
Qed.

Lemma entriesFrom_fit (n : nat) (i k : Z) :
  0 <= i -> In k (entriesFrom buffer n i) ->
  0 <= k /\ 12 + k * 16 + 16 <= Buf.length buffer.
Proof.
  intros Hi Hin. apply In_entriesFrom in Hin as [Hk Hall].
  split; [lia | apply Hall; lia].
Qed.

Lemma entriesFrom_truncated (n : nat) (i : Z) :
  12 + i * 16 + 16 > Buf.length buffer -> entriesFrom buffer n i = [].
Proof.
  intros Hgt. destruct n; cbn [entriesFrom]; [reflexivity|].
  destruct (Z.gtb_spec (12 + i * 16 + 16) (Buf.length buffer));
    [reflexivity | lia].
Qed.

Lemma parseTTFOTFFont_short :
  Buf.length buffer < 12 -> parseTTFOTFFont buffer = None.
Proof.
  intros Hshort. unfold parseTTFOTFFont.
  destruct (Z.ltb_spec (Buf.length buffer) 12); [reflexivity | lia].
Qed.

Lemma parseTTFOTFFont_merge :
  12 <= Buf.length buffer ->
  parseTTFOTFFont buffer
  = Some (mergeEntries buffer (directoryEntries buffer) emptyEntry).
Proof.
  intros Hlen. unfold parseTTFOTFFont, directoryEntries.
  destruct (Z.ltb_spec (Buf.length buffer) 12); [lia|].
  destruct (readUInt16BE_in_bounds buffer 4) as [numTables [-> _]];
    [lia | lia |].
  apply tableLoop_merge. lia.
Qed.

Lemma parseTTFOTFFont_Some (md : FontEntry) :
  parseTTFOTFFont buffer = Some md ->
  12 <= Buf.length buffer /\
  md = mergeEntries buffer (directoryEntries buffer) emptyEntry.
Proof.
  intros Hp.
  destruct (Z.lt_ge_cases (Buf.length buffer) 12) as [Hlt|Hge].
  - rewrite parseTTFOTFFont_short in Hp by exact Hlt. discriminate.
  - rewrite parseTTFOTFFont_merge in Hp by exact Hge.
    split; [exact Hge | congruence].
Qed.

Lemma directoryEntries_fit (k : Z) :
  In k (directoryEntries buffer) ->
  0 <= k /\ 12 + k * 16 + 16 <= Buf.length buffer.
Proof.
  unfold directoryEntries.
  destruct (Buf.readUInt16BE buffer 4); [|simpl; tauto].
  apply entriesFrom_fit. lia.
Qed.

End TableDirectory.

Lemma entriesFrom_split (buffer : Buffer) (n : nat) (i j : Z) :
  In j (entriesFrom buffer n i) ->
  exists l1 l2,
    entriesFrom buffer n i = l1 ++ j :: l2 /\
    forall k, In k l2 -> j < k /\ In k (entriesFrom buffer n i).
Proof.
  revert i; induction n as [|n IH]; intros i; cbn [entriesFrom].
  - simpl; tauto.
  - destruct (Z.gtb_spec (12 + i * 16 + 16) (Buf.length buffer)) as [Hgt|Hle].
    + simpl; tauto.
    + intros [<- | Hin].
      * exists [], (entriesFrom buffer n (i + 1)). split; [reflexivity|].
        intros k Hk. split; [|right; exact Hk].
        apply In_entriesFrom in Hk. lia.
      * destruct (IH _ Hin) as [l1 [l2 [Heq Hl2]]].
        exists (i :: l1), l2. split; [rewrite Heq; reflexivity|].
        intros k Hk. destruct (Hl2 k Hk).
        split; [assumption | right; assumption].
Qed.

Lemma directoryEntries_split (buffer : Buffer) (j : Z) :
  In j (directoryEntries buffer) ->
  exists l1 l2,
    directoryEntries buffer = l1 ++ j :: l2 /\
    forall k, In k l2 -> j < k /\ In k (directoryEntries buffer).
Proof.
  unfold directoryEntries.
  destruct (Buf.readUInt16BE buffer 4); [|simpl; tauto].
  apply entriesFrom_split.
Qed.

(** C2.  A buffer shorter than 12 bytes makes [parseTTFOTFFont] return
    [null] without an exception.  On any longer buffer it returns an
    object, never [null]: the result is the merge of the entries the
    loop visited, each of which lies wholly inside the buffer, and at the
    first entry index whose 16 bytes would pass the end of the buffer
    the loop stops and returns the metadata collected so far, however
    many tables the header declares. *)
Theorem parseTTFOTFFont_short_or_truncated (buffer : Buffer) :
  (Buf.length buffer < 12 -> parseTTFOTFFont buffer = None) /\
  (12 <= Buf.length buffer ->
   parseTTFOTFFont buffer
   = Some (mergeEntries buffer (directoryEntries buffer) emptyEntry) /\
   forall k, In k (directoryEntries buffer) ->
             0 <= k /\ 12 + k * 16 + 16 <= Buf.length buffer) /\
  (forall (n : nat) (i : Z) (metadata : FontEntry),
     0 <= i -> 12 + i * 16 + 16 > Buf.length buffer ->
     tableLoop buffer n i metadata = Some metadata).
Proof.
  split; [apply parseTTFOTFFont_short|]. split.
  - intros Hlen. split; [apply parseTTFOTFFont_merge; exact Hlen|].
    apply directoryEntries_fit.
  - intros n i metadata Hi Hgt.
    rewrite tableLoop_merge by exact Hi.
    rewrite entriesFrom_truncated by exact Hgt. reflexivity.
Qed.

(** A 6-byte buffer, and a font whose second directory entry is cut off. *)
Lemma parseTTFOTFFont_short_or_truncated_witness :
  parseTTFOTFFont (Buf.ofList [0; 1; 0; 0; 0; 9]) = None /\
  parseTTFOTFFont truncatedFont
  = Some (mergeEntries truncatedFont (directoryEntries truncatedFont)
            emptyEntry) /\
  tableLoop truncatedFont 2 1 (decodeEntry truncatedFont 0)
  = Some (decodeEntry truncatedFont 0).
Proof.
  split; [|split].
  - apply (proj1 (parseTTFOTFFont_short_or_truncated
                    (Buf.ofList [0; 1; 0; 0; 0; 9]))).
    vm_compute. reflexivity.
  - apply (proj1 (proj2 (parseTTFOTFFont_short_or_truncated truncatedFont))).
    vm_compute. discriminate.
  - apply (proj2 (proj2 (parseTTFOTFFont_short_or_truncated truncatedFont)));
      vm_compute; [discriminate | reflexivity].
Defined.

(** C7, counterexample.  With two OS/2 entries, weight 400 then weight
    700, the output has weight 700: the first occurrence is not kept. *)
Lemma duplicate_tag_overwrites : ~ firstOccurrenceKept twoOS2Font.
Proof.
  intros Hkept.
  assert (Hp : exists md, parseTTFOTFFont twoOS2Font = Some md /\
                          getField FWeight md = Some (VNumber 700)).
  { eexists. split; vm_compute; reflexivity. }
  destruct Hp as [md [Hparse Hw]].
  specialize (Hkept md 0 1 FWeight (VNumber 400) Hparse).
  rewrite Hw in Hkept.
  assert (Some (VNumber 700) = Some (VNumber 400)); [|discriminate].
  apply Hkept.
  - vm_compute. tauto.
  - vm_compute. tauto.
  - lia.
  - vm_compute. reflexivity.
  - intros k Hk Hlt. apply directoryEntries_fit in Hk. lia.
  - vm_compute. reflexivity.
Qed.

(** C7, amended.  The output is the [Object.assign] of every visited
    entry's decoded properties in directory order, so for each property
    the last visited entry that decodes it decides its value: a later
    entry with a duplicate tag replaces each property it decodes and
    leaves in place the properties it does not decode. *)
Theorem duplicate_tag_last_assignment_wins (buffer : Buffer) :
  12 <= Buf.length buffer ->
  exists md,
    parseTTFOTFFont buffer = Some md /\
    md = mergeEntries buffer (directoryEntries buffer) emptyEntry /\
    (forall (f : Field) (j : Z) (v : FieldValue),
       In j (directoryEntries buffer) ->
       getField f (decodeEntry buffer j) = Some v ->
       (forall k, In k (directoryEntries buffer) -> j < k ->
                  getField f (decodeEntry buffer k) = None) ->
       getField f md = Some v) /\
    (forall (f : Field),
       (forall k, In k (directoryEntries buffer) ->
                  getField f (decodeEntry buffer k) = None) ->
       getField f md = None).
Proof.
  intros Hlen. eexists. split; [apply parseTTFOTFFont_merge; exact Hlen|].
  split; [reflexivity|]. split.
  - intros f j v Hj Hv Hlater.
    destruct (directoryEntries_split buffer j Hj) as [l1 [l2 [Heq Hl2]]].
    rewrite Heq. apply mergeEntries_last_writer; [exact Hv|].
    intros k Hk. destruct (Hl2 k Hk) as [Hlt Hin]. apply Hlater; assumption.
  - intros f Hnone. rewrite mergeEntries_untouched by exact Hnone.
    apply getField_emptyEntry.
Qed.

(** The font with two OS/2 entries. *)
Lemma duplicate_tag_last_assignment_wins_witness :
  12 <= Buf.length twoOS2Font /\
  exists md,
    parseTTFOTFFont twoOS2Font = Some md /\
    md = mergeEntries twoOS2Font (directoryEntries twoOS2Font) emptyEntry /\
    (forall (f : Field) (j : Z) (v : FieldValue),
       In j (directoryEntries twoOS2Font) ->
       getField f (decodeEntry twoOS2Font j) = Some v ->
       (forall k, In k (directoryEntries twoOS2Font) -> j < k ->
                  getField f (decodeEntry twoOS2Font k) = None) ->
       getField f md = Some v) /\
    (forall (f : Field),
       (forall k, In k (directoryEntries twoOS2Font) ->
                  getField f (decodeEntry twoOS2Font k) = None) ->
       getField f md = None).
Proof.
  assert (H : 12 <= Buf.length twoOS2Font) by (vm_compute; discriminate).
  split; [exact H|].
  exact (duplicate_tag_last_assignment_wins twoOS2Font H).
Defined.

(** ** The decoders and the monospace flag *)

Section Decoders.

Variable buffer : Buffer.

Lemma assignNameField_other (f : Field) (result : FontEntry) (nameID : Z)
  (nameStr : jsstring) :
  isNameField f = false ->
  getField f (assignNameField result nameID nameStr) = getField f result.
Proof.
  intros Hf. unfold assignNameField.
  repeat match goal with
         | |- context [if ?c then _ else _] => destruct c
         end; destruct f; try discriminate; reflexivity.
Qed.

Lemma nameRecord_other (f : Field) (stringOffset recordOffset : Z)
  (result result' : FontEntry) :
  isNameField f = false ->
  nameRecord buffer stringOffset recordOffset result = Some result' ->
  getField f result' = getField f result.
Proof.
  intros Hf. unfold nameRecord.
  destruct (Buf.readUInt16BE buffer (recordOffset + 6)); [|discriminate].
  destruct (Buf.readUInt16BE buffer (recordOffset + 8)); [|discriminate].
  destruct (Buf.readUInt16BE buffer (recordOffset + 10)); [|discriminate].
  repeat match goal with
         | |- context [if ?c then _ else _] => destruct c
         end; intros H; injection H as <-;
    [apply assignNameField_other; exact Hf | reflexivity | reflexivity].
Qed.

Lemma nameLoop_other (f : Field) (offset stringOffset : Z) (n : nat) (j : Z)
  (result : FontEntry) :
  isNameField f = false ->
  getField f (nameLoop buffer offset stringOffset n j result)
  = getField f result.
Proof.
  intros Hf. revert j result; induction n as [|n IH]; intros j result;
    cbn [nameLoop]; [reflexivity|].
  destruct (offset + 6 + j * 12 + 12 >? Buf.length buffer); [reflexivity|].
  destruct (nameRecord buffer stringOffset (offset + 6 + j * 12) result)
    as [result'|] eqn:Hrec; [|reflexivity].
  rewrite IH. eapply nameRecord_other; eassumption.
Qed.

Lemma parseNameTable_other (f : Field) (offset len : Z) :
  isNameField f = false ->
  getField f (parseNameTable buffer offset len) = None.
Proof.
  intros Hf. unfold parseNameTable.
  destruct (offset + 6 >? Buf.length buffer); [apply getField_emptyEntry|].
  destruct (Buf.readUInt16BE buffer (offset + 2));
    [|apply getField_emptyEntry].
  destruct (Buf.readUInt16BE buffer (offset + 4));
    [|apply getField_emptyEntry].
  rewrite nameLoop_other by exact Hf. apply getField_emptyEntry.
Qed.

Lemma parseNameTable_isMonospace (offset len : Z) :
  isMonospace (parseNameTable buffer offset len) = None.
Proof.
  pose proof (parseNameTable_other FIsMonospace offset len eq_refl) as H.
  simpl in H. destruct (isMonospace (parseNameTable buffer offset len));
    [discriminate | reflexivity].
Qed.

Lemma os2Selection_isMonospace (offset : Z) (result result' : FontEntry) :
  os2Selection buffer offset result = Some result' ->
  isMonospace result' = isMonospace result.
Proof.
  unfold os2Selection.
  destruct (offset + 64 <=? Buf.length buffer).
  - destruct (Buf.readUInt16BE buffer (offset + 62)); [|discriminate].
    destruct (negb (Z.land z 1 =? 0)); intros H; injection H as <-;
      reflexivity.
  - intros H; injection H as <-. reflexivity.
Qed.

Lemma os2Selection_in_bounds (offset : Z) (result : FontEntry) :
  0 <= offset ->
  exists result', os2Selection buffer offset result = Some result'.
Proof.
  intros Ho. unfold os2Selection.
  destruct (Z.leb_spec (offset + 64) (Buf.length buffer)).
  - destruct (readUInt16BE_in_bounds buffer (offset + 62)) as [v [-> _]];
      [lia | lia |].
    destruct (negb (Z.land v 1 =? 0)); eexists; reflexivity.
  - eexists; reflexivity.
Qed.

Lemma os2Panose_isMonospace (offset : Z) (result : FontEntry) :
  0 <= offset -> isMonospace result = None ->
  (isMonospace (os2Panose buffer offset result) = Some true <->
   offset + 42 <= Buf.length buffer /\
   Buf.at_ buffer (offset + 32 + 3) = Some 9).
Proof.
  intros Ho Hnone. unfold os2Panose.
  destruct (Z.leb_spec (offset + 42) (Buf.length buffer)) as [Hfit|Hno].
  - rewrite at_slice by lia.
    destruct (Buf.at_ buffer (offset + 32 + 3)) as [b|] eqn:Hb.
    + destruct (Z.eqb_spec b 9) as [->|Hne].
      * simpl. split; [|reflexivity].
        intros _; split; [exact Hfit | reflexivity].
      * rewrite Hnone. split; [discriminate|].
        intros [_ H]. injection H as ->. contradiction.
    + rewrite Hnone. split; [discriminate | intros [_ H]; discriminate].
  - rewrite Hnone. split; [discriminate | intros [H _]; lia].
Qed.

Lemma os2Panose_never_false (offset : Z) (result : FontEntry) :
  isMonospace result <> Some false ->
  isMonospace (os2Panose buffer offset result) <> Some false.
Proof.
  intros Hr. unfold os2Panose.
  destruct (offset + 42 <=? Buf.length buffer); [|exact Hr].
  destruct (Buf.at_ _ 3) as [b|]; [|exact Hr].
  destruct (b =? 9); [simpl; discriminate | exact Hr].
Qed.

Lemma parseOS2Table_isMonospace (offset len : Z) :
  0 <= offset ->
  (isMonospace (parseOS2Table buffer offset len) = Some true <->
   offset + 42 <= Buf.length buffer /\
   Buf.at_ buffer (offset + 32 + 3) = Some 9).
Proof.
  intros Ho. unfold parseOS2Table.
  destruct (Z.gtb_spec (offset + 8) (Buf.length buffer)) as [Hshort|Hfit].
  - simpl. split; [discriminate | intros [H _]; lia].
  - destruct (readUInt16BE_in_bounds buffer (offset + 4)) as [w [-> _]];
      [lia | lia |].
    destruct (os2Selection_in_bounds offset (setWeight w emptyEntry) Ho)
      as [r Hr].
    rewrite Hr. apply os2Panose_isMonospace; [exact Ho|].
    rewrite (os2Selection_isMonospace _ _ _ Hr). reflexivity.
Qed.

Lemma parseOS2Table_never_false (offset len : Z) :
  isMonospace (parseOS2Table buffer offset len) <> Some false.
Proof.
  unfold parseOS2Table.
  destruct (offset + 8 >? Buf.length buffer); [simpl; discriminate|].
  destruct (Buf.readUInt16BE buffer (offset + 4)) as [w|];
    [|simpl; discriminate].
  destruct (os2Selection buffer offset (setWeight w emptyEntry)) as [r|] eqn:Hr;
    [|simpl; discriminate].
  apply os2Panose_never_false.
  rewrite (os2Selection_isMonospace _ _ _ Hr). simpl. discriminate.
Qed.

Lemma parsePostTable_isMonospace (offset len : Z) :
  0 <= offset ->
  (isMonospace (parsePostTable buffer offset len) = Some true <->
   offset + 32 <= Buf.length buffer /\
   exists isFixedPitch,
     Buf.readUInt32BE buffer (offset + 12) = Some isFixedPitch /\
     isFixedPitch <> 0).
Proof.
  intros Ho. unfold parsePostTable.
  destruct (Z.gtb_spec (offset + 32) (Buf.length buffer)) as [Hshort|Hfit].
  - simpl. split; [discriminate | intros [H _]; lia].
  - destruct (readUInt32BE_in_bounds buffer (offset + 12)) as [v [Hv _]];
      [lia | lia |].
    rewrite Hv. destruct (Z.eqb_spec v 0) as [->|Hne]; simpl.
    + split; [discriminate|]. intros [_ [v' [Hv' Hne]]]. congruence.
    + split; [|reflexivity]. intros _. split; [lia|]. exists v. tauto.
Qed.

Lemma parsePostTable_never_false (offset len : Z) :
  isMonospace (parsePostTable buffer offset len) <> Some false.
Proof.
  unfold parsePostTable.
  destruct (offset + 32 >? Buf.length buffer); [simpl; discriminate|].
  destruct (Buf.readUInt32BE buffer (offset + 12)) as [v|];
    [|simpl; discriminate].
  destruct (negb (v =? 0)); simpl; discriminate.
Qed.

Lemma decodeEntry_never_false (i : Z) :
  isMonospace (decodeEntry buffer i) <> Some false.
Proof.
  unfold decodeEntry.
  destruct (Buf.readUInt32BE buffer (12 + i * 16 + 8)) as [off|];
    [|simpl; discriminate].
  destruct (Buf.readUInt32BE buffer (12 + i * 16 + 12)) as [len|];
    [|simpl; discriminate].
  destruct (str_eqb (entryTag buffer i) (lit "name")).
  - rewrite parseNameTable_isMonospace. discriminate.
  - destruct (str_eqb (entryTag buffer i) (lit "OS/2"));
      [apply parseOS2Table_never_false|].
    destruct (str_eqb (entryTag buffer i) (lit "post"));
      [apply parsePostTable_never_false | simpl; discriminate].
Qed.

Lemma decodeEntry_isMonospace (i : Z) :
  0 <= i -> 12 + i * 16 + 16 <= Buf.length buffer ->
  (isMonospace (decodeEntry buffer i) = Some true <->
   monospaceSignal buffer i).
Proof.
  intros Hi Hfit. unfold decodeEntry, monospaceSignal.
  destruct (readUInt32BE_in_bounds buffer (12 + i * 16 + 8))
    as [off [Hoff Hoff0]]; [lia | lia |].
  destruct (readUInt32BE_in_bounds buffer (12 + i * 16 + 12))
    as [len [Hlen _]]; [lia | lia |].
  rewrite Hoff, Hlen.
  destruct (str_eqb (entryTag buffer i) (lit "name")) eqn:Ename;
    [|destruct (str_eqb (entryTag buffer i) (lit "OS/2")) eqn:Eos2;
      [|destruct (str_eqb (entryTag buffer i) (lit "post")) eqn:Epost]].
  - apply str_eqb_eq in Ename. rewrite parseNameTable_isMonospace.
    split; [discriminate|].
    intros [off' [_ [[Htag _] | [Htag _]]]]; rewrite Ename in Htag;
      discriminate.
  - apply str_eqb_eq in Eos2. rewrite parseOS2Table_isMonospace by exact Hoff0.
    split.
    + intros H. exists off. split; [reflexivity|]. left. tauto.
    + intros [off' [Heq [[_ H] | [Htag _]]]].
      * injection Heq as <-. exact H.
      * rewrite Eos2 in Htag. discriminate.
  - apply str_eqb_eq in Epost.
    rewrite parsePostTable_isMonospace by exact Hoff0. split.
    + intros H. exists off. split; [reflexivity|]. right. tauto.
    + intros [off' [Heq [[Htag _] | [_ H]]]].
      * rewrite Epost in Htag. discriminate.
      * injection Heq as <-. exact H.
  - simpl. split; [discriminate|].
    intros [off' [_ [[Htag _] | [Htag _]]]].
    + rewrite Htag, str_eqb_refl in Eos2. discriminate.
    + rewrite Htag, str_eqb_refl in Epost. discriminate.
Qed.

Lemma mergeEntries_isMonospace (l : list Z) (m : FontEntry) :
  isMonospace m <> Some false ->
  (isMonospace (mergeEntries buffer l m) = Some true <->
   isMonospace m = Some true \/
   exists k, In k l /\ isMonospace (decodeEntry buffer k) = Some true) /\
  isMonospace (mergeEntries buffer l m) <> Some false.
Proof.
  revert m; induction l as [|k l IH]; intros m Hm.
  - simpl. split; [|exact Hm]. split; [tauto|].
    intros [H | [k [[] _]]]. exact H.
  - change (mergeEntries buffer (k :: l) m)
      with (mergeEntries buffer l (assign m (decodeEntry buffer k))).
    pose proof (decodeEntry_never_false k) as Hk.
    assert (Ha : isMonospace (assign m (decodeEntry buffer k)) <> Some false).
    { simpl. destruct (isMonospace (decodeEntry buffer k)); simpl; assumption. }
    destruct (IH _ Ha) as [Hiff Hnf]. split; [|exact Hnf].
    rewrite Hiff. simpl.
    destruct (isMonospace (decodeEntry buffer k)) as [[|]|] eqn:Hd; simpl.
    + split; [|intros _; left; reflexivity].
      intros _. right. exists k. split; [left; reflexivity | exact Hd].
    + contradiction Hk. reflexivity.
    + split.
      * intros [H | [k' [Hin Hk']]]; [left; exact H|].
        right. exists k'. split; [right; exact Hin | exact Hk'].
      * intros [H | [k' [[<- | Hin] Hk']]]; [left; exact H | congruence |].
        right. exists k'. split; assumption.
Qed.

End Decoders.

Lemma isMonospace_true_iff_signal_aux (buffer : Buffer) (md : FontEntry) :
  parseTTFOTFFont buffer = Some md ->
  (isMonospace md = Some true <->
   exists i, In i (directoryEntries buffer) /\ monospaceSignal buffer i) /\
  isMonospace md <> Some false.
Proof.
  intros Hp. apply parseTTFOTFFont_Some in Hp as [_ ->].
  destruct (mergeEntries_isMonospace buffer (directoryEntries buffer)
              emptyEntry) as [Hiff Hnf]; [simpl; discriminate|].
  split; [|exact Hnf].
  rewrite Hiff. split.
  - intros [H | [k [Hin Hk]]]; [discriminate H|].
    exists k. split; [exact Hin|].
    destruct (directoryEntries_fit buffer k Hin).
    apply decodeEntry_isMonospace; assumption.
  - intros [k [Hin Hk]]. right. exists k. split; [exact Hin|].
    destruct (directoryEntries_fit buffer k Hin).
    apply decodeEntry_isMonospace; assumption.
Qed.

(** The decoders and the monospace flag: none ever writes [false]; the
    OS/2 decoder writes [true] exactly for a PANOSE proportion byte 9
    inside the buffer, the post decoder exactly for a non-zero
    isFixedPitch inside the buffer. *)
Lemma decoders_isMonospace (buffer : Buffer) :
  (forall offset len,
     isMonospace (parseOS2Table buffer offset len) <> Some false /\
     isMonospace (parsePostTable buffer offset len) <> Some false /\
     isMonospace (parseNameTable buffer offset len) <> Some false) /\
  (forall offset len,
     0 <= offset ->
     (isMonospace (parseOS2Table buffer offset len) = Some true <->
      offset + 42 <= Buf.length buffer /\
      Buf.at_ buffer (offset + 32 + 3) = Some 9) /\
     (isMonospace (parsePostTable buffer offset len) = Some true <->
      offset + 32 <= Buf.length buffer /\
      exists isFixedPitch,
        Buf.readUInt32BE buffer (offset + 12) = Some isFixedPitch /\
        isFixedPitch <> 0)).
Proof.
  split.
  - intros offset len. split; [apply parseOS2Table_never_false|].
    split; [apply parsePostTable_never_false|].
    rewrite parseNameTable_isMonospace. discriminate.
  - intros offset len Ho. split;
      [apply parseOS2Table_isMonospace | apply parsePostTable_isMonospace];
      exact Ho.
Qed.

(** ** The name table *)

Lemma getField_assignNameField (f : Field) (result : FontEntry) (nameID : Z)
  (nameStr : jsstring) :
  (nameIDField nameID = Some f ->
   getField f (assignNameField result nameID nameStr)
   = Some (VString nameStr)) /\
  (nameIDField nameID <> Some f ->
   getField f (assignNameField result nameID nameStr) = getField f result).
Proof.
  unfold nameIDField, assignNameField.
  destruct (Z.eqb_spec nameID 0) as [->|H0]; [|
  destruct (Z.eqb_spec nameID 1) as [->|H1]; [|
  destruct (Z.eqb_spec nameID 4) as [->|H4]; [|
  destruct (Z.eqb_spec nameID 5) as [->|H5]]]]; simpl;
    (split; [intros H; try discriminate; injection H as <-; reflexivity
            | intros H; destruct f; try reflexivity; contradiction H;
              reflexivity]).
Qed.

Section NameTable.

Variable buffer : Buffer.
Variable offset : Z.
Variable stringOffset : Z.
Hypothesis offset_nonneg : 0 <= offset.

Lemma nameRecord_applyRecord (j : Z) (result : FontEntry) :
  0 <= j -> offset + 6 + j * 12 + 12 <= Buf.length buffer ->
  nameRecord buffer stringOffset (offset + 6 + j * 12) result
  = Some (applyRecord buffer offset stringOffset result j).
Proof.
  intros Hj Hfit. unfold nameRecord, applyRecord, recordDecoded.
  destruct (Z.gtb_spec (offset + 6 + j * 12 + 12) (Buf.length buffer));
    [lia|].
  destruct (readUInt16BE_in_bounds buffer (offset + 6 + j * 12 + 6))
    as [nameID [-> _]]; [lia | lia |].
  destruct (readUInt16BE_in_bounds buffer (offset + 6 + j * 12 + 8))
    as [len [-> _]]; [lia | lia |].
  destruct (readUInt16BE_in_bounds buffer (offset + 6 + j * 12 + 10))
    as [so [-> _]]; [lia | lia |].
  destruct (stringOffset + so + len <=? Buf.length buffer); [|reflexivity].
  destruct (truthy _); reflexivity.
Qed.

Lemma recordDecoded_fit (j nameID : Z) (s : jsstring) :
  recordDecoded buffer offset stringOffset j = Some (nameID, s) ->
  offset + 6 + j * 12 + 12 <= Buf.length buffer.
Proof.
  unfold recordDecoded.
  destruct (Z.gtb_spec (offset + 6 + j * 12 + 12) (Buf.length buffer));
    [discriminate | lia].
Qed.

Lemma applyRecord_writes (f : Field) (result : FontEntry) (j : Z)
  (s : jsstring) :
  recordWrites buffer offset stringOffset j f s ->
  getField f (applyRecord buffer offset stringOffset result j)
  = Some (VString s).
Proof.
  intros [nameID [Hdec [Hne Hf]]]. unfold applyRecord. rewrite Hdec.
  apply truthy_nonempty in Hne. rewrite Hne.
  apply getField_assignNameField. exact Hf.
Qed.

Lemma applyRecord_silent (f : Field) (result : FontEntry) (j : Z) :
  (forall s, ~ recordWrites buffer offset stringOffset j f s) ->
  getField f (applyRecord buffer offset stringOffset result j)
  = getField f result.
Proof.
  intros Hsilent. unfold applyRecord.
  destruct (recordDecoded buffer offset stringOffset j)
    as [[nameID s]|] eqn:Hdec; [|reflexivity].
  destruct (truthy s) eqn:Hs; [|reflexivity].
  apply getField_assignNameField. intros Hf.
  apply (Hsilent s). exists nameID.
  split; [exact Hdec|]. split; [apply truthy_nonempty; exact Hs | exact Hf].
Qed.

Lemma nameLoop_silent (f : Field) (n : nat) (j : Z) (result : FontEntry) :
  0 <= j ->
  (forall k s, j <= k < j + Z.of_nat n ->
               ~ recordWrites buffer offset stringOffset k f s) ->
  getField f (nameLoop buffer offset stringOffset n j result)
  = getField f result.
Proof.
  revert j result; induction n as [|n IH]; intros j result Hj Hsilent;
    cbn [nameLoop]; [reflexivity|].
  destruct (Z.gtb_spec (offset + 6 + j * 12 + 12) (Buf.length buffer));
    [reflexivity|].
  rewrite nameRecord_applyRecord by lia.
  rewrite IH; [|lia|].
  - apply applyRecord_silent. intros s. apply Hsilent. lia.
  - intros k s Hk. apply Hsilent. lia.
Qed.

Lemma nameLoop_last_writer (f : Field) (n : nat) (j k : Z)
  (result : FontEntry) (s : jsstring) :
  0 <= j -> j <= k < j + Z.of_nat n ->
  recordWrites buffer offset stringOffset k f s ->
  (forall k' s', k < k' < j + Z.of_nat n ->
                 ~ recordWrites buffer offset stringOffset k' f s') ->
  getField f (nameLoop buffer offset stringOffset n j result)
  = Some (VString s).
Proof.
  revert j result; induction n as [|n IH]; intros j result Hj Hk Hw Hlater;
    [lia|]. cbn [nameLoop].
  assert (Hfit : offset + 6 + k * 12 + 12 <= Buf.length buffer).
  { destruct Hw as [nameID [Hdec _]]. eapply recordDecoded_fit; eassumption. }
  destruct (Z.gtb_spec (offset + 6 + j * 12 + 12) (Buf.length buffer));
    [lia|].
  rewrite nameRecord_applyRecord by lia.
  destruct (Z.eq_dec j k) as [->|Hne].
  - rewrite nameLoop_silent; [|lia|].
    + apply applyRecord_writes. exact Hw.
    + intros k' s' Hk'. apply Hlater. lia.
  - apply IH; [lia | lia | exact Hw |].
    intros k' s' Hk'. apply Hlater. lia.
Qed.

End NameTable.

Lemma parseNameTable_nameLoop (buffer : Buffer) (offset len : Z) :
  0 <= offset -> offset + 6 <= Buf.length buffer ->
  parseNameTable buffer offset len
  = nameLoop buffer offset (stringStorage buffer offset)
      (Z.to_nat (recordCount buffer offset)) 0 emptyEntry.
Proof.
  intros Ho Hfit. unfold parseNameTable, stringStorage, recordCount.
  destruct (Z.gtb_spec (offset + 6) (Buf.length buffer)); [lia|].
  destruct (readUInt16BE_in_bounds buffer (offset + 2)) as [count [-> _]];
    [lia | lia |].
  destruct (readUInt16BE_in_bounds buffer (offset + 4)) as [so [-> _]];
    [lia | lia |].
  reflexivity.
Qed.

Lemma parseNameTable_last_writer (buffer : Buffer) (offset len : Z)
  (f : Field) (j : Z) (s : jsstring) :
  0 <= offset -> 0 <= j < recordCount buffer offset ->
  recordWrites buffer offset (stringStorage buffer offset) j f s ->
  (forall k s', j < k < recordCount buffer offset ->
     ~ recordWrites buffer offset (stringStorage buffer offset) k f s') ->
  getField f (parseNameTable buffer offset len) = Some (VString s).
Proof.
  intros Ho Hj Hw Hlater.
  assert (Hfit : offset + 6 + j * 12 + 12 <= Buf.length buffer).
  { destruct Hw as [nameID [Hdec _]]. eapply recordDecoded_fit; eassumption. }
  rewrite parseNameTable_nameLoop by lia.
  apply (nameLoop_last_writer buffer offset _ Ho f _ 0 j);
    [lia | lia | exact Hw |].
  intros k s' Hk. apply Hlater. lia.
Qed.

Lemma parseNameTable_silent (buffer : Buffer) (offset len : Z) (f : Field) :
  0 <= offset ->
  (forall k s', 0 <= k < recordCount buffer offset ->
     ~ recordWrites buffer offset (stringStorage buffer offset) k f s') ->
  getField f (parseNameTable buffer offset len) = None.
Proof.
  intros Ho Hsilent.
  destruct (Z.le_gt_cases (offset + 6) (Buf.length buffer)) as [Hfit|Hshort].
  - rewrite parseNameTable_nameLoop by lia.
    rewrite (nameLoop_silent buffer offset _ Ho f);
      [apply getField_emptyEntry | lia |].
    intros k s Hk. apply Hsilent. lia.
  - unfold parseNameTable.
    destruct (Z.gtb_spec (offset + 6) (Buf.length buffer)); [|lia].
    apply getField_emptyEntry.
Qed.

(** C3, counterexample.  A nameID-4 record "Arial" followed by a
    nameID-4 record of length 0: the last record does not win, the name
    stays "Arial". *)
Lemma last_record_does_not_always_win : ~ lastRecordWins arialThenEmptyTable 0.
Proof.
  intros Hwins.
  specialize (Hwins 1 4 [] FName).
  assert (Hcount : recordCount arialThenEmptyTable 0 = 2)
    by (vm_compute; reflexivity).
  assert (H : getField FName (parseNameTable arialThenEmptyTable 0 0)
              = Some (VString [])).
  { apply Hwins.
    - rewrite Hcount. lia.
    - vm_compute. reflexivity.
    - reflexivity.
    - intros k nameID' s' Hk. rewrite Hcount in Hk. lia. }
  vm_compute in H. discriminate H.
Qed.

(** C3, amended.  The switch stores nameID 0 in [copyright], 1 in
    [family], 4 in [name] and 5 in [version] and leaves the result alone
    for every other nameID; a record whose string range falls outside
    the buffer changes nothing and raises nothing; records are applied
    in on-disk order, and for each property the last record that maps to
    it with a non-empty decoded string decides its value (a property no
    record writes stays absent). *)
Theorem nameTable_last_nonempty_record_wins (buffer : Buffer)
  (offset len : Z) :
  0 <= offset ->
  (forall result nameID s,
     copyright (assignNameField result 0 s) = Some s /\
     family (assignNameField result 1 s) = Some s /\
     name (assignNameField result 4 s) = Some s /\
     version (assignNameField result 5 s) = Some s /\
     (nameID <> 0 -> nameID <> 1 -> nameID <> 4 -> nameID <> 5 ->
      assignNameField result nameID s = result)) /\
  (forall stringOffset j result,
     0 <= j -> offset + 6 + j * 12 + 12 <= Buf.length buffer ->
     recordDecoded buffer offset stringOffset j = None ->
     nameRecord buffer stringOffset (offset + 6 + j * 12) result
     = Some result) /\
  (forall f j s,
     0 <= j < recordCount buffer offset ->
     recordWrites buffer offset (stringStorage buffer offset) j f s ->
     (forall k s', j < k < recordCount buffer offset ->
        ~ recordWrites buffer offset (stringStorage buffer offset) k f s') ->
     getField f (parseNameTable buffer offset len) = Some (VString s)) /\
  (forall f,
     (forall k s', 0 <= k < recordCount buffer offset ->
        ~ recordWrites buffer offset (stringStorage buffer offset) k f s') ->
     getField f (parseNameTable buffer offset len) = None).
Proof.
  intros Ho. split; [|split; [|split]].
  - intros result nameID s. repeat split.
    intros H0 H1 H4 H5. unfold assignNameField.
    destruct (Z.eqb_spec nameID 1); [contradiction|].
    destruct (Z.eqb_spec nameID 4); [contradiction|].
    destruct (Z.eqb_spec nameID 5); [contradiction|].
    destruct (Z.eqb_spec nameID 0); [contradiction|]. reflexivity.
  - intros stringOffset j result Hj Hfit Hdec.
    rewrite nameRecord_applyRecord by assumption.
    unfold applyRecord. rewrite Hdec. reflexivity.
  - intros f j s Hj Hw Hlater.
    apply parseNameTable_last_writer with (j := j); assumption.
  - intros f Hsilent. apply parseNameTable_silent; assumption.
Qed.

(** "Arial" then "Arial MT": the later record wins. *)
Lemma nameTable_last_nonempty_record_wins_witness :
  0 <= 0 /\
  getField FName (parseNameTable arialTable 0 62)
  = Some (VString (lit "Arial MT")).
Proof.
  assert (H0 : 0 <= 0) by lia.
  split; [exact H0|].
  assert (Hcount : recordCount arialTable 0 = 2) by (vm_compute; reflexivity).
  apply (proj1 (proj2 (proj2
           (nameTable_last_nonempty_record_wins arialTable 0 62 H0)))
           FName 1 (lit "Arial MT")).
  - rewrite Hcount. lia.
  - exists 4. split; [vm_compute; reflexivity|].
    split; [discriminate | reflexivity].
  - intros k s' Hk. rewrite Hcount in Hk. lia.
Defined.

(** C10.  A record whose decoded string (UTF-16BE decoding, NUL
    stripping, trimming) is empty leaves the result as it was, whatever
    its nameID; so when every later record that maps to a property
    decodes to the empty string, the value written by the earlier
    non-empty record stays in place. *)
Theorem empty_name_record_assigns_nothing (buffer : Buffer)
  (offset len : Z) :
  0 <= offset ->
  (forall stringOffset j nameID result,
     0 <= j ->
     recordDecoded buffer offset stringOffset j = Some (nameID, []) ->
     nameRecord buffer stringOffset (offset + 6 + j * 12) result
     = Some result) /\
  (forall f j s,
     0 <= j < recordCount buffer offset ->
     recordWrites buffer offset (stringStorage buffer offset) j f s ->
     (forall k nameID s',
        j < k < recordCount buffer offset ->
        recordDecoded buffer offset (stringStorage buffer offset) k
        = Some (nameID, s') ->
        nameIDField nameID = Some f -> s' = []) ->
     getField f (parseNameTable buffer offset len) = Some (VString s)).
Proof.
  intros Ho. split.
  - intros stringOffset j nameID result Hj Hdec.
    rewrite nameRecord_applyRecord;
      [| exact Ho | exact Hj | eapply recordDecoded_fit; exact Hdec].
    unfold applyRecord. rewrite Hdec. reflexivity.
  - intros f j s Hj Hw Hlater.
    apply parseNameTable_last_writer with (j := j); try assumption.
    intros k s' Hk [nameID [Hdec [Hne Hf]]].
    apply Hne. eapply Hlater; eassumption.
Qed.

(** "Arial" then a record of length 0: the name stays "Arial". *)
Lemma empty_name_record_assigns_nothing_witness :
  0 <= 0 /\
  getField FName (parseNameTable arialThenEmptyTable 0 40)
  = Some (VString (lit "Arial")).
Proof.
  assert (H0 : 0 <= 0) by lia.
  split; [exact H0|].
  assert (Hcount : recordCount arialThenEmptyTable 0 = 2)
    by (vm_compute; reflexivity).
  apply (proj2 (empty_name_record_assigns_nothing arialThenEmptyTable 0 40 H0)
           FName 0 (lit "Arial")).
  - rewrite Hcount. lia.
  - exists 4. split; [vm_compute; reflexivity|].
    split; [discriminate | reflexivity].
  - intros k nameID s' Hk Hdec _. rewrite Hcount in Hk.
    assert (k = 1) by lia. subst k.
    vm_compute in Hdec. injection Hdec as _ <-. reflexivity.
Defined.

Example blank_name_record_assigns_nothing :
  parseNameTable arialThenBlankTable 0 44
  = setName (lit "Arial") emptyEntry.
Proof. vm_compute. reflexivity. Qed.

Example arial_then_arial_mt :
  name (parseNameTable arialTable 0 62) = Some (lit "Arial MT").
Proof. vm_compute. reflexivity. Qed.

(** ** Metadata synthesis *)

Section HostFields.

Variable buffer : Buffer.

Lemma hostFields_assignNameField (result : FontEntry) (nameID : Z)
  (s : jsstring) :
  hostFields (assignNameField result nameID s) = hostFields result.
Proof.
  unfold assignNameField.
  repeat match goal with
         | |- context [if ?c then _ else _] => destruct c
         end; reflexivity.
Qed.

Lemma hostFields_nameLoop (offset stringOffset : Z) (n : nat) (j : Z)
  (result : FontEntry) :
  hostFields (nameLoop buffer offset stringOffset n j result)
  = hostFields result.
Proof.
  revert j result; induction n as [|n IH]; intros j result; cbn [nameLoop];
    [reflexivity|].
  destruct (offset + 6 + j * 12 + 12 >? Buf.length buffer); [reflexivity|].
  unfold nameRecord.
  destruct (Buf.readUInt16BE buffer (offset + 6 + j * 12 + 6));
    [|reflexivity].
  destruct (Buf.readUInt16BE buffer (offset + 6 + j * 12 + 8));
    [|reflexivity].
  destruct (Buf.readUInt16BE buffer (offset + 6 + j * 12 + 10));
    [|reflexivity].
  repeat match goal with
         | |- context [if ?c then _ else _] => destruct c
         end; rewrite IH; [apply hostFields_assignNameField | | ];
    reflexivity.
Qed.

Lemma hostFields_parseNameTable (offset len : Z) :
  hostFields (parseNameTable buffer offset len) = hostFields emptyEntry.
Proof.
  unfold parseNameTable.
  destruct (offset + 6 >? Buf.length buffer); [reflexivity|].
  destruct (Buf.readUInt16BE buffer (offset + 2)); [|reflexivity].
  destruct (Buf.readUInt16BE buffer (offset + 4)); [|reflexivity].
  apply hostFields_nameLoop.
Qed.

Lemma hostFields_os2Selection (offset : Z) (result result' : FontEntry) :
  os2Selection buffer offset result = Some result' ->
  hostFields result' = hostFields result.
Proof.
  unfold os2Selection.
  destruct (offset + 64 <=? Buf.length buffer).
  - destruct (Buf.readUInt16BE buffer (offset + 62)); [|discriminate].
    destruct (negb _); intros H; injection H as <-; reflexivity.
  - intros H; injection H as <-. reflexivity.
Qed.

Lemma hostFields_os2Panose (offset : Z) (result : FontEntry) :
  hostFields (os2Panose buffer offset result) = hostFields result.
Proof.
  unfold os2Panose.
  destruct (offset + 42 <=? Buf.length buffer); [|reflexivity].
  destruct (Buf.at_ _ 3) as [b|]; [|reflexivity].
  destruct (b =? 9); reflexivity.
Qed.

Lemma hostFields_parseOS2Table (offset len : Z) :
  hostFields (parseOS2Table buffer offset len) = hostFields emptyEntry.
Proof.
  unfold parseOS2Table.
  destruct (offset + 8 >? Buf.length buffer); [reflexivity|].
  destruct (Buf.readUInt16BE buffer (offset + 4)) as [w|]; [|reflexivity].
  destruct (os2Selection buffer offset (setWeight w emptyEntry))
    as [r|] eqn:Hr; [|reflexivity].
  rewrite hostFields_os2Panose.
  rewrite (hostFields_os2Selection _ _ _ Hr). reflexivity.
Qed.

Lemma hostFields_parsePostTable (offset len : Z) :
  hostFields (parsePostTable buffer offset len) = hostFields emptyEntry.
Proof.
  unfold parsePostTable.
  repeat match goal with
         | |- context [if ?c then _ else _] => destruct c
         | |- context [match ?c with Some _ => _ | None => _ end] => destruct c
         end; reflexivity.
Qed.

Lemma hostFields_decodeEntry (i : Z) :
  hostFields (decodeEntry buffer i) = hostFields emptyEntry.
Proof.
  unfold decodeEntry.
  destruct (Buf.readUInt32BE buffer (12 + i * 16 + 8)); [|reflexivity].
  destruct (Buf.readUInt32BE buffer (12 + i * 16 + 12)); [|reflexivity].
  destruct (str_eqb _ _); [apply hostFields_parseNameTable|].
  destruct (str_eqb _ _); [apply hostFields_parseOS2Table|].
  destruct (str_eqb _ _); [apply hostFields_parsePostTable | reflexivity].
Qed.

Lemma hostFields_assign (a b : FontEntry) :
  hostFields b = hostFields emptyEntry ->
  hostFields (assign a b) = hostFields a.
Proof.
  unfold hostFields. simpl. intros H. injection H as -> -> -> ->.
  reflexivity.
Qed.

Lemma hostFields_mergeEntries (l : list Z) (m : FontEntry) :
  hostFields (mergeEntries buffer l m) = hostFields m.
Proof.
  revert m; induction l as [|k l IH]; intros m; [reflexivity|].
  change (mergeEntries buffer (k :: l) m)
    with (mergeEntries buffer l (assign m (decodeEntry buffer k))).
  rewrite IH. apply hostFields_assign, hostFields_decodeEntry.
Qed.

Lemma hostFields_parseTTFOTFFont (md : FontEntry) :
  parseTTFOTFFont buffer = Some md -> hostFields md = hostFields emptyEntry.
Proof.
  intros Hp. apply parseTTFOTFFont_Some in Hp as [_ ->].
  apply hostFields_mergeEntries.
Qed.

End HostFields.

Lemma synthesize_hostFields (fontPath : jsstring) (stats : FileStats)
  (buffer : Buffer) :
  hostFields (synthesize fontPath stats buffer)
  = (Some fontPath,
     Some (substring1 (toLowerCase (Path.extname fontPath))),
     Some (size stats), Some (mtime stats)).
Proof.
  unfold synthesize.
  destruct (arrayIncludes _ _); [|reflexivity].
  destruct (parseTTFOTFFont buffer) as [md|] eqn:Hp; [|reflexivity].
  destruct (opt_truthy (name md)); [|reflexivity].
  rewrite hostFields_assign; [reflexivity|].
  eapply hostFields_parseTTFOTFFont; exact Hp.
Qed.

Lemma synthesize_path (fontPath : jsstring) (stats : FileStats)
  (buffer : Buffer) :
  path (synthesize fontPath stats buffer) = Some fontPath.
Proof.
  pose proof (synthesize_hostFields fontPath stats buffer) as H.
  unfold hostFields in H. congruence.
Qed.

Lemma synthesize_fallback (fontPath : jsstring) (stats : FileStats)
  (buffer : Buffer) :
  ~ tablesYieldName fontPath buffer ->
  name (synthesize fontPath stats buffer) = Some (fallbackName fontPath) /\
  family (synthesize fontPath stats buffer) = Some (fallbackName fontPath).
Proof.
  intros Hno. unfold synthesize, tablesYieldName, fallbackName in *.
  destruct (arrayIncludes _ _) eqn:Hext; [|split; reflexivity].
  destruct (parseTTFOTFFont buffer) as [md|] eqn:Hp; [|split; reflexivity].
  destruct (opt_truthy (name md)) eqn:Hn; [|split; reflexivity].
  contradiction Hno. split; [reflexivity|]. exists md. tauto.
Qed.

Lemma synthesize_tables (fontPath : jsstring) (stats : FileStats)
  (buffer : Buffer) (md : FontEntry) :
  arrayIncludes [lit ".ttf"; lit ".otf"; lit ".ttc"]
    (toLowerCase (Path.extname fontPath)) = true ->
  parseTTFOTFFont buffer = Some md -> opt_truthy (name md) = true ->
  name (synthesize fontPath stats buffer) = name md.
Proof.
  intros Hext Hp Hn. unfold synthesize. rewrite Hext, Hp, Hn. simpl.
  destruct (name md); [reflexivity | discriminate].
Qed.

(** The monospace flag of a synthesized entry is that of the decoded
    tables when they are used, and absent on the fallback. *)
Lemma synthesize_isMonospace (fontPath : jsstring) (stats : FileStats)
  (buffer : Buffer) :
  isMonospace (synthesize fontPath stats buffer) <> Some false /\
  (forall md,
     arrayIncludes [lit ".ttf"; lit ".otf"; lit ".ttc"]
       (toLowerCase (Path.extname fontPath)) = true ->
     parseTTFOTFFont buffer = Some md -> opt_truthy (name md) = true ->
     isMonospace (synthesize fontPath stats buffer) = isMonospace md) /\
  (~ tablesYieldName fontPath buffer ->
   isMonospace (synthesize fontPath stats buffer) = None).
Proof.
  split; [|split].
  - unfold synthesize.
    destruct (arrayIncludes _ _); [|simpl; discriminate].
    destruct (parseTTFOTFFont buffer) as [md|] eqn:Hp; [|simpl; discriminate].
    destruct (opt_truthy (name md)); [|simpl; discriminate].
    destruct (isMonospace_true_iff_signal_aux buffer md Hp) as [_ Hnf].
    simpl. destruct (isMonospace md) as [[|]|]; simpl; try discriminate.
    contradiction Hnf. reflexivity.
  - intros md Hext Hp Hn. unfold synthesize. rewrite Hext, Hp, Hn. simpl.
    destruct (isMonospace md); reflexivity.
  - intros Hno. unfold synthesize, tablesYieldName in *.
    destruct (arrayIncludes _ _) eqn:Hext; [|reflexivity].
    destruct (parseTTFOTFFont buffer) as [md|] eqn:Hp; [|reflexivity].
    destruct (opt_truthy (name md)) eqn:Hn; [|reflexivity].
    contradiction Hno. split; [reflexivity|]. exists md. tauto.
Qed.

(** C4, counterexample.  A [.ttf] file whose only table is a post table
    with isFixedPitch 1: the tables are decoded and carry the signal,
    but they yield no name, the entry is the filename fallback and its
    [isMonospace] is absent. *)
Lemma unnamed_font_loses_monospace_flag :
  ~ flagFollowsTables (lit "/fonts/mono.ttf") (mkFileStats 60 0)
      fixedPitchFont.
Proof.
  intros Hclaim.
  assert (Hp : exists md, parseTTFOTFFont fixedPitchFont = Some md /\
                          isMonospace md = Some true).
  { eexists. split; vm_compute; reflexivity. }
  destruct Hp as [md [Hp Hm]].
  assert (Hext : arrayIncludes [lit ".ttf"; lit ".otf"; lit ".ttc"]
                   (toLowerCase (Path.extname (lit "/fonts/mono.ttf")))
                 = true) by (vm_compute; reflexivity).
  destruct (Hclaim Hext md Hp) as [_ Hback].
  assert (Hflag : isMonospace (synthesize (lit "/fonts/mono.ttf")
                                 (mkFileStats 60 0) fixedPitchFont)
                  = Some true).
  { apply Hback.
    apply (proj1 (isMonospace_true_iff_signal_aux fixedPitchFont md Hp)).
    exact Hm. }
  vm_compute in Hflag. discriminate Hflag.
Qed.

(** C4, amended.  In the entry of a font file, [isMonospace] is [true]
    exactly when the decoded metadata is kept, that is the extension is
    [.ttf], [.otf] or [.ttc] and the tables yield a non-empty name, and
    some visited directory entry is an OS/2 table whose PANOSE
    proportion byte (index 3 of the ten bytes at offset 32) is 9 or a
    post table whose isFixedPitch is not zero; in every other case the
    property is absent.  Neither a decoder nor the entry ever holds
    [false]. *)
Theorem isMonospace_true_iff_named_signal (fontPath : jsstring)
  (stats : FileStats) (buffer : Buffer) :
  (isMonospace (synthesize fontPath stats buffer) = Some true <->
   tablesYieldName fontPath buffer /\
   exists i, In i (directoryEntries buffer) /\ monospaceSignal buffer i) /\
  (isMonospace (synthesize fontPath stats buffer) <> Some true ->
   isMonospace (synthesize fontPath stats buffer) = None) /\
  (forall h entry,
     statSync h fontPath = inr stats -> readFileSync h fontPath = inr buffer ->
     readFontMetadataSync h fontPath = Some entry \/
     readFontMetadataAsync h fontPath = Some entry ->
     entry = synthesize fontPath stats buffer) /\
  (forall offset len,
     isMonospace (parseOS2Table buffer offset len) <> Some false /\
     isMonospace (parsePostTable buffer offset len) <> Some false /\
     isMonospace (parseNameTable buffer offset len) <> Some false) /\
  (forall offset len,
     0 <= offset ->
     (isMonospace (parseOS2Table buffer offset len) = Some true <->
      offset + 42 <= Buf.length buffer /\
      Buf.at_ buffer (offset + 32 + 3) = Some 9) /\
     (isMonospace (parsePostTable buffer offset len) = Some true <->
      offset + 32 <= Buf.length buffer /\
      exists isFixedPitch,
        Buf.readUInt32BE buffer (offset + 12) = Some isFixedPitch /\
        isFixedPitch <> 0)).
Proof.
  destruct (synthesize_isMonospace fontPath stats buffer)
    as [Hnf [Hkept Hdropped]].
  split; [|split; [|split; [|apply decoders_isMonospace]]].
  - split.
    + intros Htrue.
      assert (Hy : tablesYieldName fontPath buffer).
      { unfold tablesYieldName.
        destruct (arrayIncludes [lit ".ttf"; lit ".otf"; lit ".ttc"]
                    (toLowerCase (Path.extname fontPath))) eqn:Hext.
        - destruct (parseTTFOTFFont buffer) as [md|] eqn:Hp.
          + destruct (opt_truthy (name md)) eqn:Hn.
            * split; [reflexivity|]. exists md. split; [reflexivity|].
              exact Hn.
            * rewrite Hdropped in Htrue; [discriminate|].
              unfold tablesYieldName. rewrite Hp.
              intros [_ [md' [Heq Hn']]]. injection Heq as <-. congruence.
          + rewrite Hdropped in Htrue; [discriminate|].
            unfold tablesYieldName. rewrite Hp.
            intros [_ [md' [Heq _]]]. discriminate.
        - rewrite Hdropped in Htrue; [discriminate|].
          unfold tablesYieldName. rewrite Hext. intros [H _]. discriminate. }
      split; [exact Hy|].
      destruct Hy as [Hext [md [Hp Hn]]].
      rewrite (Hkept md Hext Hp Hn) in Htrue.
      apply (proj1 (isMonospace_true_iff_signal_aux buffer md Hp)).
      exact Htrue.
    + intros [[Hext [md [Hp Hn]]] Hsig].
      rewrite (Hkept md Hext Hp Hn).
      apply (proj1 (isMonospace_true_iff_signal_aux buffer md Hp)).
      exact Hsig.
  - intros Hnt.
    destruct (isMonospace (synthesize fontPath stats buffer)) as [[|]|];
      [contradiction Hnt | contradiction Hnf |]; reflexivity.
  - intros h entry Hst Hrd.
    unfold readFontMetadataSync, readFontMetadataAsync. rewrite Hst, Hrd.
    intros [H|H]; injection H as <-; reflexivity.
Qed.

(** The font with a name and a fixed-pitch post table keeps the flag;
    the same post table without a name table loses it. *)
Lemma isMonospace_true_iff_named_signal_witness :
  isMonospace (synthesize (lit "/fonts/mono.ttf") (mkFileStats 102 0)
                 namedFixedPitchFont) = Some true /\
  isMonospace (synthesize (lit "/fonts/mono.ttf") (mkFileStats 60 0)
                 fixedPitchFont) = None.
Proof.
  split.
  - apply (proj1 (isMonospace_true_iff_named_signal (lit "/fonts/mono.ttf")
                    (mkFileStats 102 0) namedFixedPitchFont)).
    split.
    + split; [vm_compute; reflexivity|].
      eexists. split; vm_compute; reflexivity.
    + exists 1. split; [vm_compute; tauto|].
      exists 70. split; [vm_compute; reflexivity|]. right.
      split; [vm_compute; reflexivity|].
      split; [vm_compute; discriminate|].
      exists 1. split; [vm_compute; reflexivity | discriminate].
  - apply (proj1 (proj2 (isMonospace_true_iff_named_signal
                           (lit "/fonts/mono.ttf") (mkFileStats 60 0)
                           fixedPitchFont))).
    vm_compute. discriminate.
Defined.

(** Synthesis returns an entry whenever the file can be stat'ed and
    read, and [null] exactly when the filesystem fails. *)
Lemma readFontMetadataSync_entry_iff_io (h : Host) (fontPath : jsstring) :
  (forall stats buffer,
     statSync h fontPath = inr stats -> readFileSync h fontPath = inr buffer ->
     readFontMetadataSync h fontPath
     = Some (synthesize fontPath stats buffer)) /\
  (readFontMetadataSync h fontPath = None <-> ioFailure h fontPath <> None).
Proof.
  unfold readFontMetadataSync, ioFailure. split.
  - intros stats buffer -> ->. reflexivity.
  - destruct (statSync h fontPath); [split; [discriminate | reflexivity]|].
    destruct (readFileSync h fontPath);
      [split; [discriminate | reflexivity]|].
    split; [discriminate | intros H; contradiction H; reflexivity].
Qed.

Lemma readFontMetadataAsync_sync (h : Host) (fontPath : jsstring) :
  readFontMetadataAsync h fontPath = readFontMetadataSync h fontPath.
Proof. reflexivity. Qed.

(** A 12-byte zero-filled buffer declares no table: the decoders yield
    nothing and synthesis falls back to the file name. *)
Example zero_header_declares_no_table :
  parseTTFOTFFont (Buf.ofList (repeat 0 12)) = Some emptyEntry.
Proof. vm_compute. reflexivity. Qed.

(** With tables that yield no name, the fallback takes the file name
    and strips the lower-cased extension, case-sensitively. *)
Example custom_bold_fallback :
  forall stats,
    name (synthesize (lit "/fonts/Custom-Bold.ttf") stats
            (Buf.ofList (repeat 0 12))) = Some (lit "Custom-Bold") /\
    family (synthesize (lit "/fonts/Custom-Bold.ttf") stats
              (Buf.ofList (repeat 0 12))) = Some (lit "Custom-Bold").
Proof. intros stats. split; vm_compute; reflexivity. Qed.

(** C5, at the failing input.  [ARIAL.TTF] is a candidate of [walkDir]
    and can be stat'ed and read; it has no name table, and its entry is
    named [ARIAL.TTF], the file name with its extension. *)
Lemma uppercase_extension_stays_in_fallback_name :
  isFontFile (lit "/fonts/ARIAL.TTF") = true /\
  ioFailure demoHost (lit "/fonts/ARIAL.TTF") = None /\
  exists entry,
    readFontMetadataSync demoHost (lit "/fonts/ARIAL.TTF") = Some entry /\
    name entry = Some (lit "ARIAL.TTF") /\
    family entry = Some (lit "ARIAL.TTF") /\
    format entry = Some (lit "ttf").
Proof.
  split; [vm_compute; reflexivity|]. split; [vm_compute; reflexivity|].
  eexists. split; [vm_compute; reflexivity|].
  repeat split.
Qed.

(** ** The file loop of the scans *)

Section ScanLoop.

Variable h : Host.

Lemma arrayLength_app {A} (l1 l2 : list A) :
  arrayLength (l1 ++ l2) = arrayLength l1 + arrayLength l2.
Proof. unfold arrayLength. rewrite length_app. lia. Qed.

Lemma arrayLength_nonneg {A} (l : list A) : 0 <= arrayLength l.
Proof. unfold arrayLength. lia. Qed.

Lemma entriesOf_app (l1 l2 : list jsstring) :
  entriesOf h (l1 ++ l2) = entriesOf h l1 ++ entriesOf h l2.
Proof. apply flat_map_app. Qed.

Lemma errorsOf_app (l1 l2 : list jsstring) :
  errorsOf h (l1 ++ l2) = errorsOf h l1 ++ errorsOf h l2.
Proof. apply flat_map_app. Qed.

Lemma entriesOf_cons (file : jsstring) (files : list jsstring) :
  entriesOf h (file :: files)
  = match fileOutcome h file with
    | inl f => f :: entriesOf h files
    | inr _ => entriesOf h files
    end.
Proof. unfold entriesOf. simpl. destruct (fileOutcome h file); reflexivity. Qed.

Lemma errorsOf_cons (file : jsstring) (files : list jsstring) :
  errorsOf h (file :: files)
  = match fileOutcome h file with
    | inl _ => errorsOf h files
    | inr e => e :: errorsOf h files
    end.
Proof. unfold errorsOf. simpl. destruct (fileOutcome h file); reflexivity. Qed.

Lemma arrayLength_cons {A} (x : A) (l : list A) :
  arrayLength (x :: l) = 1 + arrayLength l.
Proof. unfold arrayLength. simpl List.length. lia. Qed.

Lemma outcomes_partition (files : list jsstring) :
  arrayLength (entriesOf h files) + arrayLength (errorsOf h files)
  = arrayLength files.
Proof.
  induction files as [|file files IH]; [reflexivity|].
  change (file :: files) with ([file] ++ files).
  rewrite entriesOf_app, errorsOf_app, !arrayLength_app.
  assert (Hone : arrayLength (entriesOf h [file])
                 + arrayLength (errorsOf h [file]) = arrayLength [file]).
  { unfold entriesOf, errorsOf. simpl.
    destruct (fileOutcome h file); reflexivity. }
  lia.
Qed.

Lemma scanFile_outcome (st : ScanLoop) (file : jsstring) :
  scanFile h st file
  = match fileOutcome h file with
    | inl f => mkScanLoop (accFonts st ++ [f]) (accErrors st)
                 (accProcessed st + 1) (accFailed st)
    | inr e => mkScanLoop (accFonts st) (accErrors st ++ [e])
                 (accProcessed st + 1) (accFailed st + 1)
    end.
Proof.
  unfold scanFile, fileOutcome.
  destruct (readFontMetadataSync h file) as [metadata|]; [|reflexivity].
  destruct (opt_truthy (name metadata)); reflexivity.
Qed.

Lemma fileLoop_outcomes (files : list jsstring) (st : ScanLoop) :
  fold_left (scanFile h) files st
  = mkScanLoop (accFonts st ++ entriesOf h files)
      (accErrors st ++ errorsOf h files)
      (accProcessed st + arrayLength files)
      (accFailed st + arrayLength (errorsOf h files)).
Proof.
  revert st; induction files as [|file files IH]; intros st.
  - destruct st. simpl. unfold arrayLength. simpl.
    rewrite !app_nil_r, !Z.add_0_r. reflexivity.
  - cbn [fold_left]. rewrite IH, scanFile_outcome.
    rewrite entriesOf_cons, errorsOf_cons, arrayLength_cons.
    destruct (fileOutcome h file);
      cbn [accFonts accErrors accProcessed accFailed];
      rewrite ?arrayLength_cons, <- ?app_assoc; f_equal;
      try reflexivity; lia.
Qed.

Lemma batchFile_outcome (st : ScanLoop) (file : jsstring) :
  collectBatchResult st (batchFile h file)
  = match fileOutcome h file with
    | inl f => mkScanLoop (accFonts st ++ [f]) (accErrors st)
                 (accProcessed st) (accFailed st)
    | inr e => mkScanLoop (accFonts st) (accErrors st ++ [e])
                 (accProcessed st) (accFailed st + 1)
    end.
Proof.
  unfold batchFile, fileOutcome. rewrite readFontMetadataAsync_sync.
  destruct (readFontMetadataSync h file) as [metadata|]; [|reflexivity].
  destruct (opt_truthy (name metadata)); reflexivity.
Qed.

Lemma batch_outcomes (batch : list jsstring) (st : ScanLoop) :
  fold_left collectBatchResult (map (batchFile h) batch) st
  = mkScanLoop (accFonts st ++ entriesOf h batch)
      (accErrors st ++ errorsOf h batch)
      (accProcessed st)
      (accFailed st + arrayLength (errorsOf h batch)).
Proof.
  revert st; induction batch as [|file batch IH]; intros st.
  - destruct st. simpl. unfold arrayLength. simpl.
    rewrite !app_nil_r, !Z.add_0_r. reflexivity.
  - cbn [map fold_left]. rewrite IH, batchFile_outcome.
    rewrite entriesOf_cons, errorsOf_cons.
    destruct (fileOutcome h file);
      cbn [accFonts accErrors accProcessed accFailed];
      rewrite ?arrayLength_cons, <- ?app_assoc; f_equal;
      try reflexivity; lia.
Qed.

(** One batch of the asynchronous scan leaves the accumulators as the
    synchronous file loop over the same files does. *)
Lemma batch_as_fileLoop (batch : list jsstring) (st : ScanLoop) :
  fold_left collectBatchResult (map (batchFile h) batch)
    (mkScanLoop (accFonts st) (accErrors st)
       (accProcessed st + arrayLength batch) (accFailed st))
  = fold_left (scanFile h) batch st.
Proof. rewrite batch_outcomes, fileLoop_outcomes. reflexivity. Qed.

(** The batch loop has fuel enough and processes every remaining file. *)
Lemma batchLoop_as_fileLoop (fontFiles : list jsstring) (fuel : nat) (i : Z)
  (st : ScanLoop) :
  0 <= i -> arrayLength fontFiles - i <= Z.of_nat fuel ->
  batchLoop h fontFiles fuel i st
  = fold_left (scanFile h) (skipn (Z.to_nat i) fontFiles) st.
Proof.
  revert i st; induction fuel as [|fuel IH]; intros i st Hi Hfuel;
    cbn [batchLoop].
  - rewrite skipn_all2; [reflexivity|]. unfold arrayLength in Hfuel. lia.
  - destruct (Z.ltb_spec i (arrayLength fontFiles)) as [Hlt|Hge].
    + rewrite batch_as_fileLoop. rewrite IH by (unfold batchSize; lia).
      rewrite <- fold_left_app. f_equal.
      unfold arraySlice, batchSize.
      replace (Z.to_nat (i + 50 - i)) with 50%nat by lia.
      replace (Z.to_nat (i + 50)) with (50 + Z.to_nat i)%nat by lia.
      rewrite <- skipn_skipn. apply firstn_skipn.
    + rewrite skipn_all2; [reflexivity|]. unfold arrayLength in Hge. lia.
Qed.

Lemma errorsOf_In (files : list jsstring) (err : FontError) :
  In err (errorsOf h files) ->
  exists file, In file files /\ err = parseError file.
Proof.
  unfold errorsOf. rewrite in_flat_map. intros [file [Hin Herr]].
  exists file. split; [exact Hin|].
  unfold fileOutcome in Herr.
  destruct (readFontMetadataSync h file) as [metadata|].
  - destruct (opt_truthy (name metadata)); simpl in Herr; [tauto|].
    destruct Herr as [<- | []]. reflexivity.
  - simpl in Herr. destruct Herr as [<- | []]. reflexivity.
Qed.

Lemma errorsOf_ioFailure (files : list jsstring) (file : jsstring)
  (e : IOError) :
  In file files -> ioFailure h file = Some e ->
  In (parseError file) (errorsOf h files).
Proof.
  intros Hin Hio. unfold errorsOf. rewrite in_flat_map.
  exists file. split; [exact Hin|].
  assert (Hnull : readFontMetadataSync h file = None).
  { apply readFontMetadataSync_entry_iff_io. congruence. }
  unfold fileOutcome. rewrite Hnull. left. reflexivity.
Qed.

Lemma fileOutcome_paths (file : jsstring) :
  (forall f, fileOutcome h file = inl f ->
             path f = Some file /\ opt_truthy (name f) = true) /\
  (forall e, fileOutcome h file = inr e -> errorPath e = file).
Proof.
  unfold fileOutcome, readFontMetadataSync. split.
  - intros f.
    destruct (statSync h file) as [|stats]; [discriminate|].
    destruct (readFileSync h file) as [|buffer]; [discriminate|].
    destruct (opt_truthy (name (synthesize file stats buffer))) eqn:Hn;
      [|discriminate].
    intros H; injection H as <-. split; [apply synthesize_path | exact Hn].
  - intros e.
    destruct (statSync h file) as [|stats];
      [intros H; injection H as <-; reflexivity|].
    destruct (readFileSync h file) as [|buffer];
      [intros H; injection H as <-; reflexivity|].
    destruct (opt_truthy _); [discriminate|].
    intros H; injection H as <-; reflexivity.
Qed.

(** Every entry a scan pushes has a non-empty name. *)
Lemma entriesOf_named (files : list jsstring) (f : FontEntry) :
  In f (entriesOf h files) -> opt_truthy (name f) = true.
Proof.
  unfold entriesOf. rewrite in_flat_map. intros [file [_ Hf]].
  destruct (fileOutcome h file) as [f'|e] eqn:Ho; [|contradiction].
  destruct Hf as [<- | []].
  apply (proj1 (fileOutcome_paths file) f' Ho).
Qed.

End ScanLoop.

(** The closed form of a scan that is not served from the cache. *)
Lemma getAllFontsWithResultSync_fresh (h : Host) (clk : Clock)
  (options : FontScanOptions) (c : CacheState) :
  cacheLookup options c (now clk) = None ->
  let files := fst (candidateFiles h options) in
  getAllFontsWithResultSync h clk options c
  = (mkFontScanResult (entriesOf h files) (errorsOf h files)
       (mkScanStats (snd (candidateFiles h options)) (arrayLength files)
          (arrayLength (entriesOf h files)) (arrayLength (errorsOf h files))
          (endTime clk - startTime clk)),
     updateCache options (entriesOf h files) (now clk) c).
Proof.
  intros Hmiss files. unfold getAllFontsWithResultSync. rewrite Hmiss.
  subst files. destruct (candidateFiles h options) as [fontFiles dirs].
  rewrite fileLoop_outcomes. reflexivity.
Qed.

Lemma getAllFontsWithResultAsync_fresh (h : Host) (clk : Clock)
  (options : FontScanOptions) (c : CacheState) :
  cacheLookup options c (now clk) = None ->
  let files := fst (candidateFilesAsync h options) in
  getAllFontsWithResultAsync h clk options c
  = (mkFontScanResult (entriesOf h files) (errorsOf h files)
       (mkScanStats (snd (candidateFilesAsync h options)) (arrayLength files)
          (arrayLength (entriesOf h files)) (arrayLength (errorsOf h files))
          (endTime clk - startTime clk)),
     updateCache options (entriesOf h files) (now clk) c).
Proof.
  intros Hmiss files. unfold getAllFontsWithResultAsync. rewrite Hmiss.
  subst files. destruct (candidateFilesAsync h options) as [fontFiles dirs].
  rewrite batchLoop_as_fileLoop by (unfold arrayLength; lia).
  cbn [Z.to_nat skipn]. rewrite fileLoop_outcomes. reflexivity.
Qed.

Lemma scan_cached (h : Host) (clk : Clock) (options : FontScanOptions)
  (c : CacheState) (cached : list FontEntry) :
  cacheLookup options c (now clk) = Some cached ->
  getAllFontsWithResultSync h clk options c = (cachedResult cached clk, c) /\
  getAllFontsWithResultAsync h clk options c = (cachedResult cached clk, c).
Proof.
  intros Hhit. unfold getAllFontsWithResultSync, getAllFontsWithResultAsync.
  rewrite Hhit. split; reflexivity.
Qed.

(** ** The scans *)

(** C1.  In a scan that is not served from the cache, synchronous or
    asynchronous, every candidate file yields exactly one outcome, a font
    entry or an error, carrying the candidate's path; the fonts and the
    errors of the result are these outcomes, so their lengths add up to
    the number of candidates and
    [fontsFound + filesFailed = filesProcessed].  A scan served from the
    cache reports [fontsFound = filesProcessed], [filesFailed = 0] and
    [directoriesScanned = 0]. *)
Theorem scan_accounts_for_every_candidate (h : Host) (clk : Clock)
  (options : FontScanOptions) (c : CacheState) :
  (cacheLookup options c (now clk) = None ->
   accountsFor h (fst (candidateFiles h options))
     (fst (getAllFontsWithResultSync h clk options c)) /\
   accountsFor h (fst (candidateFilesAsync h options))
     (fst (getAllFontsWithResultAsync h clk options c))) /\
  (forall file,
     match fileOutcome h file with
     | inl f => path f = Some file
     | inr e => errorPath e = file
     end) /\
  (forall cached,
     cacheLookup options c (now clk) = Some cached ->
     servedFromCache cached (fst (getAllFontsWithResultSync h clk options c)) /\
     servedFromCache cached
       (fst (getAllFontsWithResultAsync h clk options c))).
Proof.
  split; [|split].
  - intros Hmiss.
    rewrite (getAllFontsWithResultSync_fresh h clk options c Hmiss).
    rewrite (getAllFontsWithResultAsync_fresh h clk options c Hmiss).
    unfold accountsFor. cbn [fst fonts errors stats filesProcessed fontsFound
                               filesFailed].
    split; (split; [reflexivity|]; split; [reflexivity|]);
      (split; [apply outcomes_partition|]; split; [reflexivity|]);
      apply outcomes_partition.
  - intros file. destruct (fileOutcome_paths h file) as [Hl Hr].
    destruct (fileOutcome h file) as [f|e] eqn:Ho.
    + apply (Hl f eq_refl).
    + apply (Hr e eq_refl).
  - intros cached Hhit.
    destruct (scan_cached h clk options c cached Hhit) as [-> ->].
    unfold servedFromCache, cachedResult. simpl. tauto.
Qed.

(** The demo filesystem, scanned without the cache. *)
Lemma scan_accounts_for_every_candidate_witness :
  accountsFor demoHost demoFiles
    (fst (getAllFontsWithResultSync demoHost demoClock noCacheOptions
            initialCache)) /\
  accountsFor demoHost demoFiles
    (fst (getAllFontsWithResultAsync demoHost demoClock noCacheOptions
            initialCache)).
Proof.
  apply (proj1 (scan_accounts_for_every_candidate demoHost demoClock
                  noCacheOptions initialCache)).
  vm_compute. reflexivity.
Defined.

(** C6, counterexample.  The missing file of the demo filesystem fails
    with [ENOENT]; the scan records it with code [PARSE_ERROR]. *)
Lemma missing_file_is_a_parse_error :
  ~ filesystemCodeReported demoHost demoClock noCacheOptions initialCache.
Proof.
  intros Hclaim.
  destruct (Hclaim (lit "/fonts/missing.ttf") ENOENT) as [err [Hin [_ Hcode]]].
  - vm_compute. tauto.
  - vm_compute. reflexivity.
  - rewrite getAllFontsWithResultSync_fresh in Hin by reflexivity.
    cbn [fst errors] in Hin. apply errorsOf_In in Hin as [file [_ ->]].
    simpl in Hcode. destruct Hcode as [H | [H | H]]; discriminate H.
Qed.

(** C6, amended.  In a scan that is not served from the cache, a
    candidate whose [stat] or read fails, whatever the kind of failure,
    is recorded as the error
    [{path, message: 'Failed to extract font metadata', code: 'PARSE_ERROR'}];
    every error of the result has the code [PARSE_ERROR]. *)
Theorem filesystem_failure_is_parse_error (h : Host) (clk : Clock)
  (options : FontScanOptions) (c : CacheState) :
  cacheLookup options c (now clk) = None ->
  (forall file e,
     ioFailure h file = Some e ->
     (In file (fst (candidateFiles h options)) ->
      In (parseError file)
        (errors (fst (getAllFontsWithResultSync h clk options c)))) /\
     (In file (fst (candidateFilesAsync h options)) ->
      In (parseError file)
        (errors (fst (getAllFontsWithResultAsync h clk options c))))) /\
  (forall err,
     In err (errors (fst (getAllFontsWithResultSync h clk options c))) \/
     In err (errors (fst (getAllFontsWithResultAsync h clk options c))) ->
     code err = PARSE_ERROR /\
     message err = lit "Failed to extract font metadata").
Proof.
  intros Hmiss.
  rewrite (getAllFontsWithResultSync_fresh h clk options c Hmiss).
  rewrite (getAllFontsWithResultAsync_fresh h clk options c Hmiss).
  cbn [fst errors]. split.
  - intros file e Hio.
    split; intros Hin; eapply errorsOf_ioFailure; eassumption.
  - intros err [Hin | Hin]; apply errorsOf_In in Hin as [file [_ ->]];
      split; reflexivity.
Qed.

(** The missing and the unreadable file of the demo filesystem. *)
Lemma filesystem_failure_is_parse_error_witness :
  cacheLookup noCacheOptions initialCache (now demoClock) = None /\
  In (parseError (lit "/fonts/missing.ttf"))
    (errors (fst (getAllFontsWithResultSync demoHost demoClock noCacheOptions
                    initialCache))) /\
  In (parseError (lit "/fonts/locked.otf"))
    (errors (fst (getAllFontsWithResultAsync demoHost demoClock noCacheOptions
                    initialCache))).
Proof.
  assert (Hmiss : cacheLookup noCacheOptions initialCache (now demoClock)
                  = None) by reflexivity.
  pose proof (filesystem_failure_is_parse_error demoHost demoClock
                noCacheOptions initialCache Hmiss) as [Hio _].
  split; [exact Hmiss|]. split.
  - apply (proj1 (Hio (lit "/fonts/missing.ttf") ENOENT eq_refl)).
    vm_compute. tauto.
  - apply (proj2 (Hio (lit "/fonts/locked.otf") EACCES eq_refl)).
    vm_compute. tauto.
Defined.

(** ** The cache *)

Lemma cacheAfterStore_stored (stored : list FontEntry) (clk : Clock) :
  cacheAfterStore stored clk (mkCacheState (Some stored) (now clk)).
Proof.
  unfold cacheAfterStore. cbn [fontCache cacheTimestamp].
  split; [reflexivity|]. split; [reflexivity|]. split; [reflexivity|].
  split; [|split; [|split; [|split]]].
  - intros t Ht.
    assert (Hlt : (t - now clk <? CACHE_DURATION) = true)
      by (apply Z.ltb_lt; exact Ht).
    split; [exact Hlt|].
    intros h' clk' options' Hnow Hen.
    assert (Hhit : cacheLookup options'
                     (mkCacheState (Some stored) (now clk)) (now clk')
                   = Some stored).
    { unfold cacheLookup. rewrite Hen, Hnow. cbn [fontCache cacheTimestamp].
      rewrite Hlt. reflexivity. }
    destruct (scan_cached h' clk' options' _ stored Hhit) as [-> ->].
    repeat split.
  - intros t Ht.
    assert (Hge : (t - now clk <? CACHE_DURATION) = false)
      by (apply Z.ltb_ge; exact Ht).
    split; [exact Hge|].
    intros options'. unfold cacheLookup. cbn [fontCache cacheTimestamp].
    rewrite Hge. destruct (useCacheEnabled options'); reflexivity.
  - unfold isCacheValid. cbn [fontCache cacheTimestamp]. apply Z.ltb_lt.
  - intros t. split; [reflexivity|].
    intros options'. unfold cacheLookup.
    destruct (useCacheEnabled options'); reflexivity.
  - reflexivity.
Qed.

(** C8, counterexample.  A first caching scan of the demo filesystem
    that returns 300 seconds after it read [now]: it stores its two
    fonts, and at its own last clock reading the cache is already
    invalid. *)
Lemma slow_scan_leaves_expired_cache :
  ~ validRightAfterStore demoHost slowClock defaultOptions initialCache.
Proof.
  intros Hclaim.
  assert (Hvalid : isCacheValid (endTime slowClock)
                     (snd (getAllFontsWithResultSync demoHost slowClock
                             defaultOptions initialCache)) = true).
  { apply Hclaim; [simpl; lia | reflexivity | reflexivity]. }
  vm_compute in Hvalid. discriminate Hvalid.
Qed.

(** C8, amended.  A caching scan that is not served from the cache
    stores its font list [X] with the timestamp [now] it read at its
    start; [getCachedFontCount()] is then the length of [X]; while less
    than [CACHE_DURATION] = 300000 ms have elapsed since that timestamp
    the cache is valid and a caching scan returns [X]; once the elapsed
    time reaches the TTL the cache is invalid, which is the case right
    after the store exactly when the scan itself took the TTL or more;
    after [clearFontCache()] the cache is invalid and the count is 0. *)
Theorem cache_round_trip_from_timestamp (h : Host) (clk : Clock)
  (options : FontScanOptions) (c : CacheState) :
  useCacheEnabled options = true ->
  cacheLookup options c (now clk) = None ->
  CACHE_DURATION = 300000 /\
  cacheAfterStore
    (fonts (fst (getAllFontsWithResultSync h clk options c))) clk
    (snd (getAllFontsWithResultSync h clk options c)) /\
  cacheAfterStore
    (fonts (fst (getAllFontsWithResultAsync h clk options c))) clk
    (snd (getAllFontsWithResultAsync h clk options c)).
Proof.
  intros Hen Hmiss. split; [reflexivity|].
  rewrite (getAllFontsWithResultSync_fresh h clk options c Hmiss).
  rewrite (getAllFontsWithResultAsync_fresh h clk options c Hmiss).
  cbn [fst snd fonts]. unfold updateCache. rewrite Hen.
  split; apply cacheAfterStore_stored.
Qed.

(** A first caching scan of the demo filesystem, 40 ms long. *)
Lemma cache_round_trip_from_timestamp_witness :
  useCacheEnabled defaultOptions = true /\
  cacheLookup defaultOptions initialCache (now demoClock) = None /\
  cacheAfterStore
    (fonts (fst (getAllFontsWithResultSync demoHost demoClock defaultOptions
                   initialCache))) demoClock
    (snd (getAllFontsWithResultSync demoHost demoClock defaultOptions
            initialCache)).
Proof.
  assert (Hen : useCacheEnabled defaultOptions = true) by reflexivity.
  assert (Hmiss : cacheLookup defaultOptions initialCache (now demoClock)
                  = None) by reflexivity.
  split; [exact Hen|]. split; [exact Hmiss|].
  exact (proj1 (proj2 (cache_round_trip_from_timestamp demoHost demoClock
                         defaultOptions initialCache Hen Hmiss))).
Defined.

(** ** The chainable scanner *)

Lemma arrayLength_filter {A} (p : A -> bool) (l : list A) :
  arrayLength (filter p l) <= arrayLength l.
Proof.
  unfold arrayLength. induction l as [|x l IH]; simpl; [lia|].
  destruct (p x); simpl; lia.
Qed.

Lemma applyFilters_length (this : FontScanner) (l : list FontEntry) :
  arrayLength (_applyFilters this l) <= arrayLength l.
Proof.
  unfold _applyFilters.
  set (l1 := match filterFormat (_filters this) with
             | Some f => if truthy f then filter (formatMatches f) l else l
             | None => l
             end).
  assert (H1 : arrayLength l1 <= arrayLength l).
  { subst l1. destruct (filterFormat (_filters this)) as [f|]; [|lia].
    destruct (truthy f); [apply arrayLength_filter | lia]. }
  set (l2 := match filterWeight (_filters this) with
             | Some w => filter (weightMatches w) l1
             | None => l1
             end).
  assert (H2 : arrayLength l2 <= arrayLength l1).
  { subst l2. destruct (filterWeight (_filters this)) as [w|]; [|lia].
    apply arrayLength_filter. }
  set (l3 := match monospaceOnly (_filters this) with
             | Some true => filter isMonospaceTrue l2
             | _ => l2
             end).
  assert (H3 : arrayLength l3 <= arrayLength l2).
  { subst l3. destruct (monospaceOnly (_filters this)) as [[|]|]; try lia.
    apply arrayLength_filter. }
  destruct (nameSearch (_filters this)) as [ns|]; [|lia].
  destruct (exact ns);
    match goal with
    | |- arrayLength (filter ?p ?x) <= _ =>
        pose proof (arrayLength_filter p x)
    end; lia.
Qed.

Lemma scan_fontsFound (h : Host) (clk : Clock) (options : FontScanOptions)
  (c : CacheState) :
  fontsFound (stats (fst (getAllFontsWithResultSync h clk options c)))
  = arrayLength (fonts (fst (getAllFontsWithResultSync h clk options c))).
Proof.
  destruct (cacheLookup options c (now clk)) as [cached|] eqn:Hc.
  - destruct (scan_cached h clk options c cached Hc) as [-> _]. reflexivity.
  - rewrite (getAllFontsWithResultSync_fresh h clk options c Hc). reflexivity.
Qed.

(** C9.  [getResult()] replaces the font list of the scan result by its
    filtered list and nothing else: the errors, all five counters and
    the cache are those of the unfiltered scan with the same options.
    The filtered list is never longer than [stats.fontsFound] says, and
    it can be strictly shorter. *)
Theorem getResult_filters_fonts_only :
  (forall (h : Host) (clk : Clock) (this : FontScanner) (c : CacheState),
     let unfiltered := getAllFontsWithResultSync h clk (_options this) c in
     let filtered := getResult h clk this c in
     fonts (fst filtered) = _applyFilters this (fonts (fst unfiltered)) /\
     errors (fst filtered) = errors (fst unfiltered) /\
     stats (fst filtered) = stats (fst unfiltered) /\
     snd filtered = snd unfiltered /\
     arrayLength (fonts (fst filtered)) <= fontsFound (stats (fst filtered))) /\
  (exists (h : Host) (clk : Clock) (this : FontScanner) (c : CacheState),
     arrayLength (fonts (fst (getResult h clk this c)))
     < fontsFound (stats (fst (getResult h clk this c)))).
Proof.
  split.
  - intros h clk this c unfiltered filtered.
    assert (Hf : filtered
                 = (mkFontScanResult
                      (_applyFilters this (fonts (fst unfiltered)))
                      (errors (fst unfiltered)) (stats (fst unfiltered)),
                    snd unfiltered)).
    { subst filtered unfiltered. unfold getResult.
      destruct (getAllFontsWithResultSync h clk (_options this) c).
      reflexivity. }
    rewrite Hf. cbn [fst snd fonts errors stats].
    repeat (split; [reflexivity|]).
    subst unfiltered. rewrite scan_fontsFound. apply applyFilters_length.
  - exists demoHost, demoClock,
      (filterByWeight 700 (scan noCacheOptions)), initialCache.
    vm_compute. reflexivity.
Qed.

(** * Further properties of the code *)

(** ** UTF-16BE decoding *)

Lemma lor_shiftl_byte (a b : Z) :
  0 <= a -> 0 <= b < 256 -> Z.lor (Z.shiftl a 8) b = a * 256 + b.
Proof.
  intros Ha Hb.
  assert (Hdisjoint : Z.land (Z.shiftl a 8) b = 0).
  { apply Z.bits_inj'. intros n Hn. rewrite Z.land_spec, Z.bits_0.
    destruct (Z.lt_ge_cases n 8) as [Hlow|Hhigh].
    - rewrite Z.shiftl_spec_low by lia. reflexivity.
    - rewrite (Z.bits_above_log2 b n); [apply andb_false_r | lia |].
      destruct (Z.eq_dec b 0) as [->|Hnz]; [simpl; lia|].
      apply Z.log2_lt_pow2; [lia|].
      assert (2 ^ 8 <= 2 ^ n) by (apply Z.pow_le_mono_r; lia). lia. }
  rewrite <- Z.lxor_lor by exact Hdisjoint.
  rewrite <- Z.add_nocarry_lxor by exact Hdisjoint.
  rewrite Z.shiftl_mul_pow2 by lia. reflexivity.
Qed.

Lemma charCode_range (byte1 byte2 : Byte.byte) :
  0 <= Z.lor (Z.shiftl (Buf.u8 byte1) 8) (Buf.u8 byte2) < 65536.
Proof.
  pose proof (u8_range byte1). pose proof (u8_range byte2).
  rewrite lor_shiftl_byte by lia. lia.
Qed.

Lemma u8_ofList_head (z : Z) (l : list Z) :
  0 <= z < 256 ->
  exists b, Buf.ofList (z :: l) = b :: Buf.ofList l /\ Buf.u8 b = z.
Proof.
  intros Hz. unfold Buf.ofList. cbn [map].
  destruct (Byte.of_N (Z.to_N z)) as [b|] eqn:Hb.
  - exists b. split; [reflexivity|].
    unfold Buf.u8. apply Byte.to_of_N in Hb. rewrite Hb. lia.
  - apply Byte.of_N_None_iff in Hb. lia.
Qed.

(** Buffers are examined two bytes at a time. *)
Lemma buffer_pairs_ind (P : Buffer -> Prop) :
  P [] -> (forall b, P [b]) ->
  (forall b1 b2 rest, P rest -> P (b1 :: b2 :: rest)) ->
  forall buffer, P buffer.
Proof.
  intros Hnil Hone Hstep.
  assert (H : forall n buffer, (List.length buffer <= n)%nat -> P buffer).
  { induction n as [|n IH]; intros [|b1 [|b2 rest]] Hlen; simpl in Hlen;
      try apply Hnil; try apply Hone; try lia.
    apply Hstep. apply IH. lia. }
  intros buffer. apply (H (List.length buffer)). lia.
Qed.

(** X1.  Decoding the UTF-16BE bytes of a string whose code units are
    all non-zero gives the string back. *)
Theorem decodeUtf16BE_round_trip (s : jsstring) :
  Forall (fun c => 0 < c < 65536) s ->
  decodeUtf16BE (encodeUtf16BE s) = s.
Proof.
  induction 1 as [|c s Hc Hs IH]; [reflexivity|].
  unfold encodeUtf16BE in *. cbn [flat_map app].
  destruct (u8_ofList_head (c / 256)
              (c mod 256 :: flat_map (fun c => [c / 256; c mod 256]) s))
    as [b1 [-> Hb1]].
  { split; [apply Z.div_pos; lia | apply Z.div_lt_upper_bound; lia]. }
  destruct (u8_ofList_head (c mod 256)
              (flat_map (fun c => [c / 256; c mod 256]) s))
    as [b2 [-> Hb2]].
  { apply Z.mod_pos_bound. lia. }
  cbn [decodeUtf16BE]. rewrite Hb1, Hb2.
  rewrite lor_shiftl_byte;
    [| apply Z.div_pos; lia | apply Z.mod_pos_bound; lia].
  replace (c / 256 * 256 + c mod 256) with c
    by (rewrite (Z.div_mod c 256) at 1; lia).
  destruct (Z.eqb_spec c 0); [lia|].
  rewrite IH. reflexivity.
Qed.

(** "Arial": five code units, ten bytes. *)
Lemma decodeUtf16BE_round_trip_witness :
  Forall (fun c => 0 < c < 65536) (lit "Arial") /\
  decodeUtf16BE (encodeUtf16BE (lit "Arial")) = lit "Arial".
Proof.
  assert (H : Forall (fun c => 0 < c < 65536) (lit "Arial"))
    by (repeat constructor).
  split; [exact H | exact (decodeUtf16BE_round_trip (lit "Arial") H)].
Defined.

(** X2.  Whatever the bytes, [decodeUtf16BE] returns non-zero 16-bit
    code units, at most one per two bytes; it never returns a NUL, so
    the [replace(/\0/g, '')] applied to its result changes nothing. *)
Theorem decodeUtf16BE_no_nul (buffer : Buffer) :
  Forall (fun c => 0 < c < 65536) (decodeUtf16BE buffer) /\
  2 * strlen (decodeUtf16BE buffer) <= Buf.length buffer /\
  stripNul (decodeUtf16BE buffer) = decodeUtf16BE buffer.
Proof.
  unfold strlen, Buf.length.
  induction buffer as [| b | b1 b2 rest [IHr [IHl IHs]]] using buffer_pairs_ind.
  - split; [constructor | split; [simpl; lia | reflexivity]].
  - split; [constructor | split; [simpl; lia | reflexivity]].
  - cbn [decodeUtf16BE].
    pose proof (charCode_range b1 b2) as Hrange.
    destruct (Z.eqb_spec (Z.lor (Z.shiftl (Buf.u8 b1) 8) (Buf.u8 b2)) 0)
      as [Hz|Hnz]; cbn [app].
    + split; [exact IHr|]. split; [simpl List.length; lia | exact IHs].
    + split; [constructor; [lia | exact IHr]|].
      split; [simpl List.length; lia|].
      unfold stripNul in *. cbn [filter].
      destruct (Z.eqb_spec (Z.lor (Z.shiftl (Buf.u8 b1) 8) (Buf.u8 b2)) 0);
        [contradiction|]. cbn [negb]. rewrite IHs. reflexivity.
Qed.

(** ** What each decoder writes *)

Section DecoderFields.

Variable buffer : Buffer.

Lemma stringFields_os2Selection (offset : Z) (result result' : FontEntry) :
  os2Selection buffer offset result = Some result' ->
  stringFields result' = stringFields result /\
  weight result' = weight result.
Proof.
  unfold os2Selection.
  destruct (offset + 64 <=? Buf.length buffer).
  - destruct (Buf.readUInt16BE buffer (offset + 62)); [|discriminate].
    destruct (negb _); intros H; injection H as <-; split; reflexivity.
  - intros H; injection H as <-. split; reflexivity.
Qed.

Lemma os2Panose_keeps (offset : Z) (result : FontEntry) :
  stringFields (os2Panose buffer offset result) = stringFields result /\
  weight (os2Panose buffer offset result) = weight result /\
  style (os2Panose buffer offset result) = style result.
Proof.
  unfold os2Panose.
  destruct (offset + 42 <=? Buf.length buffer); [|repeat split].
  destruct (Buf.at_ _ 3) as [b|]; [|repeat split].
  destruct (b =? 9); repeat split.
Qed.

Lemma stringFields_parseOS2Table (offset len : Z) :
  stringFields (parseOS2Table buffer offset len) = (None, None, None, None).
Proof.
  unfold parseOS2Table.
  destruct (offset + 8 >? Buf.length buffer); [reflexivity|].
  destruct (Buf.readUInt16BE buffer (offset + 4)) as [w|]; [|reflexivity].
  destruct (os2Selection buffer offset (setWeight w emptyEntry))
    as [r|] eqn:Hr; [|reflexivity].
  rewrite (proj1 (os2Panose_keeps offset r)).
  rewrite (proj1 (stringFields_os2Selection _ _ _ Hr)). reflexivity.
Qed.

Lemma parsePostTable_fields (offset len : Z) :
  stringFields (parsePostTable buffer offset len) = (None, None, None, None) /\
  weight (parsePostTable buffer offset len) = None /\
  style (parsePostTable buffer offset len) = None.
Proof.
  unfold parsePostTable.
  destruct (offset + 32 >? Buf.length buffer); [repeat split|].
  destruct (Buf.readUInt32BE buffer (offset + 12)) as [v|]; [|repeat split].
  destruct (negb (v =? 0)); repeat split.
Qed.

Lemma getField_stringFields (f : Field) (m : FontEntry) :
  stringFields m = (None, None, None, None) -> isNameField f = true ->
  getField f m = None.
Proof.
  unfold stringFields. intros H Hf. injection H as Hn Hfa Hv Hc.
  destruct f; try discriminate; simpl; rewrite ?Hn, ?Hfa, ?Hv, ?Hc;
    reflexivity.
Qed.

Lemma os2Selection_style (offset : Z) (result result' : FontEntry) :
  os2Selection buffer offset result = Some result' ->
  style result <> Some oblique -> style result' <> Some oblique.
Proof.
  unfold os2Selection.
  destruct (offset + 64 <=? Buf.length buffer).
  - destruct (Buf.readUInt16BE buffer (offset + 62)); [|discriminate].
    destruct (negb _); intros H; injection H as <-; simpl; discriminate.
  - intros H; injection H as <-. tauto.
Qed.

(** X3.  Each table decoder writes its own properties and nothing
    else: the name table only [name], [family], [version] and
    [copyright]; the OS/2 table never a string property, and never the
    style [oblique]; the post table nothing but [isMonospace]; none of
    them [path], [format], [fileSize] or [lastModified]. *)
Theorem decoders_write_their_own_fields (offset len : Z) :
  (forall f, isNameField f = false ->
             getField f (parseNameTable buffer offset len) = None) /\
  (forall f, isNameField f = true ->
             getField f (parseOS2Table buffer offset len) = None) /\
  style (parseOS2Table buffer offset len) <> Some oblique /\
  (forall f, f <> FIsMonospace ->
             getField f (parsePostTable buffer offset len) = None) /\
  hostFields (parseNameTable buffer offset len) = (None, None, None, None) /\
  hostFields (parseOS2Table buffer offset len) = (None, None, None, None) /\
  hostFields (parsePostTable buffer offset len) = (None, None, None, None).
Proof.
  split; [|split; [|split; [|split; [|split; [|split]]]]].
  - intros f Hf. apply parseNameTable_other. exact Hf.
  - intros f Hf. apply getField_stringFields; [|exact Hf].
    apply stringFields_parseOS2Table.
  - unfold parseOS2Table.
    destruct (offset + 8 >? Buf.length buffer); [simpl; discriminate|].
    destruct (Buf.readUInt16BE buffer (offset + 4)) as [w|];
      [|simpl; discriminate].
    destruct (os2Selection buffer offset (setWeight w emptyEntry))
      as [r|] eqn:Hr; [|simpl; discriminate].
    rewrite (proj2 (proj2 (os2Panose_keeps offset r))).
    eapply os2Selection_style; [exact Hr | simpl; discriminate].
  - intros f Hf. destruct (parsePostTable_fields offset len) as [Hs [Hw Hst]].
    destruct (isNameField f) eqn:Hn;
      [apply getField_stringFields; assumption|].
    destruct f; try discriminate; simpl; rewrite ?Hw, ?Hst;
      [reflexivity | reflexivity | contradiction Hf; reflexivity].
  - apply hostFields_parseNameTable.
  - apply hostFields_parseOS2Table.
  - apply hostFields_parsePostTable.
Qed.

(** X4.  For a table offset inside the file, the OS/2 decoder yields
    nothing when fewer than 8 bytes follow the offset; otherwise
    [weight] is the big-endian 16-bit value at offset 4, whatever it is
    (no clamp to 100..900), and [style] is absent when fewer than 64
    bytes follow, else [italic] when bit 0 of fsSelection (offset 62) is
    set and [normal] when it is clear. *)
Theorem parseOS2Table_weight_style (offset len : Z) :
  0 <= offset ->
  (Buf.length buffer < offset + 8 ->
   parseOS2Table buffer offset len = emptyEntry) /\
  (offset + 8 <= Buf.length buffer ->
   exists w,
     Buf.readUInt16BE buffer (offset + 4) = Some w /\ 0 <= w < 65536 /\
     weight (parseOS2Table buffer offset len) = Some w) /\
  (Buf.length buffer < offset + 64 ->
   style (parseOS2Table buffer offset len) = None) /\
  (offset + 64 <= Buf.length buffer ->
   exists fsSelection,
     Buf.readUInt16BE buffer (offset + 62) = Some fsSelection /\
     style (parseOS2Table buffer offset len)
     = Some (if Z.odd fsSelection then italic else normal)).
Proof.
  intros Ho. unfold parseOS2Table.
  destruct (Z.gtb_spec (offset + 8) (Buf.length buffer)) as [Hshort|Hfit].
  - split; [reflexivity|]. split; [lia|]. split; [reflexivity | lia].
  - split; [lia|].
    destruct (readUInt16BE_in_bounds buffer (offset + 4)) as [w [Hw Hwr]];
      [lia | lia |].
    rewrite Hw.
    destruct (os2Selection_in_bounds buffer offset (setWeight w emptyEntry) Ho)
      as [r Hr].
    rewrite Hr.
    destruct (os2Panose_keeps offset r) as [_ [-> ->]].
    split; [|split].
    + intros _. exists w. split; [reflexivity|]. split; [exact Hwr|].
      apply (stringFields_os2Selection _ _ _ Hr).
    + intros Hno. unfold os2Selection in Hr.
      destruct (Z.leb_spec (offset + 64) (Buf.length buffer)); [lia|].
      injection Hr as <-. reflexivity.
    + intros Hyes. unfold os2Selection in Hr.
      destruct (Z.leb_spec (offset + 64) (Buf.length buffer)); [|lia].
      destruct (readUInt16BE_in_bounds buffer (offset + 62)) as [fs [Hfs _]];
        [lia | lia |].
      rewrite Hfs in Hr. exists fs. split; [exact Hfs|].
      assert (Hbit : Z.land fs 1 = if Z.odd fs then 1 else 0).
      { change 1 with (Z.ones 1) at 1. rewrite Z.land_ones by lia.
        change (2 ^ 1) with 2. apply Zmod_odd. }
      rewrite Hbit in Hr.
      destruct (Z.odd fs); simpl in Hr; injection Hr as <-; reflexivity.
Qed.

End DecoderFields.

(** An OS/2 table of weight 700 at offset 52 of the font with two OS/2
    entries. *)
Lemma parseOS2Table_weight_style_witness :
  0 <= 52 /\
  exists w,
    Buf.readUInt16BE twoOS2Font (52 + 4) = Some w /\ 0 <= w < 65536 /\
    weight (parseOS2Table twoOS2Font 52 8) = Some w.
Proof.
  assert (H0 : 0 <= 52) by lia.
  split; [exact H0|].
  apply (proj1 (proj2 (parseOS2Table_weight_style twoOS2Font 52 8 H0))).
  vm_compute. discriminate.
Defined.

(** ** The strings of the name table *)

Lemma trimStart_head (s : jsstring) (c : Z) :
  hd_error (trimStart s) = Some c -> isWhiteSpace c = false.
Proof.
  induction s as [|x s IH]; cbn [trimStart]; [discriminate|].
  destruct (isWhiteSpace x) eqn:Hx; [exact IH|].
  simpl. intros H; injection H as <-. exact Hx.
Qed.

Lemma trimStart_snoc (l : jsstring) (h : Z) :
  isWhiteSpace h = false -> trimStart (l ++ [h]) = trimStart l ++ [h].
Proof.
  intros Hh. induction l as [|x l IH]; cbn [trimStart app].
  - rewrite Hh. reflexivity.
  - destruct (isWhiteSpace x); [exact IH | reflexivity].
Qed.

Lemma trimStart_In (s : jsstring) (c : Z) : In c (trimStart s) -> In c s.
Proof.
  induction s as [|x s IH]; cbn [trimStart]; [tauto|].
  destruct (isWhiteSpace x); [intros H; right; apply IH; exact H | tauto].
Qed.

Lemma trimEnd_In (s : jsstring) (c : Z) : In c (trimEnd s) -> In c s.
Proof.
  unfold trimEnd. intros H. apply in_rev in H. apply trimStart_In in H.
  apply in_rev. exact H.
Qed.

Lemma trim_ends (s : jsstring) (c : Z) :
  (hd_error (trim s) = Some c -> isWhiteSpace c = false) /\
  (hd_error (rev (trim s)) = Some c -> isWhiteSpace c = false).
Proof.
  unfold trim, trimEnd. split.
  - destruct (trimStart s) as [|h t] eqn:Ht; [discriminate|].
    assert (Hh : isWhiteSpace h = false)
      by (apply (trimStart_head s); rewrite Ht; reflexivity).
    cbn [rev]. rewrite trimStart_snoc by exact Hh.
    rewrite rev_app_distr. simpl. intros H; injection H as <-. exact Hh.
  - rewrite rev_involutive. apply trimStart_head.
Qed.

Lemma nameStr_clean (nameBuf : Buffer) :
  truthy (trim (stripNul (decodeUtf16BE nameBuf))) = true ->
  cleanString (trim (stripNul (decodeUtf16BE nameBuf))).
Proof.
  intros Ht. unfold cleanString. split; [apply truthy_nonempty; exact Ht|].
  split.
  - intros Hin. unfold trim in Hin.
    apply trimEnd_In, trimStart_In in Hin. unfold stripNul in Hin.
    apply filter_In in Hin as [_ H]. discriminate H.
  - split; intros c; apply trim_ends.
Qed.

Lemma stringsClean_emptyEntry : stringsClean emptyEntry.
Proof. intros f s H. rewrite getField_emptyEntry in H. discriminate. Qed.

Lemma stringsClean_assignNameField (result : FontEntry) (nameID : Z)
  (nameStr : jsstring) :
  stringsClean result -> cleanString nameStr ->
  stringsClean (assignNameField result nameID nameStr).
Proof.
  intros Hr Hs f s.
  destruct (getField_assignNameField f result nameID nameStr) as [Hyes Hno].
  assert (Hdec : nameIDField nameID = Some f \/ nameIDField nameID <> Some f).
  { destruct (nameIDField nameID) as [g|]; [|right; discriminate].
    destruct f, g; (left; reflexivity) || (right; discriminate). }
  destruct Hdec as [Hf|Hf].
  - rewrite (Hyes Hf). intros H; injection H as <-. exact Hs.
  - rewrite (Hno Hf). apply Hr.
Qed.

Lemma stringsClean_assign (a b : FontEntry) :
  stringsClean a -> stringsClean b -> stringsClean (assign a b).
Proof.
  intros Ha Hb f s. rewrite getField_assign.
  destruct (getField f b) as [v|] eqn:Hfb; simpl; [|apply Ha].
  intros H. apply (Hb f). congruence.
Qed.

Lemma getField_VString (f : Field) (m : FontEntry) (s : jsstring) :
  getField f m = Some (VString s) -> isNameField f = true.
Proof.
  destruct f; simpl; try reflexivity;
    match goal with |- option_map _ ?x = _ -> _ => destruct x end;
    discriminate.
Qed.

Section CleanStrings.

Variable buffer : Buffer.

Lemma stringsClean_nameLoop (offset stringOffset : Z) (n : nat) (j : Z)
  (result : FontEntry) :
  stringsClean result ->
  stringsClean (nameLoop buffer offset stringOffset n j result).
Proof.
  revert j result; induction n as [|n IH]; intros j result Hr;
    cbn [nameLoop]; [exact Hr|].
  destruct (offset + 6 + j * 12 + 12 >? Buf.length buffer); [exact Hr|].
  unfold nameRecord.
  destruct (Buf.readUInt16BE buffer (offset + 6 + j * 12 + 6)) as [nameID|];
    [|exact Hr].
  destruct (Buf.readUInt16BE buffer (offset + 6 + j * 12 + 8)) as [len|];
    [|exact Hr].
  destruct (Buf.readUInt16BE buffer (offset + 6 + j * 12 + 10)) as [so|];
    [|exact Hr].
  destruct (stringOffset + so + len <=? Buf.length buffer);
    [|apply IH; exact Hr].
  destruct (truthy _) eqn:Ht; [|apply IH; exact Hr].
  apply IH. apply stringsClean_assignNameField; [exact Hr|].
  apply nameStr_clean. exact Ht.
Qed.

Lemma stringsClean_parseNameTable (offset len : Z) :
  stringsClean (parseNameTable buffer offset len).
Proof.
  unfold parseNameTable.
  destruct (offset + 6 >? Buf.length buffer);
    [apply stringsClean_emptyEntry|].
  destruct (Buf.readUInt16BE buffer (offset + 2));
    [|apply stringsClean_emptyEntry].
  destruct (Buf.readUInt16BE buffer (offset + 4));
    [|apply stringsClean_emptyEntry].
  apply stringsClean_nameLoop, stringsClean_emptyEntry.
Qed.

Lemma stringsClean_decodeEntry (i : Z) : stringsClean (decodeEntry buffer i).
Proof.
  unfold decodeEntry.
  destruct (Buf.readUInt32BE buffer (12 + i * 16 + 8)) as [off|];
    [|apply stringsClean_emptyEntry].
  destruct (Buf.readUInt32BE buffer (12 + i * 16 + 12)) as [len|];
    [|apply stringsClean_emptyEntry].
  destruct (str_eqb _ _); [apply stringsClean_parseNameTable|].
  destruct (str_eqb _ _).
  - intros f s H. pose proof (getField_VString _ _ _ H) as Hf.
    rewrite (getField_stringFields f _
               (stringFields_parseOS2Table buffer off len) Hf) in H.
    discriminate.
  - destruct (str_eqb _ _); [|apply stringsClean_emptyEntry].
    intros f s H. pose proof (getField_VString _ _ _ H) as Hf.
    rewrite (getField_stringFields f _
               (proj1 (parsePostTable_fields buffer off len)) Hf) in H.
    discriminate.
Qed.

Lemma stringsClean_mergeEntries (l : list Z) (m : FontEntry) :
  stringsClean m -> stringsClean (mergeEntries buffer l m).
Proof.
  revert m; induction l as [|k l IH]; intros m Hm; [exact Hm|].
  change (mergeEntries buffer (k :: l) m)
    with (mergeEntries buffer l (assign m (decodeEntry buffer k))).
  apply IH, stringsClean_assign; [exact Hm | apply stringsClean_decodeEntry].
Qed.

End CleanStrings.

(** X5.  Every string the decoders leave in the metadata of a font
    ([name], [family], [version], [copyright]) is non-empty, holds no
    NUL and neither starts nor ends with white space, whatever the
    bytes of the file. *)
Theorem decoded_strings_are_clean (buffer : Buffer) :
  (forall offset len, stringsClean (parseNameTable buffer offset len)) /\
  (forall md f s,
     parseTTFOTFFont buffer = Some md ->
     getField f md = Some (VString s) ->
     s <> [] /\ ~ In 0 s /\
     (forall c, hd_error s = Some c -> isWhiteSpace c = false) /\
     (forall c, hd_error (rev s) = Some c -> isWhiteSpace c = false)).
Proof.
  split; [apply stringsClean_parseNameTable|].
  intros md f s Hp Hf. apply parseTTFOTFFont_Some in Hp as [_ ->].
  apply (stringsClean_mergeEntries buffer (directoryEntries buffer) emptyEntry
           stringsClean_emptyEntry f s Hf).
Qed.

(** The table with "Arial" and a blank record, as the only table of a
    font. *)
Lemma decoded_strings_are_clean_witness :
  stringsClean (parseNameTable arialThenBlankTable 0 44) /\
  cleanString (lit "Arial").
Proof.
  pose proof (proj1 (decoded_strings_are_clean arialThenBlankTable) 0 44) as H.
  split; [exact H|].
  apply (H FName (lit "Arial")). vm_compute. reflexivity.
Defined.

(** ** The filename fallback *)

Lemma synthesize_without_name (fontPath : jsstring) (stats : FileStats)
  (buffer : Buffer) :
  ~ tablesYieldName fontPath buffer ->
  synthesize fontPath stats buffer = fallbackEntry fontPath stats.
Proof.
  intros Hno. unfold synthesize, tablesYieldName in *.
  destruct (arrayIncludes _ _) eqn:Hext; [|reflexivity].
  destruct (parseTTFOTFFont buffer) as [md|] eqn:Hp; [|reflexivity].
  destruct (opt_truthy (name md)) eqn:Hn; [|reflexivity].
  contradiction Hno. split; [reflexivity|]. exists md. tauto.
Qed.

Lemma decodeEntry_without_name_tag (buffer : Buffer) (i : Z) :
  entryTag buffer i <> lit "name" ->
  getField FName (decodeEntry buffer i) = None.
Proof.
  intros Htag. unfold decodeEntry.
  destruct (Buf.readUInt32BE buffer (12 + i * 16 + 8)) as [off|];
    [|reflexivity].
  destruct (Buf.readUInt32BE buffer (12 + i * 16 + 12)) as [len|];
    [|reflexivity].
  destruct (str_eqb (entryTag buffer i) (lit "name")) eqn:E;
    [apply str_eqb_eq in E; contradiction|].
  destruct (str_eqb (entryTag buffer i) (lit "OS/2")).
  - apply getField_stringFields;
      [apply stringFields_parseOS2Table | reflexivity].
  - destruct (str_eqb (entryTag buffer i) (lit "post")); [|reflexivity].
    apply getField_stringFields;
      [apply (parsePostTable_fields buffer off len) | reflexivity].
Qed.

(** X6.  When no directory entry that the parser visits is tagged
    [name], synthesis returns the filename fallback and nothing else:
    [name] and [family] are the fallback name, and whatever the OS/2 and
    post tables hold ([weight], [style], [isMonospace]) is dropped with
    the rest of the decoded metadata. *)
Theorem no_name_table_drops_decoded_fields (buffer : Buffer) :
  (forall i, In i (directoryEntries buffer) ->
             entryTag buffer i <> lit "name") ->
  forall fontPath stats,
    synthesize fontPath stats buffer = fallbackEntry fontPath stats.
Proof.
  intros Hno fontPath stats. apply synthesize_without_name.
  intros [_ [md [Hp Hn]]]. apply parseTTFOTFFont_Some in Hp as [_ ->].
  assert (Hnone : getField FName
                    (mergeEntries buffer (directoryEntries buffer) emptyEntry)
                  = None).
  { rewrite mergeEntries_untouched; [reflexivity|].
    intros k Hk. apply decodeEntry_without_name_tag, Hno, Hk. }
  simpl in Hnone.
  destruct (name (mergeEntries buffer (directoryEntries buffer) emptyEntry));
    [discriminate Hnone | discriminate Hn].
Qed.

(** The font with two OS/2 entries: its weight 700 is not in the entry. *)
Lemma no_name_table_drops_decoded_fields_witness :
  (forall i, In i (directoryEntries twoOS2Font) ->
             entryTag twoOS2Font i <> lit "name") /\
  synthesize (lit "/fonts/Bold.ttf") (mkFileStats 60 0) twoOS2Font
  = fallbackEntry (lit "/fonts/Bold.ttf") (mkFileStats 60 0).
Proof.
  assert (H : forall i, In i (directoryEntries twoOS2Font) ->
                        entryTag twoOS2Font i <> lit "name").
  { intros i Hi. vm_compute in Hi.
    destruct Hi as [<- | [<- | []]]; vm_compute; discriminate. }
  split; [exact H|].
  exact (no_name_table_drops_decoded_fields twoOS2Font H
           (lit "/fonts/Bold.ttf") (mkFileStats 60 0)).
Defined.

(** X7.  Whatever the bytes of the file, the entry synthesis returns
    takes its [path], [format], [fileSize] and [lastModified] from the
    filesystem: the path is the candidate path, the format its extension
    in lower case without the dot, the size and time those of [stat]. *)
Theorem readFontMetadataSync_filesystem_fields (h : Host)
  (fontPath : jsstring) (entry : FontEntry) :
  readFontMetadataSync h fontPath = Some entry \/
  readFontMetadataAsync h fontPath = Some entry ->
  path entry = Some fontPath /\
  format entry
  = Some (substring1 (toLowerCase (Path.extname fontPath))) /\
  exists stats,
    statSync h fontPath = inr stats /\
    fileSize entry = Some (size stats) /\
    lastModified entry = Some (mtime stats).
Proof.
  intros [H|H];
    unfold readFontMetadataSync, readFontMetadataAsync in H;
    (destruct (statSync h fontPath) as [|stats]; [discriminate|]);
    (destruct (readFileSync h fontPath) as [|buffer]; [discriminate|]);
    injection H as <-;
    pose proof (synthesize_hostFields fontPath stats buffer) as Hh;
    unfold hostFields in Hh; injection Hh as Hp Hf Hs Hm;
    (split; [exact Hp|]; split; [exact Hf|]; exists stats; tauto).
Qed.

(** The upper-case candidate of the demo filesystem. *)
Lemma readFontMetadataSync_filesystem_fields_witness :
  format (synthesize (lit "/fonts/ARIAL.TTF") (mkFileStats 12 1700000000000)
            (Buf.ofList (repeat 0 12)))
  = Some (substring1 (toLowerCase (Path.extname (lit "/fonts/ARIAL.TTF")))).
Proof.
  apply (readFontMetadataSync_filesystem_fields demoHost
           (lit "/fonts/ARIAL.TTF")).
  left. vm_compute. reflexivity.
Defined.

(** ** Candidates, cache and the two scans *)

Lemma collectDir_closed (h : Host) (dirs : list jsstring)
  (acc : list jsstring * Z) :
  fold_left (collectDir h) dirs acc
  = (fst acc ++ flat_map (walkDir h) (filter (existsSync h) dirs),
     snd acc + arrayLength (filter (existsSync h) dirs)).
Proof.
  revert acc; induction dirs as [|dir dirs IH]; intros [files n].
  - simpl. rewrite app_nil_r. f_equal. unfold arrayLength. simpl. lia.
  - cbn [fold_left filter]. rewrite IH. unfold collectDir.
    destruct (existsSync h dir); cbn [fst snd flat_map].
    + rewrite arrayLength_cons, <- app_assoc. f_equal. lia.
    + reflexivity.
Qed.

(** X8.  The candidate files of a scan are the files [walkDir] finds in
    the platform directories that exist, directory after directory in
    the order of the list, and [directoriesScanned] counts exactly the
    directories that exist: it lies between 0 and the number of
    directories. *)
Theorem candidates_come_from_existing_directories (h : Host) (clk : Clock)
  (options : FontScanOptions) (c : CacheState) :
  let dirs := getPlatformFontDirs h options in
  candidateFiles h options
  = (flat_map (walkDir h) (filter (existsSync h) dirs),
     arrayLength (filter (existsSync h) dirs)) /\
  0 <= snd (candidateFiles h options) <= arrayLength dirs /\
  (cacheLookup options c (now clk) = None ->
   directoriesScanned (stats (fst (getAllFontsWithResultSync h clk options c)))
   = arrayLength (filter (existsSync h) dirs)).
Proof.
  intros dirs.
  assert (Hc : candidateFiles h options
               = (flat_map (walkDir h) (filter (existsSync h) dirs),
                  arrayLength (filter (existsSync h) dirs))).
  { unfold candidateFiles. rewrite collectDir_closed. reflexivity. }
  split; [exact Hc|]. split.
  - rewrite Hc. cbn [snd].
    split; [apply arrayLength_nonneg | apply arrayLength_filter].
  - intros Hmiss.
    rewrite (getAllFontsWithResultSync_fresh h clk options c Hmiss), Hc.
    reflexivity.
Qed.

(** Of the two directories of the demo host only [/fonts] exists. *)
Lemma candidates_come_from_existing_directories_witness :
  directoriesScanned
    (stats (fst (getAllFontsWithResultSync demoHost demoClock noCacheOptions
                   initialCache)))
  = arrayLength (filter (existsSync demoHost)
                   (getPlatformFontDirs demoHost noCacheOptions)).
Proof.
  apply (proj2 (proj2 (candidates_come_from_existing_directories demoHost
                         demoClock noCacheOptions initialCache))).
  reflexivity.
Defined.

Lemma candidateFilesAsync_sync (h : Host) (options : FontScanOptions) :
  (forall dir, In dir (getPlatformFontDirs h options) ->
               access h dir = existsSync h dir) ->
  candidateFilesAsync h options = candidateFiles h options.
Proof.
  unfold candidateFilesAsync, candidateFiles.
  generalize (@nil jsstring, 0).
  induction (getPlatformFontDirs h options) as [|dir dirs IH];
    intros acc Hsame; [reflexivity|].
  cbn [fold_left]. unfold collectDirAsync at 2, collectDir at 2.
  rewrite (Hsame dir) by (left; reflexivity).
  apply IH. intros d Hd. apply Hsame. right. exact Hd.
Qed.

(** X9.  When [fs.promises.access] succeeds on exactly the platform
    directories that [fs.existsSync] reports, the asynchronous scan
    returns the same result as the synchronous one, fonts and errors in
    the same order, and leaves the same cache; so do the asynchronous
    terminal methods of the scanner. *)
Theorem async_scan_equals_sync_scan (h : Host) (clk : Clock)
  (options : FontScanOptions) (c : CacheState) :
  (forall dir, In dir (getPlatformFontDirs h options) ->
               access h dir = existsSync h dir) ->
  getAllFontsWithResultAsync h clk options c
  = getAllFontsWithResultSync h clk options c /\
  getAllFontsAsync h clk options c = getAllFontsSync h clk options c /\
  (forall this, _options this = options ->
     getResultAsync h clk this c = getResult h clk this c /\
     getFontsAsync h clk this c = getFonts h clk this c).
Proof.
  intros Hsame.
  assert (Heq : getAllFontsWithResultAsync h clk options c
                = getAllFontsWithResultSync h clk options c).
  { destruct (cacheLookup options c (now clk)) as [cached|] eqn:Hc.
    - destruct (scan_cached h clk options c cached Hc) as [-> ->].
      reflexivity.
    - rewrite (getAllFontsWithResultSync_fresh h clk options c Hc).
      rewrite (getAllFontsWithResultAsync_fresh h clk options c Hc).
      rewrite (candidateFilesAsync_sync h options Hsame). reflexivity. }
  split; [exact Heq|].
  assert (Hall : getAllFontsAsync h clk options c
                 = getAllFontsSync h clk options c)
    by (unfold getAllFontsAsync, getAllFontsSync; rewrite Heq; reflexivity).
  split; [exact Hall|].
  intros this <-. unfold getResultAsync, getResult, getFontsAsync, getFonts.
  rewrite Heq, Hall. split; reflexivity.
Qed.

(** The demo host answers [access] as [existsSync]. *)
Lemma async_scan_equals_sync_scan_witness :
  getAllFontsWithResultAsync demoHost demoClock defaultOptions initialCache
  = getAllFontsWithResultSync demoHost demoClock defaultOptions initialCache.
Proof.
  apply (async_scan_equals_sync_scan demoHost demoClock defaultOptions
           initialCache).
  intros dir _. reflexivity.
Defined.

(** X10.  A scan with [useCache: false] neither reads nor writes the
    cache: it leaves the cache as it found it, and its result is the one
    it returns on the empty cache. *)
Theorem uncached_scan_leaves_cache_alone (h : Host) (clk : Clock)
  (options : FontScanOptions) (c : CacheState) :
  useCache options = Some false ->
  snd (getAllFontsWithResultSync h clk options c) = c /\
  fst (getAllFontsWithResultSync h clk options c)
  = fst (getAllFontsWithResultSync h clk options initialCache) /\
  snd (getAllFontsWithResultAsync h clk options c) = c /\
  fst (getAllFontsWithResultAsync h clk options c)
  = fst (getAllFontsWithResultAsync h clk options initialCache).
Proof.
  intros Hoff.
  assert (Hen : useCacheEnabled options = false)
    by (unfold useCacheEnabled; rewrite Hoff; reflexivity).
  assert (Hmiss : forall c', cacheLookup options c' (now clk) = None)
    by (intros c'; unfold cacheLookup; rewrite Hen; reflexivity).
  rewrite !(getAllFontsWithResultSync_fresh h clk options _ (Hmiss _)).
  rewrite !(getAllFontsWithResultAsync_fresh h clk options _ (Hmiss _)).
  unfold updateCache. rewrite Hen. repeat split.
Qed.

(** A stale cache is neither served nor replaced. *)
Lemma uncached_scan_leaves_cache_alone_witness :
  useCache noCacheOptions = Some false /\
  snd (getAllFontsWithResultSync demoHost demoClock noCacheOptions
         (mkCacheState (Some []) 990))
  = mkCacheState (Some []) 990.
Proof.
  assert (H : useCache noCacheOptions = Some false) by reflexivity.
  split; [exact H|].
  exact (proj1 (uncached_scan_leaves_cache_alone demoHost demoClock
                  noCacheOptions (mkCacheState (Some []) 990) H)).
Defined.

Lemma cacheLookup_fontCache (options : FontScanOptions) (c : CacheState)
  (t : Z) (cached : list FontEntry) :
  cacheLookup options c t = Some cached -> fontCache c = Some cached.
Proof.
  unfold cacheLookup. destruct (useCacheEnabled options); [|discriminate].
  destruct (fontCache c) as [l|]; [|discriminate].
  destruct (t - cacheTimestamp c <? CACHE_DURATION); [|discriminate].
  intros H. exact H.
Qed.

(** X11.  The cache only ever holds, and the scans only ever return,
    fonts with a non-empty name: this holds of the empty cache the
    module starts with, is kept by [clearFontCache] and by both scans,
    and every font of a scan result has a non-empty name. *)
Theorem scans_return_named_fonts (h : Host) (clk : Clock)
  (options : FontScanOptions) (c : CacheState) :
  cacheNamed c ->
  cacheNamed initialCache /\ cacheNamed (clearFontCache c) /\
  (forall f,
     In f (fonts (fst (getAllFontsWithResultSync h clk options c))) \/
     In f (fonts (fst (getAllFontsWithResultAsync h clk options c))) ->
     opt_truthy (name f) = true) /\
  cacheNamed (snd (getAllFontsWithResultSync h clk options c)) /\
  cacheNamed (snd (getAllFontsWithResultAsync h clk options c)).
Proof.
  intros Hc.
  split; [intros cached f H; discriminate H|].
  split; [intros cached f H; discriminate H|].
  destruct (cacheLookup options c (now clk)) as [cached|] eqn:Hl.
  - destruct (scan_cached h clk options c cached Hl) as [-> ->].
    cbn [fst snd fonts cachedResult]. split; [|split; exact Hc].
    intros f [Hf|Hf]; apply (Hc cached f);
      try exact Hf; eapply cacheLookup_fontCache; exact Hl.
  - rewrite (getAllFontsWithResultSync_fresh h clk options c Hl).
    rewrite (getAllFontsWithResultAsync_fresh h clk options c Hl).
    cbn [fst snd fonts]. split.
    + intros f [Hf|Hf]; eapply entriesOf_named; exact Hf.
    + unfold updateCache.
      destruct (useCacheEnabled options); [|split; exact Hc].
      split; intros l f Hl' Hf; cbn [fontCache] in Hl';
        injection Hl' as <-; eapply entriesOf_named; exact Hf.
Qed.

(** The first scan of the demo filesystem. *)
Lemma scans_return_named_fonts_witness :
  cacheNamed initialCache /\
  cacheNamed (snd (getAllFontsWithResultSync demoHost demoClock defaultOptions
                     initialCache)).
Proof.
  assert (H : cacheNamed initialCache)
    by (intros cached f Hc; discriminate Hc).
  split; [exact H|].
  exact (proj1 (proj2 (proj2 (proj2
           (scans_return_named_fonts demoHost demoClock defaultOptions
              initialCache H))))).
Defined.

(** ** The filters of the scanner *)

Lemma filter_filter_andb {A} (p q : A -> bool) (l : list A) :
  filter q (filter p l) = filter (fun x => p x && q x) l.
Proof.
  induction l as [|x l IH]; [reflexivity|]. cbn [filter].
  destruct (p x); cbn [filter andb]; [destruct (q x)|]; rewrite IH;
    reflexivity.
Qed.

Lemma filter_true {A} (l : list A) : filter (fun _ => true) l = l.
Proof.
  induction l as [|x l IH]; [reflexivity|]. simpl. rewrite IH. reflexivity.
Qed.

Lemma applyFilters_passes (this : FontScanner) (l : list FontEntry) :
  _applyFilters this l = filter (passes this) l.
Proof.
  assert (H1 : match filterFormat (_filters this) with
               | Some f => if truthy f then filter (formatMatches f) l else l
               | None => l
               end = filter (passesFormat this) l).
  { unfold passesFormat. destruct (filterFormat (_filters this)) as [f|];
      [destruct (truthy f)|]; rewrite ?filter_true; reflexivity. }
  unfold _applyFilters. rewrite H1.
  assert (H2 : match filterWeight (_filters this) with
               | Some w => filter (weightMatches w)
                             (filter (passesFormat this) l)
               | None => filter (passesFormat this) l
               end
               = filter (passesWeight this) (filter (passesFormat this) l)).
  { unfold passesWeight. destruct (filterWeight (_filters this));
      rewrite ?filter_true; reflexivity. }
  rewrite H2.
  assert (H3 : match monospaceOnly (_filters this) with
               | Some true =>
                   filter isMonospaceTrue
                     (filter (passesWeight this)
                        (filter (passesFormat this) l))
               | _ => filter (passesWeight this) (filter (passesFormat this) l)
               end
               = filter (passesMonospace this)
                   (filter (passesWeight this)
                      (filter (passesFormat this) l))).
  { unfold passesMonospace.
    destruct (monospaceOnly (_filters this)) as [[|]|];
      rewrite ?filter_true; reflexivity. }
  rewrite H3.
  assert (H4 : match nameSearch (_filters this) with
               | Some ns =>
                   if exact ns
                   then filter (nameMatchesExactly (query ns))
                          (filter (passesMonospace this)
                             (filter (passesWeight this)
                                (filter (passesFormat this) l)))
                   else filter (nameContains (query ns))
                          (filter (passesMonospace this)
                             (filter (passesWeight this)
                                (filter (passesFormat this) l)))
               | None => filter (passesMonospace this)
                           (filter (passesWeight this)
                              (filter (passesFormat this) l))
               end
               = filter (passesName this)
                   (filter (passesMonospace this)
                      (filter (passesWeight this)
                         (filter (passesFormat this) l)))).
  { unfold passesName. destruct (nameSearch (_filters this)) as [ns|];
      [destruct (exact ns)|]; rewrite ?filter_true; reflexivity. }
  rewrite H4, !filter_filter_andb. apply filter_ext. intros x.
  unfold passes.
  destruct (passesFormat this x), (passesWeight this x),
    (passesMonospace this x), (passesName this x); reflexivity.
Qed.

(** X12.  The filters of a scanner act as a conjunction: a font is in
    the filtered list exactly when it is in the input and passes every
    filter that was set (an empty format string sets none), and the
    filtered list keeps the order of the input. *)
Theorem applyFilters_is_conjunction (this : FontScanner)
  (l : list FontEntry) :
  _applyFilters this l = filter (passes this) l /\
  (forall font,
     In font (_applyFilters this l) <->
     In font l /\
     passesFormat this font = true /\ passesWeight this font = true /\
     passesMonospace this font = true /\ passesName this font = true).
Proof.
  split; [apply applyFilters_passes|].
  intros font. rewrite applyFilters_passes, filter_In. unfold passes.
  rewrite !andb_true_iff. tauto.
Qed.

(** X13.  Filtering composes: the filters of two scanners applied one
    after the other give the same list in either order, and applying the
    filters of one scanner twice gives what applying them once gives. *)
Theorem applyFilters_commute (a b : FontScanner) (l : list FontEntry) :
  _applyFilters a (_applyFilters b l) = _applyFilters b (_applyFilters a l) /\
  _applyFilters a (_applyFilters a l) = _applyFilters a l.
Proof.
  rewrite !applyFilters_passes, !filter_filter_andb. split.
  - apply filter_ext. intros x. apply andb_comm.
  - apply filter_ext. intros x. destruct (passes a x); reflexivity.
Qed.

Lemma startsWith_refl (s : jsstring) : startsWith s s = true.
Proof.
  induction s as [|x s IH]; [reflexivity|]. simpl.
  rewrite Z.eqb_refl, IH. reflexivity.
Qed.

Lemma includes_refl (s : jsstring) : includes s s = true.
Proof.
  destruct s; simpl; rewrite ?Z.eqb_refl, ?startsWith_refl; reflexivity.
Qed.

Lemma nameMatchesExactly_nameContains (q : jsstring) (font : FontEntry) :
  nameMatchesExactly q font = true -> nameContains q font = true.
Proof.
  unfold nameMatchesExactly, nameContains. intros H.
  apply orb_true_iff in H as [H|H]; apply orb_true_iff.
  - left. apply str_eqb_eq in H. rewrite H. apply includes_refl.
  - right. destruct (family font) as [f|]; [|discriminate H].
    simpl in H. apply str_eqb_eq in H. rewrite H. apply includes_refl.
Qed.

(** X14.  Whatever the other filters, every font that
    [matchNameExactly(q)] keeps is also kept by [searchByName(q)]: an
    exact match of the name or the family is a partial match. *)
Theorem exact_matches_are_partial_matches (q : jsstring)
  (this : FontScanner) (l : list FontEntry) :
  incl (_applyFilters (matchNameExactly q this) l)
       (_applyFilters (searchByName q this) l).
Proof.
  intros font. rewrite !applyFilters_passes, !filter_In.
  intros [Hin Hp]. split; [exact Hin|].
  unfold passes in *. apply andb_true_iff in Hp as [Hrest Hname].
  apply andb_true_iff. split; [exact Hrest|].
  apply nameMatchesExactly_nameContains. exact Hname.
Qed.

(** ** Directory traversal *)

Section Traversal.

Variable t : Walk.Tree.

Lemma walk_entries_closed (n : nat) (dir : jsstring)
  (files : list Walk.Dirent) (acc : list jsstring) :
  (forall d fl, Walk.walkDirLevels t n d fl
                = fl ++ Walk.walkDirLevels t n d []) ->
  fold_left
    (fun acc file =>
       let fullPath := Walk.join t dir (Walk.direntName file) in
       if Walk.isDirectory file then
         if Walk.entered (Walk.direntName file)
         then Walk.walkDirLevels t n fullPath acc
         else acc
       else if Walk.isFile file then
         if isFontFile fullPath then acc ++ [fullPath] else acc
       else acc)
    files acc
  = acc ++ flat_map (Walk.entryFiles t n dir) files.
Proof.
  intros Happ. revert acc; induction files as [|file files IH]; intros acc.
  - simpl. rewrite app_nil_r. reflexivity.
  - cbn [fold_left flat_map]. rewrite IH. unfold Walk.entryFiles at 2.
    cbv zeta.
    destruct (Walk.isDirectory file).
    + destruct (Walk.entered (Walk.direntName file)).
      * rewrite Happ, <- app_assoc. reflexivity.
      * reflexivity.
    + destruct (Walk.isFile file); [|reflexivity].
      destruct (isFontFile _); [rewrite <- app_assoc|]; reflexivity.
Qed.

Lemma walkDirLevels_S (n : nat) (dir : jsstring) (fileList : list jsstring) :
  Walk.walkDirLevels t (S n) dir fileList
  = match Walk.readdirSync t dir with
    | inl _ => fileList
    | inr files =>
        fold_left
          (fun acc file =>
             let fullPath := Walk.join t dir (Walk.direntName file) in
             if Walk.isDirectory file then
               if Walk.entered (Walk.direntName file)
               then Walk.walkDirLevels t n fullPath acc
               else acc
             else if Walk.isFile file then
               if isFontFile fullPath then acc ++ [fullPath] else acc
             else acc)
          files fileList
    end.
Proof. reflexivity. Qed.

Lemma walkDirLevels_app (n : nat) (dir : jsstring) (fileList : list jsstring) :
  Walk.walkDirLevels t n dir fileList
  = fileList ++ Walk.walkDirLevels t n dir [].
Proof.
  revert dir fileList; induction n as [|n IH]; intros dir fileList.
  - simpl. rewrite app_nil_r. reflexivity.
  - rewrite !walkDirLevels_S.
    destruct (Walk.readdirSync t dir) as [e|files];
      [rewrite app_nil_r; reflexivity|].
    rewrite !(walk_entries_closed n dir files _ IH). reflexivity.
Qed.

Lemma walkDirLevels_closed (n : nat) (dir : jsstring) :
  Walk.walkDirLevels t (S n) dir []
  = match Walk.readdirSync t dir with
    | inl _ => []
    | inr files => flat_map (Walk.entryFiles t n dir) files
    end.
Proof.
  rewrite walkDirLevels_S.
  destruct (Walk.readdirSync t dir) as [e|files]; [reflexivity|].
  rewrite (walk_entries_closed n dir files [] (walkDirLevels_app n)).
  reflexivity.
Qed.

Lemma walkDirLevels_font_files (n : nat) (dir p : jsstring) :
  In p (Walk.walkDirLevels t n dir []) -> isFontFile p = true.
Proof.
  revert dir; induction n as [|n IH]; intros dir; [simpl; tauto|].
  rewrite walkDirLevels_closed.
  destruct (Walk.readdirSync t dir) as [e|files]; [simpl; tauto|].
  rewrite in_flat_map. intros [file [_ Hp]]. unfold Walk.entryFiles in Hp.
  cbv zeta in Hp. destruct (Walk.isDirectory file).
  - destruct (Walk.entered (Walk.direntName file));
      [eapply IH; exact Hp | elim (in_nil Hp)].
  - destruct (Walk.isFile file); [|elim (in_nil Hp)].
    destruct (isFontFile (Walk.join t dir (Walk.direntName file))) eqn:Hf;
      [|elim (in_nil Hp)].
    destruct Hp as [<- | Hp]; [exact Hf | elim (in_nil Hp)].
Qed.

Lemma walkDirLevels_deeper (n : nat) (dir : jsstring) :
  incl (Walk.walkDirLevels t n dir []) (Walk.walkDirLevels t (S n) dir []).
Proof.
  revert dir; induction n as [|n IH]; intros dir; [intros p []|].
  rewrite !walkDirLevels_closed.
  destruct (Walk.readdirSync t dir) as [e|files]; [apply incl_refl|].
  intros p. rewrite !in_flat_map. intros [file [Hin Hp]].
  exists file. split; [exact Hin|].
  unfold Walk.entryFiles in *. cbv zeta in *.
  destruct (Walk.isDirectory file); [|exact Hp].
  destruct (Walk.entered (Walk.direntName file));
    [apply IH; exact Hp | exact Hp].
Qed.

Lemma walkDirLevels_monotone (n m : nat) (dir : jsstring) :
  (n <= m)%nat ->
  incl (Walk.walkDirLevels t n dir []) (Walk.walkDirLevels t m dir []).
Proof.
  induction 1 as [|m Hle IH]; [apply incl_refl|].
  eapply incl_tran; [exact IH | apply walkDirLevels_deeper].
Qed.

End Traversal.

(** X15.  [walkDir] only appends to the list it is given, and what it
    appends does not depend on that list; it appends nothing when
    [maxDepth <= 0] or when the directory cannot be read, and otherwise
    what each entry of the directory contributes, entry after entry;
    every path it appends has one of the seven font extensions, compared
    in lower case. *)
Theorem walkDir_appends_font_files (t : Walk.Tree) (dir : jsstring)
  (fileList : list jsstring) (maxDepth : Z) :
  Walk.walkDir t dir fileList maxDepth
  = fileList ++ Walk.walkDir t dir [] maxDepth /\
  (maxDepth <= 0 -> Walk.walkDir t dir fileList maxDepth = fileList) /\
  (forall e, Walk.readdirSync t dir = inl e ->
             Walk.walkDir t dir fileList maxDepth = fileList) /\
  (forall files, 0 < maxDepth -> Walk.readdirSync t dir = inr files ->
     Walk.walkDir t dir fileList maxDepth
     = fileList
       ++ flat_map (Walk.entryFiles t (Z.to_nat (maxDepth - 1)) dir) files) /\
  (forall p, In p (Walk.walkDir t dir [] maxDepth) -> isFontFile p = true).
Proof.
  unfold Walk.walkDir. split; [apply walkDirLevels_app|].
  split; [|split; [|split]].
  - intros Hd. replace (Z.to_nat maxDepth) with O by lia. reflexivity.
  - intros e He. destruct (Z.to_nat maxDepth); [reflexivity|].
    rewrite walkDirLevels_S, He. reflexivity.
  - intros files Hd Hr. rewrite walkDirLevels_app.
    replace (Z.to_nat maxDepth) with (S (Z.to_nat (maxDepth - 1))) by lia.
    rewrite walkDirLevels_closed, Hr. reflexivity.
  - intros p. apply walkDirLevels_font_files.
Qed.

(** The unreadable directory of the demo tree, and its font directory. *)
Lemma walkDir_appends_font_files_witness :
  Walk.walkDir demoTree (lit "/locked") [lit "/kept.ttf"] 3
  = [lit "/kept.ttf"] /\
  Walk.walkDir demoTree (lit "/fonts") [lit "/kept.ttf"] 0
  = [lit "/kept.ttf"].
Proof.
  split.
  - apply (proj1 (proj2 (proj2 (walkDir_appends_font_files demoTree
             (lit "/locked") [lit "/kept.ttf"] 3))) EACCES).
    reflexivity.
  - apply (proj1 (proj2 (walkDir_appends_font_files demoTree
             (lit "/fonts") [lit "/kept.ttf"] 0))).
    lia.
Defined.

(** X16.  [maxDepth] bounds the number of directory levels read: a
    larger depth finds every file a smaller depth finds, and with
    [maxDepth = 1] only the font files directly in the directory are
    found, none from a subdirectory. *)
Theorem walkDir_depth (t : Walk.Tree) (dir : jsstring) :
  (forall d1 d2, d1 <= d2 ->
     incl (Walk.walkDir t dir [] d1) (Walk.walkDir t dir [] d2)) /\
  (forall files, Walk.readdirSync t dir = inr files ->
     Walk.walkDir t dir [] 1
     = flat_map
         (fun file =>
            if negb (Walk.isDirectory file) && Walk.isFile file &&
               isFontFile (Walk.join t dir (Walk.direntName file))
            then [Walk.join t dir (Walk.direntName file)]
            else [])
         files).
Proof.
  split.
  - intros d1 d2 Hle. unfold Walk.walkDir.
    apply walkDirLevels_monotone. lia.
  - intros files Hr. unfold Walk.walkDir.
    change (Z.to_nat 1) with 1%nat. rewrite walkDirLevels_closed, Hr.
    apply flat_map_ext. intros file. unfold Walk.entryFiles. cbv zeta.
    destruct (Walk.isDirectory file); cbn [negb andb].
    + destruct (Walk.entered (Walk.direntName file)); reflexivity.
    + destruct (Walk.isFile file); reflexivity.
Qed.

(** In the demo tree depth 1 finds [A.TTF] alone; depth 3 also the fonts
    of [sub] and [sub/deep]. *)
Lemma walkDir_depth_witness :
  incl (Walk.walkDir demoTree (lit "/fonts") [] 1)
       (Walk.walkDir demoTree (lit "/fonts") [] 3) /\
  Walk.walkDir demoTree (lit "/fonts") [] 1 = [lit "/fonts/A.TTF"].
Proof.
  split.
  - apply (proj1 (walkDir_depth demoTree (lit "/fonts")) 1 3). lia.
  - rewrite (proj2 (walkDir_depth demoTree (lit "/fonts")) _ eq_refl).
    vm_compute. reflexivity.
Defined.

Lemma arrayIncludes_In (arr : list jsstring) (x : jsstring) :
  arrayIncludes arr x = true <-> In x arr.
Proof.
  unfold arrayIncludes. rewrite existsb_exists. split.
  - intros [y [Hin Heq]]. apply str_eqb_eq in Heq. subst. exact Hin.
  - intros Hin. exists x. split; [exact Hin | apply str_eqb_refl].
Qed.

Lemma entriesOf_In (h : Host) (files : list jsstring) (f : FontEntry) :
  In f (entriesOf h files) ->
  exists file, In file files /\ fileOutcome h file = inl f.
Proof.
  unfold entriesOf. rewrite in_flat_map. intros [file [Hin Hf]].
  exists file. split; [exact Hin|].
  destruct (fileOutcome h file) as [f'|e]; [|elim (in_nil Hf)].
  destruct Hf as [<- | Hf]; [reflexivity | elim (in_nil Hf)].
Qed.

Lemma fileOutcome_format (h : Host) (file : jsstring) (f : FontEntry) :
  fileOutcome h file = inl f ->
  format f = Some (substring1 (toLowerCase (Path.extname file))).
Proof.
  unfold fileOutcome, readFontMetadataSync.
  destruct (statSync h file) as [|stats]; [discriminate|].
  destruct (readFileSync h file) as [|buffer]; [discriminate|].
  destruct (opt_truthy _); [|discriminate].
  intros H; injection H as <-.
  pose proof (synthesize_hostFields file stats buffer) as Hh.
  unfold hostFields in Hh. congruence.
Qed.

(** X17.  When the candidates come from [walkDir] with its default
    depth, every candidate of a scan has one of the seven font
    extensions, and the [format] of every font a scan that is not served
    from the cache returns is one of them without its dot: [ttf], [otf],
    [woff], [woff2], [ttc], [fon] or [fnt]. *)
Theorem scanned_fonts_have_font_extension (t : Walk.Tree) (h : Host)
  (clk : Clock) (options : FontScanOptions) (c : CacheState) :
  cacheLookup options c (now clk) = None ->
  (forall file,
     In file (fst (candidateFiles (Walk.hostOf t h) options)) ->
     isFontFile file = true) /\
  (forall f,
     In f (fonts (fst (getAllFontsWithResultSync (Walk.hostOf t h) clk
                         options c))) ->
     exists ext,
       In ext FONT_EXTENSIONS /\ format f = Some (substring1 ext)).
Proof.
  intros Hmiss.
  assert (Hcand : forall file,
            In file (fst (candidateFiles (Walk.hostOf t h) options)) ->
            isFontFile file = true).
  { intros file. unfold candidateFiles. rewrite collectDir_closed.
    cbn [fst app]. rewrite in_flat_map. intros [dir [_ Hin]].
    cbn [walkDir Walk.hostOf] in Hin. unfold Walk.walkDir in Hin.
    eapply walkDirLevels_font_files. exact Hin. }
  split; [exact Hcand|].
  intros f.
  rewrite (getAllFontsWithResultSync_fresh _ clk options c Hmiss).
  cbn [fst fonts]. intros Hf.
  apply entriesOf_In in Hf as [file [Hin Ho]].
  exists (toLowerCase (Path.extname file)). split.
  - apply arrayIncludes_In. apply (Hcand file Hin).
  - eapply fileOutcome_format. exact Ho.
Qed.

(** The demo host over the demo tree: its fonts are [ttf], [otf] and
    [woff2] files. *)
Lemma scanned_fonts_have_font_extension_witness :
  cacheLookup noCacheOptions initialCache (now demoClock) = None /\
  forall file,
    In file (fst (candidateFiles (Walk.hostOf demoTree demoHost)
                    noCacheOptions)) ->
    isFontFile file = true.
Proof.
  assert (H : cacheLookup noCacheOptions initialCache (now demoClock) = None)
    by reflexivity.
  split; [exact H|].
  exact (proj1 (scanned_fonts_have_font_extension demoTree demoHost demoClock
                  noCacheOptions initialCache H)).
Defined.

(** ** Platform font directories *)

Lemma dedupe_In (seen dirs : list jsstring) (x : jsstring) :
  In x (Platform.dedupe seen dirs) <-> In x dirs /\ ~ In x seen.
Proof.
  revert seen; induction dirs as [|d dirs IH]; intros seen;
    cbn [Platform.dedupe].
  - simpl. tauto.
  - destruct (arrayIncludes seen d) eqn:Hd.
    + apply arrayIncludes_In in Hd. rewrite IH. simpl. split.
      * tauto.
      * intros [[<- | Hin] Hns]; [contradiction | tauto].
    + assert (Hnd : ~ In d seen)
        by (intros Hin; apply arrayIncludes_In in Hin; congruence).
      simpl. rewrite IH. simpl. split.
      * intros [<- | [Hin Hns]]; [tauto|]. split; [tauto|].
        intros Hs. apply Hns. right. exact Hs.
      * intros [[<- | Hin] Hns]; [left; reflexivity|].
        destruct (list_eq_dec Z.eq_dec d x) as [->|Hne];
          [left; reflexivity|].
        right. split; [exact Hin|]. intros [Heq | Hs]; [congruence | tauto].
Qed.

Lemma dedupe_NoDup (seen dirs : list jsstring) :
  NoDup (Platform.dedupe seen dirs).
Proof.
  revert seen; induction dirs as [|d dirs IH]; intros seen;
    cbn [Platform.dedupe]; [constructor|].
  destruct (arrayIncludes seen d); [apply IH|].
  constructor; [|apply IH].
  rewrite dedupe_In. intros [_ Hns]. apply Hns. left. reflexivity.
Qed.

Lemma dedupe_app (seen a b : list jsstring) :
  exists seen',
    Platform.dedupe seen (a ++ b)
    = Platform.dedupe seen a ++ Platform.dedupe seen' b.
Proof.
  revert seen; induction a as [|d a IH]; intros seen; cbn [app Platform.dedupe].
  - exists seen. reflexivity.
  - destruct (arrayIncludes seen d); [apply IH|].
    destruct (IH (d :: seen)) as [seen' ->]. exists seen'. reflexivity.
Qed.

(** X18.  [getPlatformFontDirs] returns every directory it collects
    exactly once: the result has no duplicates, holds exactly the custom
    directories and the directories of the platform, and starts with the
    custom directories in the order given (each at its first
    occurrence); with [includeSystemFonts] and [includeUserFonts] both
    [false] it holds the custom directories only, on every platform. *)
Theorem getPlatformFontDirs_dedupes (e : Platform.Env)
  (options : FontScanOptions) :
  NoDup (Platform.getPlatformFontDirs e options) /\
  (forall dir,
     In dir (Platform.getPlatformFontDirs e options) <->
     In dir (Platform.customDirsOf options) \/
     In dir (Platform.platformDirs e options)) /\
  (exists rest,
     Platform.getPlatformFontDirs e options
     = Platform.dedupe [] (Platform.customDirsOf options) ++ rest) /\
  (includeSystemFonts options = Some false ->
   includeUserFonts options = Some false ->
   Platform.getPlatformFontDirs e options
   = Platform.dedupe [] (Platform.customDirsOf options)).
Proof.
  unfold Platform.getPlatformFontDirs. split; [apply dedupe_NoDup|].
  split; [|split].
  - intros dir. rewrite dedupe_In, in_app_iff. simpl. tauto.
  - destruct (dedupe_app [] (Platform.customDirsOf options)
                (Platform.platformDirs e options)) as [seen' ->].
    eexists. reflexivity.
  - intros Hs Hu. unfold Platform.platformDirs, Platform.notFalse.
    rewrite Hs, Hu. destruct (Platform.platform e); cbn [app];
      rewrite app_nil_r; reflexivity.
Qed.

(** Custom directories with a repetition, on Linux. *)
Lemma getPlatformFontDirs_dedupes_witness :
  NoDup (Platform.getPlatformFontDirs linuxEnv customOptions) /\
  Platform.getPlatformFontDirs linuxEnv
    (mkFontScanOptions None (Some false) (Some false)
       (Some [lit "/opt/fonts"; lit "/opt/fonts"]))
  = [lit "/opt/fonts"].
Proof.
  split.
  - exact (proj1 (getPlatformFontDirs_dedupes linuxEnv customOptions)).
  - rewrite (proj2 (proj2 (proj2 (getPlatformFontDirs_dedupes linuxEnv
               (mkFontScanOptions None (Some false) (Some false)
                  (Some [lit "/opt/fonts"; lit "/opt/fonts"])))))
               eq_refl eq_refl).
    vm_compute. reflexivity.
Defined.

(** ** Chained filters and fonts without known tables *)

Lemma opt_str_eqb_eq (a b : option jsstring) :
  opt_str_eqb a b = true <-> a = b.
Proof.
  destruct a as [x|], b as [y|]; simpl; split; try discriminate;
    try reflexivity.
  - intros H. apply str_eqb_eq in H. congruence.
  - intros H. injection H as ->. apply str_eqb_refl.
Qed.

Lemma weightMatches_eq (w : Z) (font : FontEntry) :
  weightMatches w font = true <-> weight font = Some w.
Proof.
  unfold weightMatches. destruct (weight font) as [x|]; split;
    try discriminate.
  - intros H. apply Z.eqb_eq in H. congruence.
  - intros H. injection H as ->. apply Z.eqb_refl.
Qed.

(** X19.  [scan(options).filterByFormat(fmt).filterByWeight(w)] and the
    same chain with the two calls exchanged build the same scanner, and
    [getFonts()] on it returns exactly the fonts of the scan whose
    format, in lower case, is [fmt] in lower case (every format when
    [fmt] is empty) and whose weight is [w]; fonts without a weight are
    left out. *)
Theorem format_then_weight_chain (h : Host) (clk : Clock)
  (options : FontScanOptions) (c : CacheState) (fmt : jsstring) (w : Z) :
  filterByWeight w (filterByFormat fmt (scan options))
  = filterByFormat fmt (filterByWeight w (scan options)) /\
  (forall font,
     In font (fst (getFonts h clk
                     (filterByWeight w (filterByFormat fmt (scan options)))
                     c)) <->
     In font (fst (getAllFontsSync h clk options c)) /\
     (fmt = [] \/
      option_map toLowerCase (format font) = Some (toLowerCase fmt)) /\
     weight font = Some w) /\
  snd (getFonts h clk (filterByWeight w (filterByFormat fmt (scan options))) c)
  = snd (getAllFontsSync h clk options c).
Proof.
  split; [reflexivity|].
  unfold getFonts. cbn [_options filterByWeight filterByFormat scan].
  destruct (getAllFontsSync h clk options c) as [allFonts c'].
  cbn [fst snd]. split; [|reflexivity].
  intros font. rewrite applyFilters_passes, filter_In.
  unfold passes, passesFormat, passesWeight, passesMonospace, passesName.
  cbn [_filters filterFormat filterWeight monospaceOnly nameSearch
       filterByWeight filterByFormat scan].
  rewrite !andb_true_r, andb_true_iff, weightMatches_eq.
  assert (Hfmt : (if truthy (toLowerCase fmt)
                  then formatMatches (toLowerCase fmt) font else true) = true
                 <-> fmt = [] \/
                     option_map toLowerCase (format font)
                     = Some (toLowerCase fmt)).
  { destruct fmt as [|x fmt]; simpl truthy; cbv iota.
    - split; [intros _; left; reflexivity | reflexivity].
    - unfold formatMatches. rewrite opt_str_eqb_eq.
      split; [intros H; right; exact H|].
      intros [H|H]; [discriminate H | exact H]. }
  rewrite Hfmt. tauto.
Qed.

Lemma decodeEntry_unknown_tag (buffer : Buffer) (i : Z) :
  entryTag buffer i <> lit "name" -> entryTag buffer i <> lit "OS/2" ->
  entryTag buffer i <> lit "post" ->
  decodeEntry buffer i = emptyEntry.
Proof.
  intros Hn Ho Hp. unfold decodeEntry.
  destruct (Buf.readUInt32BE buffer (12 + i * 16 + 8)); [|reflexivity].
  destruct (Buf.readUInt32BE buffer (12 + i * 16 + 12)); [|reflexivity].
  destruct (str_eqb (entryTag buffer i) (lit "name")) eqn:En;
    [apply str_eqb_eq in En; contradiction|].
  destruct (str_eqb (entryTag buffer i) (lit "OS/2")) eqn:Eo;
    [apply str_eqb_eq in Eo; contradiction|].
  destruct (str_eqb (entryTag buffer i) (lit "post")) eqn:Ep;
    [apply str_eqb_eq in Ep; contradiction|].
  reflexivity.
Qed.

(** X20.  A font of at least 12 bytes none of whose visited directory
    entries is tagged [name], [OS/2] or [post] decodes to the empty
    metadata, whatever its other tables hold; in particular a header
    that declares no table does. *)
Theorem unknown_tables_decode_to_nothing (buffer : Buffer) :
  12 <= Buf.length buffer ->
  (forall i, In i (directoryEntries buffer) ->
     entryTag buffer i <> lit "name" /\ entryTag buffer i <> lit "OS/2" /\
     entryTag buffer i <> lit "post") ->
  parseTTFOTFFont buffer = Some emptyEntry.
Proof.
  intros Hlen Htags. rewrite parseTTFOTFFont_merge by exact Hlen.
  f_equal. unfold mergeEntries.
  induction (directoryEntries buffer) as [|k l IH]; [reflexivity|].
  cbn [fold_left]. rewrite decodeEntry_unknown_tag;
    try apply (Htags k (or_introl eq_refl)).
  rewrite assign_emptyEntry_r. apply IH.
  intros i Hi. apply Htags. right. exact Hi.
Qed.

(** A font whose only table is tagged [glyf]. *)
Lemma unknown_tables_decode_to_nothing_witness :
  12 <= Buf.length (Buf.ofList ([0; 1; 0; 0; 0; 1; 0; 0; 0; 0; 0; 0]
                                ++ directoryEntryBytes "glyf" 28 0)) /\
  parseTTFOTFFont (Buf.ofList ([0; 1; 0; 0; 0; 1; 0; 0; 0; 0; 0; 0]
                               ++ directoryEntryBytes "glyf" 28 0))
  = Some emptyEntry.
Proof.
  assert (Hlen : 12 <= Buf.length
                         (Buf.ofList ([0; 1; 0; 0; 0; 1; 0; 0; 0; 0; 0; 0]
                                      ++ directoryEntryBytes "glyf" 28 0)))
    by (vm_compute; discriminate).
  split; [exact Hlen|].
  apply (unknown_tables_decode_to_nothing _ Hlen).
  intros i Hi. vm_compute in Hi. destruct Hi as [<- | []].
  repeat split; vm_compute; discriminate.
Defined.
